(** * n3r-sdk: prize-distributor client, legacy draw-results normalizer

    A shallow embedding of the two [formatDrawResultsFromLegacyDrawResults]
    utilities and of [PrizeDistributor.ts] (the distributor facade and
    [initializePrizeDistributors]), with the properties the specification
    states about them.

    Conventions of the embedding.
    - A draw id is a JavaScript [number] holding an unsigned 32-bit integer
      decoded from the chain; it is modelled by [Z], on which [Math.max],
      [Math.min], [<=] and [i++] are exact.
    - A [BigNumber] is modelled by the integer it holds.
    - A JavaScript object used as a record with dynamic keys (object spread,
      the [in] operator, [this[key]]) is a [gmap string _].
    - A function that can throw, and a promise once settled, is a
      [Settled _]: [Fulfilled v] or [Rejected reason]. *)

From Stdlib Require Import ZArith Lia.
From stdpp Require Import gmap strings list fin_maps sorting.

Set Warnings "-register-all".
Open Scope Z_scope.

(** ** Errors and settled results *)

(** The error kinds of the specification (section 7).  The source raises
    plain [Error] objects told apart by their message; the kind records
    which [throw] statement, validation helper or collaborator produced
    the error. *)
Inductive ErrorKind : Type :=
| AddressValidationError
| SignerRequiredError
| NetworkMismatchError
| NothingToClaimError
| ContractResolutionError
| TypeError            (* raised by the JavaScript runtime *)
| InvalidBigNumber     (* raised by [BigNumber.from] *)
| CallFailure.         (* a rejected network or contract call *)

Record Error : Type := mkError { kind : ErrorKind; message : string }.

Inductive Settled (A : Type) : Type :=
| Fulfilled (value : A)
| Rejected (reason : Error).
Arguments Fulfilled {A} value.
Arguments Rejected {A} reason.

Definition is_rejected {A} (r : Settled A) : bool :=
  match r with Rejected _ => true | Fulfilled _ => false end.

(** Sequencing of calls that can throw. *)
Definition and_then {A B} (r : Settled A) (k : A → Settled B) : Settled B :=
  match r with
  | Fulfilled a => k a
  | Rejected e => Rejected e
  end.

(** [xs.map(f)] where [f] can throw: the first exception aborts the map. *)
Fixpoint map_throwing {A B} (f : A → Settled B) (xs : list A) : Settled (list B) :=
  match xs with
  | [] => Fulfilled []
  | x :: xs' =>
      and_then (f x) (λ y, and_then (map_throwing f xs') (λ ys, Fulfilled (y :: ys)))
  end.

(** ** JavaScript values of the normalizer *)

Inductive value : Type :=
| VUndefined
| VNumber (n : Z)
| VBigNumber (n : Z)
| VString (s : string)
| VArray (elems : list value)
| VObject (fields : gmap string value).

(** [o.k] on an object: the field, or [undefined]. *)
Definition prop (o : gmap string value) (k : string) : value :=
  default VUndefined (o !! k).

(** [k in o]. *)
Definition has_prop (k : string) (o : gmap string value) : bool :=
  bool_decide (is_Some (o !! k)).

(** The typed records of [types.ts], as the objects they are at run time. *)
Definition PrizeAwardable (amount tierIndex pick : Z) : value :=
  VObject {[ "amount" := VBigNumber amount;
             "tierIndex" := VNumber tierIndex;
             "pick" := VBigNumber pick ]}.

Definition LEGACYPrize (amount distributionIndex pick : Z) : value :=
  VObject {[ "amount" := VBigNumber amount;
             "distributionIndex" := VNumber distributionIndex;
             "pick" := VBigNumber pick ]}.

Definition DrawResults (drawId totalValue : Z) (prizes : list value)
  : gmap string value :=
  {[ "drawId" := VNumber drawId;
     "totalValue" := VBigNumber totalValue;
     "prizes" := VArray prizes ]}.

Inductive canonical_prize : value → Prop :=
| canonical_prize_intro a t p : canonical_prize (PrizeAwardable a t p).

Inductive legacy_prize : value → Prop :=
| legacy_prize_intro a d p : legacy_prize (LEGACYPrize a d p).

(** The tier an input prize carries, under whichever name. *)
Definition tier_of (o : gmap string value) : value :=
  if has_prop "distributionIndex" o
  then prop o "distributionIndex"
  else prop o "tierIndex".

(** ** The draw-results conversion (the field-by-field variant) *)

Module DrawResultsConversion.
Section WithEthers.

(** [BigNumber.from] belongs to ethers.  It returns a [BigNumber]
  instance as it is; what it makes of any other value (numbers,
  decimal and hex strings, serialized big numbers) is left to
  [bigNumberish], and it throws where that gives nothing. *)
Variable bigNumberish : value → option Z.

Definition BigNumber_from (v : value) : Settled value :=
match v with
| VBigNumber n => Fulfilled (VBigNumber n)
| _ =>
    match bigNumberish v with
    | Some n => Fulfilled (VBigNumber n)
    | None => Rejected (mkError InvalidBigNumber "invalid BigNumber value")
    end
end.

(** The arrow function passed to [_prizes.map].  An element that is not
  a record lies outside the declared input type; the embedding rejects
  it with a [TypeError]. *)
Definition convert_prize (prize : value) : Settled value :=
match prize with
| VObject o =>
    and_then (BigNumber_from (prop o "amount")) (λ amount,
    let tierIndex := tier_of o in
    and_then (BigNumber_from (prop o "pick")) (λ pick,
    Fulfilled (VObject {[ "amount" := amount;
                          "tierIndex" := tierIndex;
                          "pick" := pick ]})))
| _ => Rejected (mkError TypeError "prize is not an object")
end.

Definition formatDrawResultsFromLegacyDrawResults
  (legacyDrawResult : gmap string value) : Settled (gmap string value) :=
match prop legacyDrawResult "prizes" with
| VArray _prizes =>
    and_then (map_throwing convert_prize _prizes) (λ prizes,
    let drawResults : gmap string value :=
      {[ "drawId" := prop legacyDrawResult "drawId";
         "totalValue" := prop legacyDrawResult "totalValue";
         "prizes" := VArray prizes ]} in
    Fulfilled drawResults)
| _ => Rejected (mkError TypeError "_prizes.map is not a function")
end.

End WithEthers.
End DrawResultsConversion.

(** ** The extended conversion (the shallow-merge variant) *)

Module ExtendedConversion.

(** [{ ...prize, tierIndex: ... }] *)
Definition normalize_prize (prize : value) : Settled value :=
  match prize with
  | VObject o => Fulfilled (VObject (<["tierIndex" := tier_of o]> o))
  | _ => Rejected (mkError TypeError "prize is not an object")
  end.

Definition formatDrawResultsFromLegacyDrawResults
    (legacyDrawResult : gmap string value) : Settled (gmap string value) :=
  match prop legacyDrawResult "prizes" with
  | VArray prizes =>
      and_then (map_throwing normalize_prize prizes) (λ normalizedPrizes,
      Fulfilled (<["prizes" := VArray normalizedPrizes]> legacyDrawResult))
  | _ => Rejected (mkError TypeError "prizes.map is not a function")
  end.

End ExtendedConversion.

(** ** Chain data ([types.ts]) *)

Module ContractType.
Inductive t : Type :=
| PrizeDistributor
| DrawCalculator
| DrawCalculatorTimelock
| DrawBuffer
| PrizeDistributionBuffer
| Ticket.

Global Instance eq_dec : EqDecision t.
Proof. solve_decision. Defined.
End ContractType.

Module ContractMetadata.
(** The interface descriptor ([abi]) and the remaining descriptive
    fields are not inspected by the code below and are left out. *)
Record t : Type := { chainId : Z; address : string; type : ContractType.t }.
End ContractMetadata.

(** An ethers [Contract]: a callable handle bound to an address. *)
Record Contract : Type := { contract_address : string }.

Record Signer : Type := { signer_label : string; signer_network : Z }.
Record Provider : Type := { provider_label : string }.

Inductive SignerOrProvider : Type :=
| IsProvider (p : Provider)
| IsSigner (s : Signer).

Module Draw.
Record t : Type := { drawId : Z; timestamp : Z; winningRandomNumber : Z }.
End Draw.

Module PrizeDistribution.
Record t : Type :=
  { matchCardinality : Z;
    numberOfPicks : Z;
    tiers : list Z;
    bitRangeSize : Z;
    prize : Z;
    drawStartTimestampOffset : Z;
    drawEndTimestampOffset : Z;
    maxPicksPerUser : Z }.
End PrizeDistribution.

Module Prize.
Record t : Type := { amount : Z; tierIndex : Z; pick : Z }.
End Prize.

Module DrawResults.
Record t : Type := { drawId : Z; totalValue : Z; prizes : list Prize.t }.
End DrawResults.

Module DrawCalcUser.
Record t : Type := { address : string; normalizedBalances : list Z }.
End DrawCalcUser.

Module Claim.
Record t : Type :=
  { userAddress : string; drawIds : list Z; encodedWinningPickIndices : string }.
End Claim.

Record TransactionResponse : Type := { hash : string }.

(** ** Collaborators *)

(** Asynchronous calls: contract reads and writes, the signer, the
    batched multicall.  The index is the type of the decoded answer
    ([result[0]], or the pair [result[0], result[1]]). *)
Module Net.
Inductive t : Type → Type :=
| getDrawBuffer (calculator : Contract) : t string
| getPrizeDistributionBuffer (calculator : Contract) : t string
| getNewestDraw (buffer : Contract) : t Draw.t
| getOldestDraw (buffer : Contract) : t Draw.t
| getDraw (buffer : Contract) (drawId : Z) : t Draw.t
| getDraws (buffer : Contract) (drawIds : list Z) : t (list Draw.t)
| getNewestPrizeDistribution (buffer : Contract) : t (PrizeDistribution.t * Z)
| getOldestPrizeDistribution (buffer : Contract) : t (PrizeDistribution.t * Z)
| getPrizeDistribution (buffer : Contract) (drawId : Z) : t PrizeDistribution.t
| getPrizeDistributions (buffer : Contract) (drawIds : list Z)
  : t (list PrizeDistribution.t)
| getNormalizedBalancesForDrawIds
    (calculator : Contract) (usersAddress : string) (drawIds : list Z)
  : t (list Z)
| claim (distributor : Contract) (userAddress : string) (drawIds : list Z)
    (encodedWinningPickIndices : string) (gasLimit : Z)
  : t TransactionResponse
| getAddress (signer : Signer) : t string
| batch (signerOrProvider : SignerOrProvider) (distributors : list string)
  : t (gmap string string).
End Net.

(** Synchronous collaborators: the contract registry lookup
    ([utils/getMetadataAndContract], not part of the sources at hand),
    the draw calculator library and the console. *)
Module Ext.
Inductive t : Type → Type :=
| getMetadataAndContract
    (signerOrProvider : SignerOrProvider) (contractType : ContractType.t)
    (contractMetadataList : list ContractMetadata.t) (address : option string)
  : t (ContractMetadata.t * Contract)
| calculateDrawResults
    (prizeDistribution : PrizeDistribution.t) (draw : Draw.t)
    (user : DrawCalcUser.t)
  : t DrawResults.t
| prepareClaims (address : string) (drawResults : list DrawResults.t)
  : t Claim.t     (* the user passed is [{ address }], nothing else *)
| console_error (reason : Error) : t unit.
End Ext.

(** What the outside world answers.  Each call has one answer: the chain
    does not change while an operation runs. *)
Record World : Type :=
  { respond : ∀ R, Net.t R → Settled R;
    answer : ∀ R, Ext.t R → Settled R }.

(** ** Asynchronous computations

    An [async] function is a tree of the effects it performs.  [Request]
    sends an asynchronous call and names its eventual answer; [Yield]
    suspends the function until the answers of the calls in flight have
    arrived.  Everything between two [Yield]s runs without interruption,
    as JavaScript runs it.  Awaiting a promise that is already settled is
    not a suspension point of the embedding. *)
Inductive Async (A : Type) : Type :=
| Ret (a : A)
| GetContractField (key : string) (k : option Contract → Async A)
| SetContractField (key : string) (c : Contract) (k : Async A)
| SetMetadataField (key : string) (m : ContractMetadata.t) (k : Async A)
| Invoke {R : Type} (op : Ext.t R) (k : Settled R → Async A)
| Request {R : Type} (op : Net.t R) (k : Settled R → Async A)
| Yield (k : Async A).
Arguments Ret {A} a.
Arguments GetContractField {A} key k.
Arguments SetContractField {A} key c k.
Arguments SetMetadataField {A} key m k.
Arguments Invoke {A R} op k.
Arguments Request {A R} op k.
Arguments Yield {A} k.

Fixpoint bind {A B} (t : Async A) (f : A → Async B) : Async B :=
  match t with
  | Ret a => f a
  | GetContractField key k => GetContractField key (λ v, bind (k v) f)
  | SetContractField key c k => SetContractField key c (bind k f)
  | SetMetadataField key m k => SetMetadataField key m (bind k f)
  | Invoke op k => Invoke op (λ r, bind (k r) f)
  | Request op k => Request op (λ r, bind (k r) f)
  | Yield k => Yield (bind k f)
  end.

Definition map_async {A B} (f : A → B) (t : Async A) : Async B :=
  bind t (λ a, Ret (f a)).

(** Two computations started one after the other and run concurrently:
    the first runs until it suspends, then the second, and both resume
    together when the answers are in.  Of the schedules JavaScript allows
    this is the one where answers arrive in the order of the requests. *)
Fixpoint par {A B} (t1 : Async A) (t2 : Async B) {struct t1} : Async (A * B) :=
  match t1 with
  | Ret a => map_async (pair a) t2
  | GetContractField key k => GetContractField key (λ v, par (k v) t2)
  | SetContractField key c k => SetContractField key c (par k t2)
  | SetMetadataField key m k => SetMetadataField key m (par k t2)
  | Invoke op k => Invoke op (λ r, par (k r) t2)
  | Request op k => Request op (λ r, par (k r) t2)
  | Yield k1 =>
      (fix second (t2 : Async B) : Async (A * B) :=
         match t2 with
         | Ret b => Yield (map_async (λ a, (a, b)) k1)
         | GetContractField key k => GetContractField key (λ v, second (k v))
         | SetContractField key c k => SetContractField key c (second k)
         | SetMetadataField key m k => SetMetadataField key m (second k)
         | Invoke op k => Invoke op (λ r, second (k r))
         | Request op k => Request op (λ r, second (k r))
         | Yield k2 => Yield (par k1 k2)
         end) t2
  end.

(** A promise is a computation that settles. *)
Definition Promise (A : Type) : Type := Async (Settled A).

Definition resolve {A} (a : A) : Promise A := Ret (Fulfilled a).
Definition throw {A} (e : Error) : Promise A := Ret (Rejected e).

(** [const x = await p; ...] inside an [async] function: a rejection of
    [p] rejects the function. *)
Definition await {A B} (p : Promise A) (k : A → Promise B) : Promise B :=
  bind p (λ r, match r with
               | Fulfilled a => k a
               | Rejected e => Ret (Rejected e)
               end).

(** An asynchronous call, awaited. *)
Definition call {R} (op : Net.t R) : Promise R :=
  Request op (λ r, Yield (Ret r)).

(** A synchronous call that can throw. *)
Definition invoke {R} (op : Ext.t R) : Promise R := Invoke op Ret.

(** [Promise.allSettled] never rejects; it hands back how each promise
    settled. *)
Fixpoint allSettled {A} (ps : list (Promise A)) : Async (list (Settled A)) :=
  match ps with
  | [] => Ret []
  | p :: ps' => map_async (λ '(r, rs), r :: rs) (par p (allSettled ps'))
  end.

(** ** The facade's mutable fields and the trace of a run *)

Inductive Event : Type :=
| ev_request {R : Type} (op : Net.t R)
| ev_invoke {R : Type} (op : Ext.t R)
| ev_set_contract (key : string) (c : Contract)
| ev_set_metadata (key : string) (m : ContractMetadata.t).

(** [contracts] holds [this.drawBufferContract] and
    [this.prizeDistributionsBufferContract], [metadata] holds
    [this.drawBuffer] and [this.prizeDistributionsBuffer]; an absent key is
    a field that is [undefined]. *)
Record State : Type :=
  { contracts : gmap string Contract;
    metadata : gmap string ContractMetadata.t;
    trace : list Event }.

Definition initial : State :=
  {| contracts := ∅; metadata := ∅; trace := [] |}.

Definition log (e : Event) (σ : State) : State :=
  {| contracts := contracts σ; metadata := metadata σ; trace := trace σ ++ [e] |}.

Definition set_contract (key : string) (c : Contract) (σ : State) : State :=
  {| contracts := <[key := c]> (contracts σ);
     metadata := metadata σ;
     trace := trace σ ++ [ev_set_contract key c] |}.

Definition set_metadata (key : string) (m : ContractMetadata.t) (σ : State) : State :=
  {| contracts := contracts σ;
     metadata := <[key := m]> (metadata σ);
     trace := trace σ ++ [ev_set_metadata key m] |}.

Fixpoint run {A} (w : World) (t : Async A) (σ : State) : A * State :=
  match t with
  | Ret a => (a, σ)
  | GetContractField key k => run w (k (contracts σ !! key)) σ
  | SetContractField key c k => run w k (set_contract key c σ)
  | SetMetadataField key m k => run w k (set_metadata key m σ)
  | Invoke op k => run w (k (answer w _ op)) (log (ev_invoke op) σ)
  | Request op k => run w (k (respond w _ op)) (log (ev_request op) σ)
  | Yield k => run w k σ
  end.

(** ** Validation helpers *)

(** [utils/validation] is not part of the sources at hand. *)
Module validation.
(** Modelled from the spec: the signer-presence validation of
    [utils/validation].  It fails with a [SignerRequiredError] on a
    read-only provider and hands back the signer otherwise; the message
    carries the caller's prefix. *)
Definition validateIsSigner (errorPrefix : string)
    (signerOrProvider : SignerOrProvider) : Promise Signer :=
  match signerOrProvider with
  | IsSigner signer => resolve signer
  | IsProvider _ =>
      throw (mkError SignerRequiredError (errorPrefix +:+ "Signer required"))
  end.

(** Modelled from the spec: the signer-network validation of
    [utils/validation].  It fails with a [NetworkMismatchError] when the
    signer's network is not the expected chain; the message carries the
    caller's prefix.  The network identity is a field of the signer. *)
Definition validateSignerNetwork (errorPrefix : string)
    (signer : Signer) (chainId : Z) : Promise unit :=
  if bool_decide (signer_network signer = chainId)
  then resolve ()
  else throw (mkError NetworkMismatchError
                (errorPrefix +:+ "Signer is on a different network")).
End validation.

(** ** Draw id ranges *)

(** [for (let i = oldestId; i <= newestId; i++) drawIds.push(i)], with a
    bound on the number of iterations. *)
Fixpoint push_ids (fuel : nat) (i newestId : Z) (drawIds : list Z) : list Z :=
  match fuel with
  | O => drawIds
  | S fuel' =>
      if i <=? newestId
      then push_ids fuel' (i + 1) newestId (drawIds ++ [i])
      else drawIds
  end.

(** The bound is the number of integers from [oldestId] to [newestId]. *)
Definition ids_from_to (oldestId newestId : Z) : list Z :=
  push_ids (Z.to_nat (newestId + 1 - oldestId)) oldestId newestId [].

(** [drawIds.sort((a, b) => a - b).slice(0, drawIds.length - 1)]: the ids
    in ascending order without the last one; [slice(0, -1)] of the empty
    array is empty.  [sort] also reorders the caller's array in place; the
    facade does not read that array again. *)
Definition drop_largest (drawIds : list Z) : list Z :=
  take (length drawIds - 1)%nat (merge_sort Z.le drawIds).

Module DrawAndPrizeDistribution.
(** [prizeDistribution] is [prizeDistributionsResponse.value[index]],
    which is [undefined] past the end of the array. *)
Record t : Type :=
  { draw : Draw.t; prizeDistribution : option PrizeDistribution.t }.
End DrawAndPrizeDistribution.

(** [drawsResponse.value.map((draw, index) => ...push({ draw,
    prizeDistribution: prizeDistributionsResponse.value[index] }))] *)
Definition pair_up (draws : list Draw.t) (prizeDistributions : list PrizeDistribution.t)
  : list DrawAndPrizeDistribution.t :=
  imap (λ index draw,
          {| DrawAndPrizeDistribution.draw := draw;
             DrawAndPrizeDistribution.prizeDistribution :=
               prizeDistributions !! index |})
       draws.

(** ** The distributor facade ([PrizeDistributor.ts]) *)

Module PrizeDistributor.

(** The read-only fields.  The four lazily initialized fields live in
    [State]. *)
Record t : Type :=
  { signerOrProvider : SignerOrProvider;
    contractMetadataList : list ContractMetadata.t;
    chainId : Z;
    address : string;
    prizeDistributorsMetadata : ContractMetadata.t;
    drawCalculatorMetadata : ContractMetadata.t;
    drawCalculatorTimelockMetadata : ContractMetadata.t;
    prizeDistributorsContract : Contract;
    drawCalculatorContract : Contract;
    drawCalculatorTimelockContract : Contract }.

Definition constructor (signerOrProvider : SignerOrProvider)
    (contractMetadataList : list ContractMetadata.t) : Promise t :=
  await (invoke (Ext.getMetadataAndContract signerOrProvider
                   ContractType.PrizeDistributor contractMetadataList None))
    (λ '(prizeDistributorsContractMetadata, prizeDistributorsContract),
  await (invoke (Ext.getMetadataAndContract signerOrProvider
                   ContractType.DrawCalculator contractMetadataList None))
    (λ '(drawCalculatorContractMetadata, drawCalculatorContract),
  await (invoke (Ext.getMetadataAndContract signerOrProvider
                   ContractType.DrawCalculatorTimelock contractMetadataList None))
    (λ '(drawCalculatorTimelockContractMetadata, drawCalculatorTimelockContract),
  resolve
    {| signerOrProvider := signerOrProvider;
       contractMetadataList := contractMetadataList;
       chainId := ContractMetadata.chainId prizeDistributorsContractMetadata;
       address := ContractMetadata.address prizeDistributorsContractMetadata;
       prizeDistributorsMetadata := prizeDistributorsContractMetadata;
       drawCalculatorMetadata := drawCalculatorContractMetadata;
       drawCalculatorTimelockMetadata := drawCalculatorTimelockContractMetadata;
       prizeDistributorsContract := prizeDistributorsContract;
       drawCalculatorContract := drawCalculatorContract;
       drawCalculatorTimelockContract := drawCalculatorTimelockContract |}))).

Section Methods.
Variable this : t.

(** *** Ethers contracts *)

Definition getAndSetEthersContract (contractMetadataKey : string)
    (contractType : ContractType.t) (getContractAddress : Promise string)
  : Promise Contract :=
  let contractKey := contractMetadataKey +:+ "Contract" in
  GetContractField contractKey (λ cached,
    match cached with
    | Some contract => resolve contract
    | None =>
        await getContractAddress (λ contractAddress,
        await (invoke (Ext.getMetadataAndContract (signerOrProvider this)
                         contractType (contractMetadataList this)
                         (Some contractAddress)))
          (λ '(contractMetadata, contract),
        SetMetadataField contractMetadataKey contractMetadata
          (SetContractField contractKey contract
             (resolve contract))))
    end).

Definition getDrawBufferContract : Promise Contract :=
  let getDrawBufferAddress :=
    call (Net.getDrawBuffer (drawCalculatorContract this)) in
  getAndSetEthersContract "drawBuffer" ContractType.DrawBuffer
    getDrawBufferAddress.

Definition getPrizeDistributionsBufferContract : Promise Contract :=
  let getPrizeDistributionsBufferAddress :=
    call (Net.getPrizeDistributionBuffer (drawCalculatorContract this)) in
  getAndSetEthersContract "prizeDistributionsBuffer"
    ContractType.PrizeDistributionBuffer getPrizeDistributionsBufferAddress.

(** *** Methods *)

Definition validateIsSigner (errorPrefix : string) : Promise Signer :=
  validation.validateIsSigner errorPrefix (signerOrProvider this).

(** [this.signerOrProvider as Signer]: the cast is unchecked; a
    provider has none of the signer's members. *)
Definition validateSignerNetwork (errorPrefix : string) : Promise unit :=
  match signerOrProvider this with
  | IsSigner signer =>
      validation.validateSignerNetwork errorPrefix signer (chainId this)
  | IsProvider _ => throw (mkError TypeError "not a signer")
  end.

Definition getUsersAddress (errorPrefix : string) : Promise string :=
  await (validateIsSigner errorPrefix) (λ signer,
  call (Net.getAddress signer)).

(** *** Ethers read functions *)

Definition copy_draw (draw : Draw.t) : Draw.t :=
  {| Draw.drawId := Draw.drawId draw;
     Draw.timestamp := Draw.timestamp draw;
     Draw.winningRandomNumber := Draw.winningRandomNumber draw |}.

Definition copy_prizeDistribution (result : PrizeDistribution.t)
  : PrizeDistribution.t :=
  {| PrizeDistribution.matchCardinality := PrizeDistribution.matchCardinality result;
     PrizeDistribution.numberOfPicks := PrizeDistribution.numberOfPicks result;
     PrizeDistribution.tiers := PrizeDistribution.tiers result;
     PrizeDistribution.bitRangeSize := PrizeDistribution.bitRangeSize result;
     PrizeDistribution.prize := PrizeDistribution.prize result;
     PrizeDistribution.drawStartTimestampOffset :=
       PrizeDistribution.drawStartTimestampOffset result;
     PrizeDistribution.drawEndTimestampOffset :=
       PrizeDistribution.drawEndTimestampOffset result;
     PrizeDistribution.maxPicksPerUser := PrizeDistribution.maxPicksPerUser result |}.

Definition getNewestDraw : Promise Draw.t :=
  await getDrawBufferContract (λ drawBufferContract,
  await (call (Net.getNewestDraw drawBufferContract)) (λ draw,
  resolve (copy_draw draw))).

Definition getOldestDraw : Promise Draw.t :=
  await getDrawBufferContract (λ drawBufferContract,
  await (call (Net.getOldestDraw drawBufferContract)) (λ draw,
  resolve (copy_draw draw))).

(** The answer [{ prizeDistribution, drawId }] is a pair. *)
Definition getNewestPrizeDistribution : Promise (PrizeDistribution.t * Z) :=
  await getPrizeDistributionsBufferContract (λ prizeDistributionBufferContract,
  await (call (Net.getNewestPrizeDistribution prizeDistributionBufferContract))
    (λ '(prizeDistribution, drawId),
  resolve (copy_prizeDistribution prizeDistribution, drawId))).

Definition getOldestPrizeDistribution : Promise (PrizeDistribution.t * Z) :=
  await getPrizeDistributionsBufferContract (λ prizeDistributionBufferContract,
  await (call (Net.getOldestPrizeDistribution prizeDistributionBufferContract))
    (λ '(prizeDistribution, drawId),
  resolve (copy_prizeDistribution prizeDistribution, drawId))).

Definition getDrawIdsFromDrawBuffer : Promise (list Z) :=
  bind (par getOldestDraw getNewestDraw)
    (λ '(oldestDrawResponse, newestDrawResponse),
     match newestDrawResponse, oldestDrawResponse with
     | Fulfilled newest, Fulfilled oldest =>
         let oldestId := Draw.drawId oldest in
         let newestId := Draw.drawId newest in
         resolve (ids_from_to oldestId newestId)
     | _, _ => resolve []
     end).

Definition getDrawIdsFromPrizeDistributionBuffer : Promise (list Z) :=
  bind (par getOldestPrizeDistribution getNewestPrizeDistribution)
    (λ '(oldestPrizeDistributionResponse, newestPrizeDistributionResponse),
     match newestPrizeDistributionResponse, oldestPrizeDistributionResponse with
     | Fulfilled newest, Fulfilled oldest =>
         let oldestId := snd oldest in
         let newestId := snd newest in
         resolve (ids_from_to oldestId newestId)
     | _, _ => resolve []
     end).

(** The four reads of [getValidDrawIds], as [Promise.allSettled]
    receives them. *)
Definition valid_draw_id_reads
  : Async (Settled (PrizeDistribution.t * Z) * (Settled (PrizeDistribution.t * Z)
           * (Settled Draw.t * Settled Draw.t))) :=
  par getOldestPrizeDistribution
    (par getNewestPrizeDistribution
       (par getOldestDraw getNewestDraw)).

Definition getValidDrawIds : Promise (list Z) :=
  bind valid_draw_id_reads
    (λ '(oldestPrizeDistributionResponse, (newestPrizeDistributionResponse,
          (oldestDrawResponse, newestDrawResponse))),
     match oldestPrizeDistributionResponse, newestPrizeDistributionResponse,
           newestDrawResponse, oldestDrawResponse with
     | Fulfilled oldestPrizeDistribution, Fulfilled newestPrizeDistribution,
       Fulfilled newestDraw, Fulfilled oldestDraw =>
         let oldestPrizeDistributionId := snd oldestPrizeDistribution in
         let newestPrizeDistributionId := snd newestPrizeDistribution in
         let oldestDrawId := Draw.drawId oldestDraw in
         let newestDrawId := Draw.drawId newestDraw in
         let oldestId := Z.max oldestPrizeDistributionId oldestDrawId in
         let newestId := Z.min newestDrawId newestPrizeDistributionId in
         if newestId <? oldestId then resolve []
         else resolve (ids_from_to oldestId newestId)
     | _, _, _, _ => resolve []
     end).

Definition getDraw (drawId : Z) : Promise Draw.t :=
  await getDrawBufferContract (λ drawBufferContract,
  await (call (Net.getDraw drawBufferContract drawId)) (λ response,
  resolve (copy_draw response))).

Definition getDraws (drawIds : list Z) : Promise (list Draw.t) :=
  match drawIds with
  | [] => resolve []
  | _ =>
      await getDrawBufferContract (λ drawBufferContract,
      await (call (Net.getDraws drawBufferContract drawIds)) (λ response,
      resolve (copy_draw <$> response)))
  end.

Definition getPrizeDistribution (drawId : Z) : Promise PrizeDistribution.t :=
  await getPrizeDistributionsBufferContract (λ prizeDistributionsBufferContract,
  await (call (Net.getPrizeDistribution prizeDistributionsBufferContract drawId))
    (λ result,
  resolve (copy_prizeDistribution result))).

Definition getPrizeDistributions (drawIds : list Z)
  : Promise (list PrizeDistribution.t) :=
  match drawIds with
  | [] => resolve []
  | _ =>
      await getPrizeDistributionsBufferContract
        (λ prizeDistributionsBufferContract,
      await (call (Net.getPrizeDistributions prizeDistributionsBufferContract
                     drawIds))
        (λ prizeDistributionsResults,
      resolve (copy_prizeDistribution <$> prizeDistributionsResults)))
  end.

(** The recursion of [getDrawsAndPrizeDistributions], with a bound on
    its depth; [None] is the bound reached. *)
Fixpoint getDrawsAndPrizeDistributions_rec (fuel : nat) (drawIds : list Z)
  : Async (option (Settled (list DrawAndPrizeDistribution.t))) :=
  match fuel with
  | O => Ret None
  | S fuel' =>
      bind (par (getDraws drawIds) (getPrizeDistributions drawIds))
        (λ '(drawsResponse, prizeDistributionsResponse),
         match drawsResponse, prizeDistributionsResponse with
         | Fulfilled draws, Fulfilled prizeDistributions =>
             let drawsAndPrizeDistributions := pair_up draws prizeDistributions in
             Ret (Some (Fulfilled drawsAndPrizeDistributions))
         | _, _ =>
             getDrawsAndPrizeDistributions_rec fuel' (drop_largest drawIds)
         end)
  end.

(** Every retry has one id less, so one more call than there are ids
    is all the recursion can make. *)
Definition getDrawsAndPrizeDistributions (drawIds : list Z)
  : Async (option (Settled (list DrawAndPrizeDistribution.t))) :=
  getDrawsAndPrizeDistributions_rec (S (length drawIds)) drawIds.

Definition getUsersPrizes (usersAddress : string) (draw : Draw.t)
  : Promise DrawResults.t :=
  await (getPrizeDistribution (Draw.drawId draw)) (λ prizeDistribution,
  await (call (Net.getNormalizedBalancesForDrawIds (drawCalculatorContract this)
                 usersAddress [Draw.drawId draw]))
    (λ balanceResult,
  match balanceResult !! 0%nat with
  | None => throw (mkError TypeError "normalizedBalance is undefined")
  | Some normalizedBalance =>
      let user :=
        {| DrawCalcUser.address := usersAddress;
           DrawCalcUser.normalizedBalances := [normalizedBalance] |} in
      if normalizedBalance =? 0
      then resolve {| DrawResults.drawId := Draw.drawId draw;
                      DrawResults.totalValue := 0;
                      DrawResults.prizes := [] |}
      else invoke (Ext.calculateDrawResults prizeDistribution draw user)
  end)).

Definition getUsersPrizesByDrawId (usersAddress : string) (drawId : Z)
  : Promise DrawResults.t :=
  await (getDraw drawId) (λ draw, getUsersPrizes usersAddress draw).

(** *** Ethers write functions *)

Definition claimPrizesByDrawResults (drawResults : DrawResults.t)
  : Promise TransactionResponse :=
  let errorPrefix := "PrizeDistributors [claimPrizes] | " in
  await (getUsersAddress errorPrefix) (λ usersAddress,
  await (validateSignerNetwork errorPrefix) (λ _,
  if DrawResults.totalValue drawResults =? 0
  then throw (mkError NothingToClaimError (errorPrefix +:+ "No prizes to claim."))
  else
    let gasLimit := 400000 in
    await (invoke (Ext.prepareClaims usersAddress [drawResults]))
      (λ claim,
    call (Net.claim (prizeDistributorsContract this)
            (Claim.userAddress claim) (Claim.drawIds claim)
            (Claim.encodedWinningPickIndices claim) gasLimit)))).

Definition claimPrizesByDraw (draw : Draw.t) : Promise TransactionResponse :=
  let errorPrefix := "PrizeDistributors [claim] | " in
  await (getUsersAddress errorPrefix) (λ usersAddress,
  await (getUsersPrizes usersAddress draw) (λ drawResults,
  claimPrizesByDrawResults drawResults)).

End Methods.
End PrizeDistributor.

(** ** Contract linking ([initializePrizeDistributors]) *)

(** [new Error(response.reason)] *)
Definition new_Error (reason : Error) : Error :=
  mkError CallFailure ("Error: " +:+ message reason).

(** [{ [chainId: number]: A }].  [Object.keys] lists the keys that are
    array indices, the integers from 0 to 2^32 - 2, in ascending order and
    after them the other keys in the order in which they were created;
    [created] holds that order.  Chain ids above 2^32 - 2 are in use. *)
Module ByChainId.
Record t (A : Type) : Type := mk { fields : gmap Z A; created : list Z }.
Arguments mk {A} _ _.
Arguments fields {A} _.
Arguments created {A} _.

(** [o[chainId]] *)
Global Instance lookup {A} : Lookup Z A (t A) := λ chainId o, fields o !! chainId.

Definition is_array_index (key : Z) : bool := (0 <=? key) && (key <=? 2 ^ 32 - 2).

(** [Object.keys(o).map(Number)].  A key that [created] does not mention
    comes last, so that every key is listed. *)
Definition keys {A} (o : t A) : list Z :=
  let own := elements (dom (fields o)) in
  let others := filter (λ key, is_array_index key = false) own in
  merge_sort Z.le (filter (λ key, is_array_index key = true) own)
  ++ filter (λ key, key ∈ others) (remove_dups (created o))
  ++ filter (λ key, key ∉ created o) (merge_sort Z.le others).
End ByChainId.

Section Initialization.

(** Helpers of [utils/] that are not part of the sources at hand.  A
    contract list "with children" is again a list of contract metadata. *)
Variable getContractsByType :
  list ContractMetadata.t → ContractType.t → list ContractMetadata.t.
Variable sortContractsByChainId :
  list ContractMetadata.t → ByChainId.t (list ContractMetadata.t).
Variable extendContractWithChildren :
  list ContractMetadata.t → gmap Z (gmap string (gmap string string)) →
  ContractType.t → list ContractMetadata.t.
Variable sortContractsByContractTypeAndChildren :
  list ContractMetadata.t → ContractType.t → list (list ContractMetadata.t).

(** [{ [chainId: number]: Provider | Signer }] *)
Variable signersOrProviders : Z → SignerOrProvider.

(** The answer of the multicall maps each distributor address to the
    address its [getDrawCalculator()] returned. *)
Definition fetchClaimableDrawAddressesByChainId (chainId : Z)
    (signerOrProvider : SignerOrProvider)
    (prizeDistributorsContracts : list ContractMetadata.t)
  : Promise (Z * gmap string (gmap string string)) :=
  let batchCalls := ContractMetadata.address <$> prizeDistributorsContracts in
  await (call (Net.batch signerOrProvider batchCalls)) (λ result,
  let addressesByClaimableDraw : gmap string (gmap string string) :=
    (λ drawCalculator : string, {[ "drawCalculator" := drawCalculator ]})
      <$> result in
  resolve (chainId, addressesByClaimableDraw)).

(** [Object.keys(prizeDistributorsContractsByChainId).map(Number)] *)
Definition chain_ids (byChainId : ByChainId.t (list ContractMetadata.t)) : list Z :=
  ByChainId.keys byChainId.

(** The [forEach] over the settled responses: the first rejected one is
    reported and thrown. *)
Fixpoint collect_addresses
    (responses : list (Settled (Z * gmap string (gmap string string))))
    (prizeDistributorsAddresses : list (Z * gmap string (gmap string string)))
  : Promise (list (Z * gmap string (gmap string string))) :=
  match responses with
  | [] => resolve prizeDistributorsAddresses
  | Fulfilled value :: responses' =>
      collect_addresses responses' (prizeDistributorsAddresses ++ [value])
  | Rejected reason :: _ =>
      bind (invoke (Ext.console_error reason)) (λ _,
      throw (new_Error reason))
  end.

(** The body of [sortedContractLists.forEach]; [contractList[0]] of an
    empty list is [undefined]. *)
Definition inject_contracts (contracts : list ContractMetadata.t)
    (contractList : list ContractMetadata.t)
  : Settled (list ContractMetadata.t) :=
  match contractList with
  | [] => Rejected (mkError TypeError "contractList[0] is undefined")
  | first :: _ =>
      let chainId := ContractMetadata.chainId first in
      let on_chain (c : ContractMetadata.t) :=
        bool_decide (ContractMetadata.chainId c = chainId) in
      let drawBufferMetadata :=
        find on_chain (getContractsByType contracts ContractType.DrawBuffer) in
      let prizeDistributionsMetadata :=
        find on_chain
          (getContractsByType contracts ContractType.PrizeDistributionBuffer) in
      let ticketMetadata :=
        find on_chain (getContractsByType contracts ContractType.Ticket) in
      let drawCalculatorTimelockMetadata :=
        find on_chain
          (getContractsByType contracts ContractType.DrawCalculatorTimelock) in
      Fulfilled (contractList
                   ++ option_list drawBufferMetadata
                   ++ option_list prizeDistributionsMetadata
                   ++ option_list ticketMetadata
                   ++ option_list drawCalculatorTimelockMetadata)
  end.

(** [finalContractLists.map(contractList => new PrizeDistributor(...))] *)
Fixpoint construct_all (finalContractLists : list (list ContractMetadata.t))
  : Promise (list PrizeDistributor.t) :=
  match finalContractLists with
  | [] => resolve []
  | contractList :: rest =>
      match contractList with
      | [] => throw (mkError TypeError "contractList[0] is undefined")
      | first :: _ =>
          let chainId := ContractMetadata.chainId first in
          await (PrizeDistributor.constructor (signersOrProviders chainId)
                   contractList) (λ prizeDistributor,
          await (construct_all rest) (λ prizeDistributors,
          resolve (prizeDistributor :: prizeDistributors)))
      end
  end.

Definition initializePrizeDistributors (contracts : list ContractMetadata.t)
  : Promise (list PrizeDistributor.t) :=
  let prizeDistributorsContracts :=
    getContractsByType contracts ContractType.PrizeDistributor in
  let prizeDistributorsContractsByChainId :=
    sortContractsByChainId prizeDistributorsContracts in
  let chainIds := chain_ids prizeDistributorsContractsByChainId in
  let prizeDistributorsAddressBatchRequestPromises :=
    (λ chainId,
       fetchClaimableDrawAddressesByChainId chainId (signersOrProviders chainId)
         (default [] (prizeDistributorsContractsByChainId !! chainId)))
      <$> chainIds in
  bind (allSettled prizeDistributorsAddressBatchRequestPromises)
    (λ prizeDistributorsAddressesResponses,
  await (collect_addresses prizeDistributorsAddressesResponses [])
    (λ prizeDistributorsAddresses,
  let prizeDistributorsAddressesByChainId
      : gmap Z (gmap string (gmap string string)) :=
    foldl (λ acc addressessResponse,
             <[addressessResponse.1 := addressessResponse.2]> acc)
          ∅ prizeDistributorsAddresses in
  let contractsWithChildren :=
    extendContractWithChildren contracts prizeDistributorsAddressesByChainId
      ContractType.PrizeDistributor in
  let sortedContractLists :=
    sortContractsByContractTypeAndChildren contractsWithChildren
      ContractType.PrizeDistributor in
  await (Ret (map_throwing (inject_contracts contracts) sortedContractLists))
    (λ finalContractLists,
  construct_all finalContractLists))).

End Initialization.

(** ** Properties of computations *)

(** [ensures net ext P t]: the result of [t] satisfies [P] whatever the
    lazily initialized fields hold when they are read, for every answer
    that [net] and [ext] allow to a call. *)
Inductive ensures
    (net : ∀ R, Net.t R → Settled R → Prop)
    (ext : ∀ R, Ext.t R → Settled R → Prop)
    {A : Type} (P : A → Prop) : Async A → Prop :=
| ensures_Ret a : P a → ensures net ext P (Ret a)
| ensures_GetContractField key k :
    (∀ v, ensures net ext P (k v)) → ensures net ext P (GetContractField key k)
| ensures_SetContractField key c k :
    ensures net ext P k → ensures net ext P (SetContractField key c k)
| ensures_SetMetadataField key m k :
    ensures net ext P k → ensures net ext P (SetMetadataField key m k)
| ensures_Invoke R (op : Ext.t R) k :
    (∀ r, ext R op r → ensures net ext P (k r)) → ensures net ext P (Invoke op k)
| ensures_Request R (op : Net.t R) k :
    (∀ r, net R op r → ensures net ext P (k r)) → ensures net ext P (Request op k)
| ensures_Yield k : ensures net ext P k → ensures net ext P (Yield k).

(** Any answer at all, also one that changes from call to call. *)
Definition any_answer {Op : Type → Type} : ∀ R, Op R → Settled R → Prop :=
  λ _ _ _, True.

(** The answers of a world. *)
Definition net_of (w : World) : ∀ R, Net.t R → Settled R → Prop :=
  λ R op r, r = respond w R op.
Definition ext_of (w : World) : ∀ R, Ext.t R → Settled R → Prop :=
  λ R op r, r = answer w R op.

(** [emits Q t]: every event [t] can add to the trace satisfies [Q]. *)
Inductive emits (Q : Event → Prop) {A : Type} : Async A → Prop :=
| emits_Ret a : emits Q (Ret a)
| emits_GetContractField key k :
    (∀ v, emits Q (k v)) → emits Q (GetContractField key k)
| emits_SetContractField key c k :
    Q (ev_set_contract key c) → emits Q k → emits Q (SetContractField key c k)
| emits_SetMetadataField key m k :
    Q (ev_set_metadata key m) → emits Q k → emits Q (SetMetadataField key m k)
| emits_Invoke R (op : Ext.t R) k :
    Q (ev_invoke op) → (∀ r, emits Q (k r)) → emits Q (Invoke op k)
| emits_Request R (op : Net.t R) k :
    Q (ev_request op) → (∀ r, emits Q (k r)) → emits Q (Request op k)
| emits_Yield k : emits Q k → emits Q (Yield k).

(** The trace of [σ'] is the trace of [σ] followed by events in [Q]. *)
Definition extends_with (Q : Event → Prop) (σ σ' : State) : Prop :=
  ∃ added, trace σ' = trace σ ++ added ∧ Forall Q added.

Definition is_claim_request (e : Event) : bool :=
  match e with
  | ev_request (Net.claim _ _ _ _ _) => true
  | _ => false
  end.

Definition is_calculateDrawResults (e : Event) : bool :=
  match e with
  | ev_invoke (Ext.calculateDrawResults _ _ _) => true
  | _ => false
  end.

Definition is_registry_lookup (e : Event) : bool :=
  match e with
  | ev_invoke (Ext.getMetadataAndContract _ _ _ _) => true
  | _ => false
  end.

Definition sets_contract (key : string) (e : Event) : bool :=
  match e with
  | ev_set_contract key' _ => bool_decide (key' = key)
  | _ => false
  end.

(** How often the handle field [key] was written. *)
Definition writes (key : string) (σ : State) : nat :=
  length (filter (λ e, sets_contract key e) (trace σ)).

(** Calls made one after the other, each awaited before the next. *)
Fixpoint one_after_another {A} (ts : list (Async A)) : Async (list A) :=
  match ts with
  | [] => Ret []
  | t :: ts' => bind t (λ a, bind (one_after_another ts') (λ l, Ret (a :: l)))
  end.

(** The attempts of [getDrawsAndPrizeDistributions] that fail: from the
    ids and state of the first attempt to those of a later one. *)
Inductive retries_to (w : World) (this : PrizeDistributor.t)
  : list Z → State → list Z → State → Prop :=
| retries_none drawIds σ : retries_to w this drawIds σ drawIds σ
| retries_again drawIds σ responses σ1 drawIds' σ' :
    run w (par (PrizeDistributor.getDraws this drawIds)
               (PrizeDistributor.getPrizeDistributions this drawIds)) σ
    = (responses, σ1) →
    is_rejected responses.1 || is_rejected responses.2 = true →
    retries_to w this (drop_largest drawIds) σ1 drawIds' σ' →
    retries_to w this drawIds σ drawIds' σ'.

(** The batched reads of a buffer answer with one record per id asked. *)
Definition one_record_per_id (w : World) : Prop :=
  (∀ buffer drawIds draws,
     respond w _ (Net.getDraws buffer drawIds) = Fulfilled draws →
     length draws = length drawIds)
  ∧ (∀ buffer drawIds prizeDistributions,
       respond w _ (Net.getPrizeDistributions buffer drawIds)
       = Fulfilled prizeDistributions →
       length prizeDistributions = length drawIds).

(** The relation between a prize in canonical or legacy shape and its
    canonical form. *)
Inductive canonical_form_of : value → value → Prop :=
| canonical_form_of_legacy a d p :
    canonical_form_of (LEGACYPrize a d p) (PrizeAwardable a d p)
| canonical_form_of_canonical a t p :
    canonical_form_of (PrizeAwardable a t p) (PrizeAwardable a t p).

(** Prizes of the extended records: any record with a tier field under
    the current name only, or with a tier field under the legacy name. *)
Definition canonical_record (p : value) : Prop :=
  ∃ o, p = VObject o ∧ o !! "distributionIndex" = None ∧ is_Some (o !! "tierIndex").

Definition legacy_record (p : value) : Prop :=
  ∃ o, p = VObject o ∧ is_Some (o !! "distributionIndex").

(** How the address fetch for one chain settles in a world. *)
Definition fetch_outcome (w : World) (chainId : Z) (signerOrProvider : SignerOrProvider)
    (prizeDistributorsContracts : list ContractMetadata.t)
  : Settled (Z * gmap string (gmap string string)) :=
  match respond w _ (Net.batch signerOrProvider
                       (ContractMetadata.address <$> prizeDistributorsContracts)) with
  | Fulfilled result =>
      Fulfilled (chainId,
                 (λ drawCalculator : string, {[ "drawCalculator" := drawCalculator ]})
                   <$> result)
  | Rejected reason => Rejected reason
  end.

(** What is left to write into a handle field: one write while it is
    empty, none once it is set. *)
Definition budget (key : string) (σ : State) : nat :=
  match contracts σ !! key with Some _ => 0 | None => 1 end.

(** ** A world to run examples in

    A draw buffer holding the draws [draws.1 .. draws.2], a
    prize-distribution buffer holding distributions for
    [distributions.1 .. distributions.2], a provider labelled ["offline"]
    whose batched calls fail, and a user ["0xNobody"] without balance. *)

Definition example_draw (drawId : Z) : Draw.t :=
  {| Draw.drawId := drawId; Draw.timestamp := 1000 + drawId;
     Draw.winningRandomNumber := 42 |}.

Definition example_prizeDistribution : PrizeDistribution.t :=
  {| PrizeDistribution.matchCardinality := 3;
     PrizeDistribution.numberOfPicks := 100;
     PrizeDistribution.tiers := [500; 300; 200];
     PrizeDistribution.bitRangeSize := 2;
     PrizeDistribution.prize := 1000;
     PrizeDistribution.drawStartTimestampOffset := 0;
     PrizeDistribution.drawEndTimestampOffset := 0;
     PrizeDistribution.maxPicksPerUser := 2 |}.

Definition within (bounds : Z * Z) (drawId : Z) : bool :=
  (bounds.1 <=? drawId) && (drawId <=? bounds.2).

Definition not_found {A} : Settled A :=
  Rejected (mkError CallFailure "call revert exception").

Definition example_respond (draws distributions : Z * Z) R (op : Net.t R)
  : Settled R :=
  match op in Net.t R return Settled R with
  | Net.getDrawBuffer _ => Fulfilled "0xDrawBuffer"
  | Net.getPrizeDistributionBuffer _ => Fulfilled "0xPrizeDistributionBuffer"
  | Net.getNewestDraw _ => Fulfilled (example_draw draws.2)
  | Net.getOldestDraw _ => Fulfilled (example_draw draws.1)
  | Net.getDraw _ drawId =>
      if within draws drawId then Fulfilled (example_draw drawId) else not_found
  | Net.getDraws _ drawIds =>
      if forallb (within draws) drawIds
      then Fulfilled (example_draw <$> drawIds) else not_found
  | Net.getNewestPrizeDistribution _ =>
      Fulfilled (example_prizeDistribution, distributions.2)
  | Net.getOldestPrizeDistribution _ =>
      Fulfilled (example_prizeDistribution, distributions.1)
  | Net.getPrizeDistribution _ drawId =>
      if within distributions drawId
      then Fulfilled example_prizeDistribution else not_found
  | Net.getPrizeDistributions _ drawIds =>
      if forallb (within distributions) drawIds
      then Fulfilled ((λ _, example_prizeDistribution) <$> drawIds) else not_found
  | Net.getNormalizedBalancesForDrawIds _ usersAddress drawIds =>
      Fulfilled ((λ _, if bool_decide (usersAddress = "0xNobody") then 0 else 250)
                   <$> drawIds)
  | Net.claim _ _ _ _ _ => Fulfilled {| hash := "0xTransaction" |}
  | Net.getAddress signer => Fulfilled (signer_label signer)
  | Net.batch signerOrProvider distributors =>
      match signerOrProvider with
      | IsProvider p =>
          if bool_decide (provider_label p = "offline") then not_found
          else Fulfilled (list_to_map ((λ a, (a, "0xCalculator")) <$> distributors))
      | IsSigner _ =>
          Fulfilled (list_to_map ((λ a, (a, "0xCalculator")) <$> distributors))
      end
  end.

Definition example_answer R (op : Ext.t R) : Settled R :=
  match op in Ext.t R return Settled R with
  | Ext.getMetadataAndContract _ contractType _ address =>
      Fulfilled ({| ContractMetadata.chainId := 1;
                    ContractMetadata.address := default "0xDistributor" address;
                    ContractMetadata.type := contractType |},
                 {| contract_address := default "0xDistributor" address |})
  | Ext.calculateDrawResults _ draw _ =>
      Fulfilled {| DrawResults.drawId := Draw.drawId draw;
                   DrawResults.totalValue := 100;
                   DrawResults.prizes :=
                     [ {| Prize.amount := 100; Prize.tierIndex := 3; Prize.pick := 5 |} ] |}
  | Ext.prepareClaims address drawResults =>
      Fulfilled {| Claim.userAddress := address;
                   Claim.drawIds := DrawResults.drawId <$> drawResults;
                   Claim.encodedWinningPickIndices := "0x" |}
  | Ext.console_error _ => Fulfilled ()
  end.

Definition example_world (draws distributions : Z * Z) : World :=
  {| respond := example_respond draws distributions; answer := example_answer |}.

Definition example_metadata (type : ContractType.t) (address : string)
  : ContractMetadata.t :=
  {| ContractMetadata.chainId := 1;
     ContractMetadata.address := address;
     ContractMetadata.type := type |}.

Definition example_facade (signerOrProvider : SignerOrProvider)
  : PrizeDistributor.t :=
  {| PrizeDistributor.signerOrProvider := signerOrProvider;
     PrizeDistributor.contractMetadataList := [];
     PrizeDistributor.chainId := 1;
     PrizeDistributor.address := "0xDistributor";
     PrizeDistributor.prizeDistributorsMetadata :=
       example_metadata ContractType.PrizeDistributor "0xDistributor";
     PrizeDistributor.drawCalculatorMetadata :=
       example_metadata ContractType.DrawCalculator "0xCalculator";
     PrizeDistributor.drawCalculatorTimelockMetadata :=
       example_metadata ContractType.DrawCalculatorTimelock "0xTimelock";
     PrizeDistributor.prizeDistributorsContract :=
       {| contract_address := "0xDistributor" |};
     PrizeDistributor.drawCalculatorContract :=
       {| contract_address := "0xCalculator" |};
     PrizeDistributor.drawCalculatorTimelockContract :=
       {| contract_address := "0xTimelock" |} |}.

Definition read_only : SignerOrProvider := IsProvider {| provider_label := "rpc" |}.
Definition offline : SignerOrProvider := IsProvider {| provider_label := "offline" |}.
Definition wallet (network : Z) : SignerOrProvider :=
  IsSigner {| signer_label := "0xUser"; signer_network := network |}.

(** A fresh facade after one call of [getValidDrawIds]. *)
Definition after_concurrent_reads : State :=
  (run (example_world (2, 10) (5, 8))
       (PrizeDistributor.getValidDrawIds (example_facade read_only)) initial).2.

(** A legacy prize that carries one more field and whose amount is a
    number, inside a record that carries one more field; and a
    [BigNumber.from] that reads numbers. *)
Definition example_prize_with_more_fields : gmap string value :=
  {[ "amount" := VNumber 100;
     "distributionIndex" := VNumber 3;
     "pick" := VBigNumber 5;
     "claimed" := VNumber 1 ]}.

Definition example_record_with_more_fields : gmap string value :=
  <["winner" := VString "0xUser"]>
    (DrawResults 7 100 [VObject example_prize_with_more_fields]).

Definition example_bigNumberish (v : value) : option Z :=
  match v with
  | VNumber n => Some n
  | _ => None
  end.

(** The prize the draw-results conversion makes of
    [example_prize_with_more_fields]. *)
Definition example_converted_prize : gmap string value :=
  {[ "amount" := VBigNumber 100;
     "tierIndex" := VNumber 3;
     "pick" := VBigNumber 5 ]}.

(** Stand-ins for the helpers of [utils/] in the examples: distributors
    are grouped by chain id, nothing is linked. *)
Definition example_getContractsByType (contracts : list ContractMetadata.t)
    (type : ContractType.t) : list ContractMetadata.t :=
  filter (λ c, ContractMetadata.type c = type) contracts.

Definition example_sortContractsByChainId (contracts : list ContractMetadata.t)
  : ByChainId.t (list ContractMetadata.t) :=
  ByChainId.mk
    (foldr (λ c byChainId,
              <[ContractMetadata.chainId c :=
                  c :: default [] (byChainId !! ContractMetadata.chainId c)]> byChainId)
           ∅ contracts)
    (ContractMetadata.chainId <$> contracts).

Definition example_contracts : list ContractMetadata.t :=
  [ {| ContractMetadata.chainId := 1;
       ContractMetadata.address := "0xDistributorA";
       ContractMetadata.type := ContractType.PrizeDistributor |};
    {| ContractMetadata.chainId := 137;
       ContractMetadata.address := "0xDistributorB";
       ContractMetadata.type := ContractType.PrizeDistributor |} ].

Definition example_signersOrProviders (chainId : Z) : SignerOrProvider :=
  if bool_decide (chainId = 137) then offline else read_only.

(** Distributors on two chains whose ids are no array indices, listed
    before one on chain 1. *)
Definition example_contracts_on_large_chain_ids : list ContractMetadata.t :=
  [ {| ContractMetadata.chainId := 11297108109;
       ContractMetadata.address := "0xDistributorC";
       ContractMetadata.type := ContractType.PrizeDistributor |};
    {| ContractMetadata.chainId := 11297108099;
       ContractMetadata.address := "0xDistributorD";
       ContractMetadata.type := ContractType.PrizeDistributor |};
    {| ContractMetadata.chainId := 1;
       ContractMetadata.address := "0xDistributorA";
       ContractMetadata.type := ContractType.PrizeDistributor |} ].

(** A prize-distribution buffer whose records differ from draw to draw. *)
Definition example_prizeDistribution_of (drawId : Z) : PrizeDistribution.t :=
  {| PrizeDistribution.matchCardinality := 3;
     PrizeDistribution.numberOfPicks := 100;
     PrizeDistribution.tiers := [500; 300; 200];
     PrizeDistribution.bitRangeSize := 2;
     PrizeDistribution.prize := 1000 * drawId;
     PrizeDistribution.drawStartTimestampOffset := 0;
     PrizeDistribution.drawEndTimestampOffset := 0;
     PrizeDistribution.maxPicksPerUser := 2 |}.

Definition example_world_of_distinct_records (draws distributions : Z * Z) : World :=
  {| respond := λ R (op : Net.t R),
       match op in Net.t R return Settled R with
       | Net.getPrizeDistribution _ drawId =>
           if within distributions drawId
           then Fulfilled (example_prizeDistribution_of drawId) else not_found
       | Net.getPrizeDistributions _ drawIds =>
           if forallb (within distributions) drawIds
           then Fulfilled (example_prizeDistribution_of <$> drawIds) else not_found
       | op => example_respond draws distributions _ op
       end;
     answer := example_answer |}.

(** ** Reads that do not disturb each other *)

(** [oblivious t]: [t] never reads a lazily initialized field. *)
Inductive oblivious {A : Type} : Async A → Prop :=
| oblivious_Ret a : oblivious (Ret a)
| oblivious_SetContractField key c k :
    oblivious k → oblivious (SetContractField key c k)
| oblivious_SetMetadataField key m k :
    oblivious k → oblivious (SetMetadataField key m k)
| oblivious_Invoke R (op : Ext.t R) k :
    (∀ r, oblivious (k r)) → oblivious (Invoke op k)
| oblivious_Request R (op : Net.t R) k :
    (∀ r, oblivious (k r)) → oblivious (Request op k)
| oblivious_Yield k : oblivious k → oblivious (Yield k).

(** [reads_first t]: until [t] suspends for the first time it writes no
    field, and afterwards it reads none. *)
Inductive reads_first {A : Type} : Async A → Prop :=
| reads_first_Ret a : reads_first (Ret a)
| reads_first_GetContractField key k :
    (∀ v, reads_first (k v)) → reads_first (GetContractField key k)
| reads_first_Invoke R (op : Ext.t R) k :
    (∀ r, reads_first (k r)) → reads_first (Invoke op k)
| reads_first_Request R (op : Net.t R) k :
    (∀ r, reads_first (k r)) → reads_first (Request op k)
| reads_first_Yield k : oblivious k → reads_first (Yield k).

(** ** Handles and their metadata *)

(** [this.drawBuffer] is set whenever [this.drawBufferContract] is, and
    likewise for the prize-distribution buffer. *)
Definition handles_have_metadata (σ : State) : Prop :=
  (is_Some (contracts σ !! "drawBufferContract") → is_Some (metadata σ !! "drawBuffer"))
  ∧ (is_Some (contracts σ !! "prizeDistributionsBufferContract")
     → is_Some (metadata σ !! "prizeDistributionsBuffer")).

(** [writes_in_pairs t]: [t] writes a buffer's metadata field only together
    with its contract field, and writes nothing else. *)
Inductive writes_in_pairs {A : Type} : Async A → Prop :=
| writes_in_pairs_Ret a : writes_in_pairs (Ret a)
| writes_in_pairs_GetContractField key k :
    (∀ v, writes_in_pairs (k v)) → writes_in_pairs (GetContractField key k)
| writes_in_pairs_pair key m c k :
    key = "drawBuffer" ∨ key = "prizeDistributionsBuffer" →
    writes_in_pairs k →
    writes_in_pairs
      (SetMetadataField key m (SetContractField (key +:+ "Contract") c k))
| writes_in_pairs_Invoke R (op : Ext.t R) k :
    (∀ r, writes_in_pairs (k r)) → writes_in_pairs (Invoke op k)
| writes_in_pairs_Request R (op : Net.t R) k :
    (∀ r, writes_in_pairs (k r)) → writes_in_pairs (Request op k)
| writes_in_pairs_Yield k : writes_in_pairs k → writes_in_pairs (Yield k).

(** ** Claim transactions *)

(** An event is no claim transaction, or it is one sent to [distributor]
    with the gas limit [gasLimit]. *)
Definition claim_sent_as (distributor : Contract) (gasLimit : Z) (e : Event) : Prop :=
  match e with
  | ev_request (Net.claim target _ _ _ limit) =>
      target = distributor ∧ limit = gasLimit
  | _ => True
  end.

(** ** Batched address fetches *)

(** The state after the batched address fetches [requests] have been
    sent. *)
Definition batches_sent (σ : State) (requests : list Event) : State :=
  {| contracts := contracts σ; metadata := metadata σ;
     trace := trace σ ++ requests |}.

(** * Properties *)

(** ** The legacy normalizer *)

Section MapThrowing.
Context {A B : Type} (f : A → Settled B).

Lemma map_throwing_Forall2 xs ys :
  map_throwing f xs = Fulfilled ys ↔ Forall2 (λ x y, f x = Fulfilled y) xs ys.
Proof.
  revert ys. induction xs as [|x xs IH]; intros ys; simpl.
  - split.
    + intros [= <-]. constructor.
    + intros H. inversion H. reflexivity.
  - destruct (f x) as [y|e] eqn:Hx; simpl.
    + destruct (map_throwing f xs) as [ys'|e] eqn:Hxs; simpl.
      * split.
        -- intros [= <-]. constructor; [done | by apply IH].
        -- intros H. inversion H as [|? y' ? ys'' Hy Hys]; subst.
           apply IH in Hys. congruence.
      * split; [done |].
        intros H. inversion H as [|? y' ? ys'' Hy Hys]; subst.
        apply IH in Hys. done.
    + split; [done |]. intros H. inversion H; subst. congruence.
Qed.

Lemma map_throwing_fmap (g : A → B) xs :
  Forall (λ x, f x = Fulfilled (g x)) xs →
  map_throwing f xs = Fulfilled (g <$> xs).
Proof.
  intros H. apply map_throwing_Forall2.
  induction H; simpl; constructor; auto.
Qed.
End MapThrowing.

Lemma tier_of_legacy a d p o :
  LEGACYPrize a d p = VObject o → tier_of o = VNumber d.
Proof. intros [= <-]. reflexivity. Qed.

Lemma convert_prize_legacy bn a d p :
  DrawResultsConversion.convert_prize bn (LEGACYPrize a d p) = Fulfilled (PrizeAwardable a d p).
Proof. reflexivity. Qed.

Lemma convert_prize_canonical bn a d p :
  DrawResultsConversion.convert_prize bn (PrizeAwardable a d p) = Fulfilled (PrizeAwardable a d p).
Proof. reflexivity. Qed.


Section DrawResultsConversionFacts.
Import DrawResultsConversion.
Variable bn : value → option Z.

Lemma BigNumber_from_is_BigNumber v x :
  BigNumber_from bn v = Fulfilled x → ∃ n, x = VBigNumber n.
Proof.
  unfold BigNumber_from.
  destruct v; try (destruct (bn _)); intros [= <-]; eauto.
Qed.

Lemma convert_prize_inv prize out :
  convert_prize bn prize = Fulfilled out →
  ∃ o a p, prize = VObject o ∧
    BigNumber_from bn (prop o "amount") = Fulfilled (VBigNumber a) ∧
    BigNumber_from bn (prop o "pick") = Fulfilled (VBigNumber p) ∧
    out = VObject {[ "amount" := VBigNumber a;
                     "tierIndex" := tier_of o;
                     "pick" := VBigNumber p ]}.
Proof.
  destruct prize as [| | | | |o]; try discriminate. simpl.
  destruct (BigNumber_from bn (prop o "amount")) as [a|] eqn:Ha; [|discriminate].
  destruct (BigNumber_from bn (prop o "pick")) as [p|] eqn:Hp; [|discriminate].
  simpl. intros [= <-].
  destruct (BigNumber_from_is_BigNumber _ _ Ha) as [a' ->].
  destruct (BigNumber_from_is_BigNumber _ _ Hp) as [p' ->].
  eauto 10.
Qed.


Lemma convert_prize_shape prize :
  canonical_prize prize ∨ legacy_prize prize →
  ∃ out, convert_prize bn prize = Fulfilled out ∧ canonical_form_of prize out.
Proof.
  intros [[a t p]|[a d p]]; eexists; (split; [reflexivity | constructor]).
Qed.
End DrawResultsConversionFacts.


Lemma has_prop_true k o : has_prop k o = true ↔ is_Some (o !! k).
Proof. unfold has_prop. apply bool_decide_eq_true. Qed.

Lemma has_prop_false k o : has_prop k o = false ↔ o !! k = None.
Proof.
  unfold has_prop. rewrite bool_decide_eq_false. symmetry. apply eq_None_not_Some.
Qed.

Lemma prop_Some o k v : o !! k = Some v → prop o k = v.
Proof. unfold prop. by intros ->. Qed.

(** An amount or pick held in another representation that ethers reads
    as a number keeps its value and becomes a [BigNumber] instance; such a
    prize lies outside the shapes of [types.ts]. *)
Lemma BigNumber_from_other_representation bn v n :
  (∀ m, v ≠ VBigNumber m) → bn v = Some n →
  DrawResultsConversion.BigNumber_from bn v = Fulfilled (VBigNumber n).
Proof.
  intros Hv Hn. unfold DrawResultsConversion.BigNumber_from.
  destruct v as [| |m| | |]; try (by rewrite Hn). by destruct (Hv m).
Qed.

Lemma convert_prize_other_representations bn (o : gmap string value) amount pick a p :
  o !! "amount" = Some amount → o !! "pick" = Some pick →
  (∀ n, amount ≠ VBigNumber n) → (∀ n, pick ≠ VBigNumber n) →
  bn amount = Some a → bn pick = Some p →
  DrawResultsConversion.convert_prize bn (VObject o)
  = Fulfilled (VObject {[ "amount" := VBigNumber a;
                          "tierIndex" := tier_of o;
                          "pick" := VBigNumber p ]}).
Proof.
  intros Ha Hp Hna Hnp Hba Hbp. simpl.
  rewrite (prop_Some _ _ _ Ha), (prop_Some _ _ _ Hp).
  rewrite (BigNumber_from_other_representation bn amount a Hna Hba). simpl.
  by rewrite (BigNumber_from_other_representation bn pick p Hnp Hbp).
Qed.

Lemma tier_of_insert_tier o :
  tier_of (<["tierIndex" := tier_of o]> o) = tier_of o.
Proof.
  unfold tier_of at 1. unfold has_prop, prop.
  rewrite lookup_insert_ne by done. rewrite lookup_insert_eq. simpl.
  unfold tier_of, has_prop, prop. by case_bool_decide.
Qed.

Section ExtendedConversionFacts.
Import ExtendedConversion.



Lemma normalize_prize_record prize :
  (∃ o, prize = VObject o) → ∃ out, normalize_prize prize = Fulfilled out.
Proof. intros [o ->]. eexists. reflexivity. Qed.

Lemma normalize_all_records prizes :
  Forall (λ p, ∃ o, p = VObject o) prizes →
  ∃ outs, map_throwing normalize_prize prizes = Fulfilled outs.
Proof.
  induction 1 as [|p ps [o ->] _ [outs IH]]; simpl.
  - by eexists.
  - rewrite IH. simpl. by eexists.
Qed.

Lemma extended_inv record out :
  formatDrawResultsFromLegacyDrawResults record = Fulfilled out →
  ∃ prizes normalized,
    prop record "prizes" = VArray prizes ∧
    Forall2 (λ p q, normalize_prize p = Fulfilled q) prizes normalized ∧
    out = <["prizes" := VArray normalized]> record.
Proof.
  unfold formatDrawResultsFromLegacyDrawResults.
  destruct (prop record "prizes") as [| | | |prizes|]; try discriminate.
  destruct (map_throwing normalize_prize prizes) as [normalized|] eqn:Hm;
    [|discriminate].
  simpl. intros [= <-]. exists prizes, normalized.
  by apply map_throwing_Forall2 in Hm.
Qed.

Lemma extended_returns record prizes normalized :
  record !! "prizes" = Some (VArray prizes) →
  Forall2 (λ p q, normalize_prize p = Fulfilled q) prizes normalized →
  formatDrawResultsFromLegacyDrawResults record
  = Fulfilled (<["prizes" := VArray normalized]> record).
Proof.
  intros Hp Hn. unfold formatDrawResultsFromLegacyDrawResults.
  rewrite (prop_Some _ _ _ Hp).
  apply map_throwing_Forall2 in Hn. by rewrite Hn.
Qed.

End ExtendedConversionFacts.

Section DrawResultsConversionIdempotence.
Import DrawResultsConversion.
Variable bn : value → option Z.


End DrawResultsConversionIdempotence.


Lemma convert_prize_readable bn o amount pick :
  DrawResultsConversion.BigNumber_from bn (prop o "amount")
  = Fulfilled (VBigNumber amount) →
  DrawResultsConversion.BigNumber_from bn (prop o "pick")
  = Fulfilled (VBigNumber pick) →
  DrawResultsConversion.convert_prize bn (VObject o)
  = Fulfilled (VObject {[ "amount" := VBigNumber amount;
                          "tierIndex" := tier_of o;
                          "pick" := VBigNumber pick ]}).
Proof. intros Ha Hp. simpl. rewrite Ha. simpl. by rewrite Hp. Qed.

Lemma tier_of_record o :
  canonical_record (VObject o) ∨ legacy_record (VObject o) →
  (∀ d, o !! "distributionIndex" = Some d → tier_of o = d)
  ∧ (o !! "distributionIndex" = None → Some (tier_of o) = o !! "tierIndex").
Proof.
  intros Hshape. split.
  - intros d Hd. unfold tier_of.
    rewrite (proj2 (has_prop_true "distributionIndex" o)) by by rewrite Hd.
    by apply prop_Some.
  - intros Hd. unfold tier_of.
    rewrite (proj2 (has_prop_false "distributionIndex" o) Hd).
    destruct Hshape as [(o' & [= <-] & _ & [t Ht])|(o' & [= <-] & [d Hd'])].
    + by rewrite Ht, (prop_Some _ _ _ Ht).
    + by rewrite Hd in Hd'.
Qed.

Lemma BigNumber_from_instance bn o key n m :
  o !! key = Some (VBigNumber n) →
  DrawResultsConversion.BigNumber_from bn (prop o key) = Fulfilled (VBigNumber m) →
  m = n.
Proof. intros Hk. rewrite (prop_Some _ _ _ Hk). simpl. by intros [= <-]. Qed.

(** C5.  The draw-results conversion, applied to a record whose prizes are
    records in canonical or legacy shape, with or without further fields,
    and hold an [amount] and a [pick] that [BigNumber.from] reads, returns
    exactly the three fields [drawId], [totalValue] and [prizes], the first
    two as read from the input.  Each prize is rebuilt with exactly the
    fields [amount], [tierIndex] and [pick]: the tier is the prize's
    [distributionIndex] when that field is present and its [tierIndex]
    otherwise; [amount] and [pick] are what [BigNumber.from] makes of the
    input's, which for a [BigNumber] instance is the instance itself; no
    other field of a prize or of the record is kept.  On prizes that have
    just the three fields of their type, with [BigNumber] instances, each
    prize becomes its canonical form; in particular the prize with
    [distributionIndex = 3], [amount = 100], [pick = 5] becomes
    [{ tierIndex: 3, amount: 100, pick: 5 }]. *)
Theorem draw_results_conversion_canonical_form :
  ∀ (bigNumberish : value → option Z) (record : gmap string value)
    (prizes : list value),
    record !! "prizes" = Some (VArray prizes) →
    Forall (λ prize,
              (canonical_record prize ∨ legacy_record prize)
              ∧ ∃ o amount pick,
                  prize = VObject o
                  ∧ DrawResultsConversion.BigNumber_from bigNumberish (prop o "amount")
                    = Fulfilled (VBigNumber amount)
                  ∧ DrawResultsConversion.BigNumber_from bigNumberish (prop o "pick")
                    = Fulfilled (VBigNumber pick))
           prizes →
    (∃ out outs,
       DrawResultsConversion.formatDrawResultsFromLegacyDrawResults bigNumberish record
       = Fulfilled out
       ∧ out = {[ "drawId" := prop record "drawId";
                  "totalValue" := prop record "totalValue";
                  "prizes" := VArray outs ]}
       ∧ dom out = ({[ "drawId"; "totalValue"; "prizes" ]} : gset string)
       ∧ Forall2
           (λ prize converted,
              ∃ o o' amount pick,
                prize = VObject o ∧ converted = VObject o'
                ∧ dom o' = ({[ "amount"; "tierIndex"; "pick" ]} : gset string)
                ∧ (∀ d, o !! "distributionIndex" = Some d → o' !! "tierIndex" = Some d)
                ∧ (o !! "distributionIndex" = None →
                   o' !! "tierIndex" = o !! "tierIndex")
                ∧ o' !! "amount" = Some (VBigNumber amount)
                ∧ o' !! "pick" = Some (VBigNumber pick)
                ∧ DrawResultsConversion.BigNumber_from bigNumberish (prop o "amount")
                  = Fulfilled (VBigNumber amount)
                ∧ DrawResultsConversion.BigNumber_from bigNumberish (prop o "pick")
                  = Fulfilled (VBigNumber pick)
                ∧ (∀ n, o !! "amount" = Some (VBigNumber n) → amount = n)
                ∧ (∀ n, o !! "pick" = Some (VBigNumber n) → pick = n))
           prizes outs
       ∧ (Forall (λ prize, canonical_prize prize ∨ legacy_prize prize) prizes →
          Forall2 canonical_form_of prizes outs))
    ∧ DrawResultsConversion.convert_prize bigNumberish (LEGACYPrize 100 3 5)
      = Fulfilled (PrizeAwardable 100 3 5).
Proof.
  intros bn record prizes Hp Hshape. split; [|reflexivity].
  assert (∃ outs,
            Forall2 (λ prize converted,
                       DrawResultsConversion.convert_prize bn prize
                       = Fulfilled converted) prizes outs) as [outs Houts].
  { clear Hp. induction Hshape as [|prize rest [_ (o & a & pk & -> & Ha & Hpk)] _ [outs IH]].
    - exists []. constructor.
    - eexists (_ :: outs). constructor; [|exact IH].
      by apply convert_prize_readable. }
  eexists _, outs. split; [|split; [reflexivity |split; [|split]]].
  - unfold DrawResultsConversion.formatDrawResultsFromLegacyDrawResults.
    rewrite (prop_Some _ _ _ Hp).
    apply map_throwing_Forall2 in Houts. by rewrite Houts.
  - rewrite !dom_insert_L, dom_singleton_L. set_solver.
  - clear Hp. induction Houts as [|prize converted rest outs Hconverted _ IH].
    + constructor.
    + apply Forall_cons in Hshape as [[Hrecord _] Hrest].
      constructor; [|by apply IH].
      apply convert_prize_inv in Hconverted as (o & a & pk & -> & Ha & Hpk & ->).
      destruct (tier_of_record o Hrecord) as [Hlegacy Hcanonical].
      eexists o, _, a, pk. split; [done |]. split; [reflexivity |].
      split; [rewrite !dom_insert_L, dom_singleton_L; set_solver |].
      split; [intros d Hd; by rewrite <- (Hlegacy d Hd) |].
      split; [intros Hd; by rewrite <- (Hcanonical Hd) |].
      split; [done |]. split; [done |]. split; [done |]. split; [done |].
      split; intros n Hn; by eapply BigNumber_from_instance.
  - intros Htyped. clear Hp Hshape.
    induction Houts as [|prize converted rest outs Hconverted _ IH].
    + constructor.
    + apply Forall_cons in Htyped as [Hprize Hrest].
      constructor; [|by apply IH].
      destruct (convert_prize_shape bn prize Hprize) as (out & Hout & Hform).
      rewrite Hconverted in Hout. by injection Hout as ->.
Qed.

(** C5, as stated, fails: the draw-results conversion keeps no field of a
    prize beyond [amount], [tierIndex] and [pick], and none of the record
    beyond [drawId], [totalValue] and [prizes]; and what it keeps of
    [amount] and [pick] is what [BigNumber.from] returns, not the input's
    value as it was.  The prize below is in legacy shape. *)
Lemma draw_results_conversion_drops_and_coerces :
  legacy_record (VObject example_prize_with_more_fields)
  ∧ DrawResultsConversion.formatDrawResultsFromLegacyDrawResults example_bigNumberish
      example_record_with_more_fields
    = Fulfilled (DrawResults 7 100 [VObject example_converted_prize])
  ∧ example_prize_with_more_fields !! "claimed" = Some (VNumber 1)
  ∧ example_converted_prize !! "claimed" = None
  ∧ example_prize_with_more_fields !! "amount" = Some (VNumber 100)
  ∧ example_converted_prize !! "amount" = Some (VBigNumber 100)
  ∧ example_converted_prize !! "amount" ≠ example_prize_with_more_fields !! "amount"
  ∧ example_record_with_more_fields !! "winner" = Some (VString "0xUser")
  ∧ DrawResults 7 100 [VObject example_converted_prize] !! "winner" = None.
Proof.
  split; [eexists; split; [reflexivity | by eexists] |].
  repeat split; done.
Qed.


(** C7.  The extended conversion, applied to a wrapper record whose
    [prizes] is an array of records, returns the wrapper with [prizes]
    replaced by the normalized prizes: every other field of the wrapper is
    unchanged. *)
Theorem extended_conversion_preserves_siblings :
  ∀ (record : gmap string value) (prizes : list value),
    record !! "prizes" = Some (VArray prizes) →
    Forall (λ p, ∃ o, p = VObject o) prizes →
    ∃ out normalized,
      ExtendedConversion.formatDrawResultsFromLegacyDrawResults record = Fulfilled out
      ∧ Forall2 (λ p q, ExtendedConversion.normalize_prize p = Fulfilled q)
                prizes normalized
      ∧ out = <["prizes" := VArray normalized]> record
      ∧ out !! "prizes" = Some (VArray normalized)
      ∧ ∀ k, k ≠ "prizes" → out !! k = record !! k.
Proof.
  intros record prizes Hp Hrec.
  destruct (normalize_all_records prizes Hrec) as [normalized Hn].
  apply map_throwing_Forall2 in Hn.
  exists (<["prizes" := VArray normalized]> record), normalized.
  split; [by apply (extended_returns record prizes) |].
  split; [done |]. split; [done |].
  split; [apply lookup_insert_eq |].
  intros k Hk. by apply lookup_insert_ne.
Qed.

(** C10.  In the extended conversion each prize of a legacy input keeps
    its [distributionIndex] field next to the added [tierIndex] field, which
    holds the same value; the other fields of the prize are unchanged. *)
Theorem extended_conversion_keeps_distributionIndex :
  ∀ (record : gmap string value) (prizes : list value),
    record !! "prizes" = Some (VArray prizes) →
    Forall legacy_record prizes →
    ∃ normalized,
      ExtendedConversion.formatDrawResultsFromLegacyDrawResults record
      = Fulfilled (<["prizes" := VArray normalized]> record)
      ∧ Forall2 (λ p q, ∃ o o' d,
                   p = VObject o ∧ q = VObject o'
                   ∧ o !! "distributionIndex" = Some d
                   ∧ o' !! "distributionIndex" = Some d
                   ∧ o' !! "tierIndex" = Some d
                   ∧ ∀ k, k ≠ "tierIndex" → o' !! k = o !! k)
                prizes normalized.
Proof.
  intros record prizes Hp Hl.
  assert (∃ normalized,
            Forall2 (λ p q, ExtendedConversion.normalize_prize p = Fulfilled q)
                    prizes normalized
            ∧ Forall2 (λ p q, ∃ o o' d,
                   p = VObject o ∧ q = VObject o'
                   ∧ o !! "distributionIndex" = Some d
                   ∧ o' !! "distributionIndex" = Some d
                   ∧ o' !! "tierIndex" = Some d
                   ∧ ∀ k, k ≠ "tierIndex" → o' !! k = o !! k) prizes normalized)
    as (normalized & Hn & Hk).
  { clear Hp. induction Hl as [|p ps (o & -> & [d Hd]) _ (outs & Hn & Hk)].
    - exists []. split; constructor.
    - exists (VObject (<["tierIndex" := tier_of o]> o) :: outs).
      split; constructor; auto.
      exists o, (<["tierIndex" := tier_of o]> o), d.
      assert (tier_of o = d) as Ht.
      { unfold tier_of. replace (has_prop "distributionIndex" o) with true.
        - by apply prop_Some.
        - symmetry. apply has_prop_true. eauto. }
      repeat split; auto.
      + by rewrite lookup_insert_ne.
      + rewrite lookup_insert_eq. by rewrite Ht.
      + intros k Hk'. by rewrite lookup_insert_ne. }
  exists normalized. split; [|done]. by apply (extended_returns record prizes).
Qed.

(** ** Running computations *)

Lemma run_bind {A B} w (t : Async A) (f : A → Async B) σ :
  run w (bind t f) σ = run w (f (run w t σ).1) (run w t σ).2.
Proof.
  revert σ. induction t as [a|key k IH|key c k IH|key m k IH|R op k IH|R op k IH|k IH];
    intros σ; simpl; auto.
Qed.

Lemma run_map_async {A B} w (f : A → B) (t : Async A) σ :
  run w (map_async f t) σ = (f (run w t σ).1, (run w t σ).2).
Proof. unfold map_async. by rewrite run_bind. Qed.

Lemma run_await {A B} w (p : Promise A) (k : A → Promise B) σ :
  run w (await p k) σ =
  match (run w p σ).1 with
  | Fulfilled a => run w (k a) (run w p σ).2
  | Rejected e => (Rejected e, (run w p σ).2)
  end.
Proof. unfold await. rewrite run_bind. by destruct (run w p σ).1. Qed.

(** ** Results *)

Section Ensures.
Context (net : ∀ R, Net.t R → Settled R → Prop).
Context (ext : ∀ R, Ext.t R → Settled R → Prop).

Lemma ensures_weaken {A} (P P' : A → Prop) t :
  (∀ a, P a → P' a) → ensures net ext P t → ensures net ext P' t.
Proof. intros HP. induction 1; constructor; auto. Qed.

Lemma ensures_True {A} (t : Async A) : ensures net ext (λ _, True) t.
Proof. induction t; constructor; auto. Qed.

Lemma ensures_bind {A B} (Q : A → Prop) (P : B → Prop) t (f : A → Async B) :
  ensures net ext Q t →
  (∀ a, Q a → ensures net ext P (f a)) →
  ensures net ext P (bind t f).
Proof. intros Ht Hf. induction Ht; simpl; try constructor; auto. Qed.

Lemma ensures_map_async {A B} (P : B → Prop) (f : A → B) t :
  ensures net ext (λ a, P (f a)) t → ensures net ext P (map_async f t).
Proof.
  intros H. eapply ensures_bind; [exact H |]. intros a Ha. by constructor.
Qed.

Lemma ensures_par {A B} (P1 : A → Prop) (P2 : B → Prop) t1 t2 :
  ensures net ext P1 t1 → ensures net ext P2 t2 →
  ensures net ext (λ ab, P1 ab.1 ∧ P2 ab.2) (par t1 t2).
Proof.
  intros H1. revert t2.
  induction H1 as [a Ha|key k _ IH|key c k _ IH|key m k _ IH
                  |R op k _ IH|R op k _ IH|k1 H1 IH];
    intros t2 H2; simpl; try (constructor; auto; fail).
  - apply ensures_map_async. eapply ensures_weaken; [|exact H2]. simpl. auto.
  - induction H2 as [b Hb|key k _ IH2|key c k _ IH2|key m k _ IH2
                    |R op k _ IH2|R op k _ IH2|k2 H2 _];
      try (constructor; auto; fail).
    constructor. apply ensures_map_async.
    eapply ensures_weaken; [|exact H1]. simpl. auto.
Qed.
End Ensures.

Lemma ensures_any {A} w (P : A → Prop) t :
  ensures any_answer any_answer P t → ensures (net_of w) (ext_of w) P t.
Proof. induction 1; constructor; auto; intros; by apply H0. Qed.

Lemma ensures_run {A} w (P : A → Prop) t σ :
  ensures (net_of w) (ext_of w) P t → P (run w t σ).1.
Proof.
  intros H. revert σ. induction H; intros σ; simpl; auto.
  - apply H0. reflexivity.
  - apply H0. reflexivity.
Qed.

(** ** Traces *)

Lemma extends_with_refl Q σ : extends_with Q σ σ.
Proof. exists []. split; [by rewrite app_nil_r | constructor]. Qed.

Lemma extends_with_trans Q σ1 σ2 σ3 :
  extends_with Q σ1 σ2 → extends_with Q σ2 σ3 → extends_with Q σ1 σ3.
Proof.
  intros (a1 & H1 & Q1) (a2 & H2 & Q2). exists (a1 ++ a2). split.
  - by rewrite H2, H1, app_assoc.
  - by apply Forall_app.
Qed.

Lemma extends_with_event (Q : Event → Prop) e σ σ' :
  Q e → trace σ' = trace σ ++ [e] → extends_with Q σ σ'.
Proof. intros He Ht. exists [e]. split; [done | by constructor]. Qed.

Lemma extends_with_log (Q : Event → Prop) e σ : Q e → extends_with Q σ (log e σ).
Proof. intros He. by apply (extends_with_event Q e). Qed.

Lemma extends_with_weaken (Q Q' : Event → Prop) σ σ' :
  (∀ e, Q e → Q' e) → extends_with Q σ σ' → extends_with Q' σ σ'.
Proof.
  intros HQ (added & Ht & Ha). exists added. split; [done |].
  eapply Forall_impl; eauto.
Qed.

Section Emits.
Context (Q : Event → Prop).

Lemma emits_bind {A B} (t : Async A) (f : A → Async B) :
  emits Q t → (∀ a, emits Q (f a)) → emits Q (bind t f).
Proof. intros Ht Hf. induction Ht; simpl; try constructor; auto. Qed.

Lemma emits_map_async {A B} (f : A → B) t : emits Q t → emits Q (map_async f t).
Proof. intros H. apply emits_bind; [done |]. intros. constructor. Qed.

Lemma emits_await {A B} (p : Promise A) (k : A → Promise B) :
  emits Q p → (∀ a, emits Q (k a)) → emits Q (await p k).
Proof.
  intros Hp Hk. apply emits_bind; [done |]. intros [a|e]; [auto | constructor].
Qed.

Lemma emits_par {A B} (t1 : Async A) (t2 : Async B) :
  emits Q t1 → emits Q t2 → emits Q (par t1 t2).
Proof.
  intros H1. revert t2.
  induction H1 as [a|key k _ IH|key c k Hq _ IH|key m k Hq _ IH
                  |R op k Hq _ IH|R op k Hq _ IH|k1 H1 IH];
    intros t2 H2; simpl; try (constructor; auto; fail).
  - by apply emits_map_async.
  - induction H2; try (constructor; auto; fail).
    constructor. by apply emits_map_async.
Qed.

Lemma emits_run {A} w (t : Async A) σ :
  emits Q t → extends_with Q σ (run w t σ).2.
Proof.
  intros H. revert σ. induction H; intros σ; simpl.
  - apply extends_with_refl.
  - auto.
  - eapply extends_with_trans; [|apply IHemits]. by eapply extends_with_event.
  - eapply extends_with_trans; [|apply IHemits]. by eapply extends_with_event.
  - eapply extends_with_trans; [|apply H1]. by eapply extends_with_event.
  - eapply extends_with_trans; [|apply H1]. by eapply extends_with_event.
  - auto.
Qed.
End Emits.

(** ** Draw id ranges *)

Lemma push_ids_seqZ fuel i newestId drawIds :
  newestId + 1 - i ≤ Z.of_nat fuel →
  push_ids fuel i newestId drawIds = drawIds ++ seqZ i (newestId + 1 - i).
Proof.
  revert i drawIds. induction fuel as [|fuel IH]; intros i drawIds Hfuel; simpl.
  - rewrite seqZ_nil by lia. by rewrite app_nil_r.
  - destruct (Z.leb_spec i newestId) as [Hle|Hgt].
    + rewrite IH by lia. rewrite <- app_assoc. f_equal. simpl.
      rewrite (seqZ_cons i) by lia. do 2 f_equal; lia.
    + rewrite seqZ_nil by lia. by rewrite app_nil_r.
Qed.

Lemma ids_from_to_seqZ oldestId newestId :
  ids_from_to oldestId newestId = seqZ oldestId (newestId - oldestId + 1).
Proof.
  unfold ids_from_to. rewrite push_ids_seqZ by lia. simpl. f_equal. lia.
Qed.

(** The loop leaves by its own test: more iterations allowed change nothing. *)
Lemma push_ids_more_fuel fuel extra i newestId drawIds :
  newestId + 1 - i ≤ Z.of_nat fuel →
  push_ids (fuel + extra) i newestId drawIds = push_ids fuel i newestId drawIds.
Proof. intros H. rewrite !push_ids_seqZ by lia. done. Qed.



(** ** Retrying without the largest id *)

Lemma length_drop_largest drawIds :
  length (drop_largest drawIds) = (length drawIds - 1)%nat.
Proof.
  unfold drop_largest. rewrite length_take.
  rewrite (Permutation_length (merge_sort_Permutation Z.le drawIds)). lia.
Qed.

Lemma drop_largest_drops_largest drawIds :
  drawIds ≠ [] →
  ∃ largest, drawIds ≡ₚ drop_largest drawIds ++ [largest]
             ∧ Forall (λ id, id ≤ largest) drawIds.
Proof.
  intros Hne. unfold drop_largest.
  pose proof (merge_sort_Permutation Z.le drawIds) as Hperm.
  pose proof (StronglySorted_merge_sort Z.le drawIds) as Hsorted.
  pose proof (Permutation_length Hperm) as Hlen.
  set (sorted := merge_sort Z.le drawIds) in *.
  assert (length drawIds ≠ 0%nat) as Hpos by (by destruct drawIds).
  destruct (drop (length drawIds - 1) sorted) as [|largest rest] eqn:Hdrop.
  { apply (f_equal length) in Hdrop. rewrite length_drop in Hdrop. simpl in Hdrop. lia. }
  assert (rest = []) as ->.
  { apply (f_equal length) in Hdrop. rewrite length_drop in Hdrop. simpl in Hdrop.
    destruct rest; [done | simpl in Hdrop; lia]. }
  assert (sorted = take (length drawIds - 1) sorted ++ [largest]) as Hsplit.
  { rewrite <- Hdrop. by rewrite take_drop. }
  exists largest. split.
  - by rewrite <- Hsplit.
  - rewrite <- Hperm. rewrite Hsplit. apply Forall_app. split; [|by repeat constructor].
    rewrite Hsplit in Hsorted. apply Forall_forall. intros x Hx.
    eapply (StronglySorted_app_1_elem_of Z.le); [exact Hsorted | exact Hx |].
    by apply list_elem_of_singleton.
Qed.

(** ** The batched fetches *)

Section BatchedFetches.
Import PrizeDistributor.
Variables (w : World) (this : PrizeDistributor.t).

Lemma getDraws_empty : getDraws this [] = Ret (Fulfilled []).
Proof. reflexivity. Qed.

Lemma getPrizeDistributions_empty : getPrizeDistributions this [] = Ret (Fulfilled []).
Proof. reflexivity. Qed.

Lemma ensures_await {A B} net ext (P : Settled B → Prop)
    (p : Promise A) (k : A → Promise B) :
  (∀ e, P (Rejected e)) →
  (∀ a, ensures net ext P (k a)) →
  ensures net ext P (await p k).
Proof.
  intros He Hk. eapply ensures_bind; [apply ensures_True |].
  intros [a|e] _; [apply Hk | by constructor].
Qed.

Lemma getDraws_one_per_id drawIds :
  one_record_per_id w →
  ensures (net_of w) (ext_of w)
    (λ r, ∀ draws, r = Fulfilled draws → length draws = length drawIds)
    (getDraws this drawIds).
Proof.
  intros [Hd _]. destruct drawIds as [|id drawIds].
  { constructor. by intros ? [= <-]. }
  unfold getDraws. apply ensures_await; [done |]. intros buffer.
  unfold await, call. simpl. constructor. intros r ->. constructor.
  destruct (respond w _ _) as [draws|e] eqn:Hr; constructor; [|done].
  intros ? [= <-]. rewrite length_fmap. by apply Hd in Hr.
Qed.

Lemma getPrizeDistributions_one_per_id drawIds :
  one_record_per_id w →
  ensures (net_of w) (ext_of w)
    (λ r, ∀ pds, r = Fulfilled pds → length pds = length drawIds)
    (getPrizeDistributions this drawIds).
Proof.
  intros [_ Hp]. destruct drawIds as [|id drawIds].
  { constructor. by intros ? [= <-]. }
  unfold getPrizeDistributions. apply ensures_await; [done |]. intros buffer.
  unfold await, call. simpl. constructor. intros r ->. constructor.
  destruct (respond w _ _) as [pds|e] eqn:Hr; constructor; [|done].
  intros ? [= <-]. rewrite length_fmap. by apply Hp in Hr.
Qed.

Lemma lookup_pair_up draws pds index draw :
  draws !! index = Some draw →
  pair_up draws pds !! index
  = Some {| DrawAndPrizeDistribution.draw := draw;
            DrawAndPrizeDistribution.prizeDistribution := pds !! index |}.
Proof.
  intros Hd. unfold pair_up. rewrite list_lookup_imap, Hd. reflexivity.
Qed.

Lemma getDrawsAndPrizeDistributions_rec_bound fuel drawIds :
  (length drawIds < fuel)%nat →
  ensures any_answer any_answer (λ r, r ≠ None)
    (getDrawsAndPrizeDistributions_rec this fuel drawIds).
Proof.
  revert drawIds. induction fuel as [|fuel IH]; intros drawIds Hfuel; [lia |].
  simpl.
  eapply (ensures_bind _ _
            (λ r, drawIds = [] → is_rejected r.1 || is_rejected r.2 = false)).
  - destruct drawIds as [|id drawIds].
    + constructor. done.
    + eapply ensures_weaken; [|apply ensures_True]. done.
  - intros [rd rp] Hempty.
    destruct rd as [draws|e], rp as [pds|e'];
      try (constructor; done).
    all: apply IH; rewrite length_drop_largest;
      destruct drawIds; [by specialize (Hempty eq_refl) | simpl in *; lia].
Qed.

Lemma getDrawsAndPrizeDistributions_rec_run fuel drawIds σ :
  (length drawIds < fuel)%nat →
  ∃ drawIds' σ1 draws pds σ',
    retries_to w this drawIds σ drawIds' σ1
    ∧ run w (par (getDraws this drawIds') (getPrizeDistributions this drawIds')) σ1
      = ((Fulfilled draws, Fulfilled pds), σ')
    ∧ run w (getDrawsAndPrizeDistributions_rec this fuel drawIds) σ
      = (Some (Fulfilled (pair_up draws pds)), σ').
Proof.
  revert drawIds σ. induction fuel as [|fuel IH]; intros drawIds σ Hfuel; [lia |].
  simpl. rewrite run_bind.
  destruct (run w (par (getDraws this drawIds) (getPrizeDistributions this drawIds)) σ)
    as [[rd rp] σ1] eqn:Hrun.
  assert (is_rejected rd || is_rejected rp = true → drawIds ≠ []) as Hne.
  { intros Hrej ->. simpl in Hrun. injection Hrun as <- <- <-. done. }
  assert (is_rejected rd || is_rejected rp = true →
          ∃ drawIds' σ1' draws pds σ',
            retries_to w this drawIds σ drawIds' σ1'
            ∧ run w (par (getDraws this drawIds')
                         (getPrizeDistributions this drawIds')) σ1'
              = ((Fulfilled draws, Fulfilled pds), σ')
            ∧ run w (getDrawsAndPrizeDistributions_rec this fuel
                       (drop_largest drawIds)) σ1
              = (Some (Fulfilled (pair_up draws pds)), σ')) as Hretry.
  { intros Hrej. specialize (Hne Hrej).
    destruct (IH (drop_largest drawIds) σ1)
      as (drawIds' & σ1' & draws & pds & σ' & Hr & Hp & Hres).
    { rewrite length_drop_largest. destruct drawIds; [done | simpl in *; lia]. }
    exists drawIds', σ1', draws, pds, σ'. split; [|done].
    eapply retries_again; [exact Hrun | exact Hrej | exact Hr]. }
  destruct rd as [draws|e], rp as [pds|e']; simpl.
  - exists drawIds, σ, draws, pds, σ1. split; [constructor | done].
  - apply Hretry. reflexivity.
  - apply Hretry. reflexivity.
  - apply Hretry. reflexivity.
Qed.
End BatchedFetches.

(** C2.  [getDrawsAndPrizeDistributions] terminates for every id list:
    the bound on the recursion is never reached, whatever the calls answer.
    Each attempt in which a batched fetch is rejected is followed by an
    attempt on the ids sorted and without the largest one; the result is
    built from the first attempt in which both fetches are fulfilled: its
    pair at each index holds the draw returned at that index and the prize
    distribution returned at the same index, one pair per draw returned.
    When the buffers answer with one record per id, that is one pair per
    id asked, the pair of an id holding the draw and the prize distribution
    returned for it.  On the empty list both fetches return the empty list
    without any call and the result is empty. *)
Theorem getDrawsAndPrizeDistributions_terminates :
  ∀ (w : World) (this : PrizeDistributor.t) (drawIds : list Z) (σ : State),
    ensures any_answer any_answer (λ r, r ≠ None)
      (PrizeDistributor.getDrawsAndPrizeDistributions this drawIds)
    ∧ (∃ drawIds' σ1 draws prizeDistributions σ' pairs,
         retries_to w this drawIds σ drawIds' σ1
         ∧ run w (par (PrizeDistributor.getDraws this drawIds')
                      (PrizeDistributor.getPrizeDistributions this drawIds')) σ1
           = ((Fulfilled draws, Fulfilled prizeDistributions), σ')
         ∧ run w (PrizeDistributor.getDrawsAndPrizeDistributions this drawIds) σ
           = (Some (Fulfilled pairs), σ')
         ∧ length pairs = length draws
         ∧ (∀ index draw,
              draws !! index = Some draw →
              pairs !! index
              = Some {| DrawAndPrizeDistribution.draw := draw;
                        DrawAndPrizeDistribution.prizeDistribution :=
                          prizeDistributions !! index |})
         ∧ (one_record_per_id w →
            length pairs = length drawIds'
            ∧ ∀ index id,
                drawIds' !! index = Some id →
                ∃ draw prizeDistribution,
                  draws !! index = Some draw
                  ∧ prizeDistributions !! index = Some prizeDistribution
                  ∧ pairs !! index
                    = Some {| DrawAndPrizeDistribution.draw := draw;
                              DrawAndPrizeDistribution.prizeDistribution :=
                                Some prizeDistribution |}))
    ∧ (drawIds ≠ [] →
       length (drop_largest drawIds) = (length drawIds - 1)%nat
       ∧ ∃ largest, drawIds ≡ₚ drop_largest drawIds ++ [largest]
                    ∧ Forall (λ id, id ≤ largest) drawIds)
    ∧ run w (PrizeDistributor.getDrawsAndPrizeDistributions this []) σ
      = (Some (Fulfilled []), σ).
Proof.
  intros w this drawIds σ. split; [|split; [|split]].
  - apply getDrawsAndPrizeDistributions_rec_bound. lia.
  - destruct (getDrawsAndPrizeDistributions_rec_run w this (S (length drawIds)) drawIds σ)
      as (drawIds' & σ1 & draws & pds & σ' & Hr & Hp & Hres); [lia |].
    exists drawIds', σ1, draws, pds, σ', (pair_up draws pds).
    split; [done |]. split; [done |]. split; [done |].
    split; [unfold pair_up; by rewrite length_imap |].
    split; [intros index draw; apply lookup_pair_up |].
    intros Hw.
    pose proof (ensures_run w _ _ σ1
                  (ensures_par _ _ _ _ _ _
                     (getDraws_one_per_id w this drawIds' Hw)
                     (getPrizeDistributions_one_per_id w this drawIds' Hw))) as Hlen.
    rewrite Hp in Hlen. simpl in Hlen. destruct Hlen as [Hd Hpd].
    specialize (Hd _ eq_refl). specialize (Hpd _ eq_refl).
    split.
    + unfold pair_up. by rewrite length_imap.
    + intros index id Hid. apply lookup_lt_Some in Hid.
      destruct (lookup_lt_is_Some_2 draws index) as [draw Hdraw]; [lia |].
      destruct (lookup_lt_is_Some_2 pds index) as [pd Hpds]; [lia |].
      exists draw, pd. split; [done |]. split; [done |].
      by rewrite (lookup_pair_up _ _ _ _ Hdraw), Hpds.
  - intros Hne. split; [apply length_drop_largest | by apply drop_largest_drops_largest].
  - reflexivity.
Qed.

(** ** Events of the facade's methods *)

Ltac emits_step :=
  first
    [ apply emits_Ret
    | apply emits_Yield
    | apply emits_GetContractField; intros
    | apply emits_SetContractField; [reflexivity |]
    | apply emits_SetMetadataField; [reflexivity |]
    | apply emits_Invoke; [reflexivity | intros]
    | apply emits_Request; [reflexivity | intros]
    | apply emits_await; [| intros]
    | apply emits_bind; [| intros]
    | apply emits_par
    | progress cbv beta iota
    | match goal with
      | |- emits _ (match ?x with _ => _ end) => destruct x
      | |- emits _ (if ?b then _ else _) => destruct b
      end ].

Ltac emits_auto := repeat emits_step.

Section FacadeEvents.
Import PrizeDistributor.
Variable this : PrizeDistributor.t.

Lemma getAndSetEthersContract_emits (Q : Event → Prop) key type (p : Promise string) :
  (∀ e, sets_contract (key +:+ "Contract") e = true → Q e) →
  (∀ m, Q (ev_set_metadata key m)) →
  (∀ a, Q (ev_invoke (Ext.getMetadataAndContract (signerOrProvider this) type
                        (contractMetadataList this) (Some a)))) →
  emits Q p →
  emits Q (getAndSetEthersContract this key type p).
Proof.
  intros Hc Hm Hi Hp. unfold getAndSetEthersContract.
  constructor. intros [c|]; [constructor |].
  apply emits_await; [done |]. intros a.
  apply emits_await.
  - constructor; [apply Hi | intros; constructor].
  - intros [m c]. constructor; [apply Hm |]. constructor; [|constructor].
    apply Hc. simpl. by apply bool_decide_eq_true.
Qed.

Lemma getPrizeDistribution_emits drawId :
  emits (λ e, is_calculateDrawResults e = false) (getPrizeDistribution this drawId).
Proof.
  unfold getPrizeDistribution, getPrizeDistributionsBufferContract.
  apply emits_await.
  - apply getAndSetEthersContract_emits; try done.
    + by intros [] ?.
    + unfold call. emits_auto.
  - intros c. unfold call. emits_auto.
Qed.
End FacadeEvents.

(** ** Claiming *)

(** C3.  [claimPrizesByDrawResults] fails with a [SignerRequiredError] on a
    read-only provider; with a signer whose address is obtained, it fails
    with a [NetworkMismatchError] when the signer's network is not the
    facade's chain, and, when the network matches, with a
    [NothingToClaimError] when [totalValue] is zero.  When [totalValue] is
    zero the call is rejected in every case and no claim transaction is
    sent. *)
Theorem claimPrizesByDrawResults_validates :
  ∀ (w : World) (this : PrizeDistributor.t) (drawResults : DrawResults.t) (σ : State),
    let outcome := run w (PrizeDistributor.claimPrizesByDrawResults this drawResults) σ in
    (∀ provider,
       PrizeDistributor.signerOrProvider this = IsProvider provider →
       ∃ e, outcome = (Rejected e, σ) ∧ kind e = SignerRequiredError)
    ∧ (∀ signer usersAddress,
         PrizeDistributor.signerOrProvider this = IsSigner signer →
         respond w _ (Net.getAddress signer) = Fulfilled usersAddress →
         signer_network signer ≠ PrizeDistributor.chainId this →
         ∃ e, outcome.1 = Rejected e ∧ kind e = NetworkMismatchError)
    ∧ (∀ signer usersAddress,
         PrizeDistributor.signerOrProvider this = IsSigner signer →
         respond w _ (Net.getAddress signer) = Fulfilled usersAddress →
         signer_network signer = PrizeDistributor.chainId this →
         DrawResults.totalValue drawResults = 0 →
         outcome.1 = Rejected (mkError NothingToClaimError
                       "PrizeDistributors [claimPrizes] | No prizes to claim."))
    ∧ (DrawResults.totalValue drawResults = 0 →
       is_rejected outcome.1 = true
       ∧ extends_with (λ e, is_claim_request e = false) σ outcome.2).
Proof.
  intros w this drawResults σ outcome. subst outcome.
  unfold PrizeDistributor.claimPrizesByDrawResults, PrizeDistributor.getUsersAddress,
    PrizeDistributor.validateIsSigner, PrizeDistributor.validateSignerNetwork,
    validation.validateIsSigner, validation.validateSignerNetwork.
  split; [|split; [|split]].
  - intros provider ->. simpl. eauto.
  - intros signer usersAddress -> Haddr Hnet. simpl. rewrite Haddr. simpl.
    rewrite bool_decide_eq_false_2 by done. simpl. eauto.
  - intros signer usersAddress -> Haddr Hnet Hzero. simpl. rewrite Haddr. simpl.
    rewrite bool_decide_eq_true_2 by done. simpl. rewrite Hzero. reflexivity.
  - intros Hzero. destruct (PrizeDistributor.signerOrProvider this) as [p|signer]; simpl.
    + split; [done | apply extends_with_refl].
    + destruct (respond w _ (Net.getAddress signer)) as [usersAddress|e]; simpl.
      * case_bool_decide; simpl; rewrite ?Hzero; simpl;
          (split; [done | by apply extends_with_log]).
      * split; [done | by apply extends_with_log].
Qed.

(** ** Prizes of a user *)

(** C4.  Once the prize distribution of the draw and the user's normalized
    balance are fetched, [getUsersPrizes] returns
    [{ drawId, totalValue: 0, prizes: [] }] without invoking
    [calculateDrawResults] when the balance is zero, and otherwise returns
    what [calculateDrawResults] gives for the fetched prize distribution,
    the draw and the user [{ address, normalizedBalances: [balance] }]. *)
Theorem getUsersPrizes_short_circuits_on_zero_balance :
  ∀ (w : World) (this : PrizeDistributor.t) (usersAddress : string) (draw : Draw.t)
    (σ σ1 : State) (prizeDistribution : PrizeDistribution.t)
    (normalizedBalance : Z) (others : list Z),
    let balances :=
      Net.getNormalizedBalancesForDrawIds (PrizeDistributor.drawCalculatorContract this)
        usersAddress [Draw.drawId draw] in
    run w (PrizeDistributor.getPrizeDistribution this (Draw.drawId draw)) σ
    = (Fulfilled prizeDistribution, σ1) →
    respond w _ balances = Fulfilled (normalizedBalance :: others) →
    (normalizedBalance = 0 →
     run w (PrizeDistributor.getUsersPrizes this usersAddress draw) σ
     = (Fulfilled {| DrawResults.drawId := Draw.drawId draw;
                     DrawResults.totalValue := 0;
                     DrawResults.prizes := [] |},
        log (ev_request balances) σ1)
     ∧ extends_with (λ e, is_calculateDrawResults e = false)
                    σ (log (ev_request balances) σ1))
    ∧ (normalizedBalance ≠ 0 →
       let user := {| DrawCalcUser.address := usersAddress;
                      DrawCalcUser.normalizedBalances := [normalizedBalance] |} in
       let calculation := Ext.calculateDrawResults prizeDistribution draw user in
       run w (PrizeDistributor.getUsersPrizes this usersAddress draw) σ
       = (answer w _ calculation,
          log (ev_invoke calculation) (log (ev_request balances) σ1))).
Proof.
  intros w this usersAddress draw σ σ1 prizeDistribution normalizedBalance others
    balances Hpd Hbalance.
  unfold PrizeDistributor.getUsersPrizes. rewrite run_await, Hpd. simpl.
  fold balances. rewrite Hbalance. simpl.
  split.
  - intros ->. simpl. split; [reflexivity |].
    eapply extends_with_trans.
    + pose proof (emits_run _ w _ σ
                    (getPrizeDistribution_emits this (Draw.drawId draw))) as H.
      rewrite Hpd in H. exact H.
    + by apply extends_with_log.
  - intros Hnz. simpl. destruct (Z.eqb_spec normalizedBalance 0) as [->|_]; [done |].
    reflexivity.
Qed.

(** ** Initialization *)

Lemma ensures_allSettled {A X} net ext (p : X → Promise A) (g : X → Settled A) xs :
  (∀ x, ensures net ext (λ r, r = g x) (p x)) →
  ensures net ext (λ rs, rs = g <$> xs) (allSettled (p <$> xs)).
Proof.
  intros Hp. induction xs as [|x xs IH]; simpl.
  - by constructor.
  - apply ensures_map_async.
    eapply ensures_weaken; [|apply ensures_par; [apply Hp | apply IH]].
    intros [r rs] [Hr Hrs]. simpl in *. by subst.
Qed.

Lemma emits_allSettled {A} (Q : Event → Prop) (ps : list (Promise A)) :
  Forall (emits Q) ps → emits Q (allSettled ps).
Proof.
  induction 1; simpl; [constructor |].
  apply emits_map_async. by apply emits_par.
Qed.

Lemma fetchClaimableDrawAddressesByChainId_outcome w chainId sp cs :
  ensures (net_of w) (ext_of w) (λ r, r = fetch_outcome w chainId sp cs)
    (fetchClaimableDrawAddressesByChainId chainId sp cs).
Proof.
  unfold fetchClaimableDrawAddressesByChainId, fetch_outcome, await, call. simpl.
  constructor. intros r ->. constructor.
  destruct (respond w _ _); by constructor.
Qed.

Lemma fetchClaimableDrawAddressesByChainId_emits chainId sp cs :
  emits (λ e, is_registry_lookup e = false)
    (fetchClaimableDrawAddressesByChainId chainId sp cs).
Proof. unfold fetchClaimableDrawAddressesByChainId, call. emits_auto. Qed.

Lemma collect_addresses_rejected w responses acc σ :
  Exists (λ r, is_rejected r = true) responses →
  ∃ reason,
    Rejected reason ∈ responses
    ∧ run w (collect_addresses responses acc) σ
      = (Rejected (new_Error reason), log (ev_invoke (Ext.console_error reason)) σ).
Proof.
  intros H. revert acc. induction responses as [|r rs IH]; intros acc.
  - by apply Exists_nil in H.
  - destruct r as [v|reason]; simpl.
    + apply Exists_cons in H as [H|H]; [done |].
      destruct (IH H (acc ++ [v])) as (reason & Hin & Hrun).
      exists reason. split; [by right | done].
    + exists reason. split; [by left | done].
Qed.

Lemma elem_of_chain_ids chainId (byChainId : ByChainId.t (list ContractMetadata.t)) :
  chainId ∈ chain_ids byChainId ↔ is_Some (byChainId !! chainId).
Proof.
  unfold chain_ids, ByChainId.keys, lookup, ByChainId.lookup.
  rewrite !elem_of_app, !list_elem_of_filter, !merge_sort_Permutation,
    !list_elem_of_filter, elem_of_remove_dups, elem_of_elements, elem_of_dom.
  destruct (ByChainId.is_array_index chainId);
    destruct (decide (chainId ∈ ByChainId.created byChainId));
    intuition discriminate.
Qed.

(** C8.  If the batched address fetch of a chain that has a distributor
    is rejected, [initializePrizeDistributors] is rejected with an error
    made from the reason for which the fetch of such a chain was rejected;
    no facade is constructed and no list of facades is returned. *)
Theorem initializePrizeDistributors_aborts_on_failed_batch :
  ∀ (getContractsByType :
       list ContractMetadata.t → ContractType.t → list ContractMetadata.t)
    (sortContractsByChainId :
       list ContractMetadata.t → ByChainId.t (list ContractMetadata.t))
    (extendContractWithChildren :
       list ContractMetadata.t → gmap Z (gmap string (gmap string string)) →
       ContractType.t → list ContractMetadata.t)
    (sortContractsByContractTypeAndChildren :
       list ContractMetadata.t → ContractType.t → list (list ContractMetadata.t))
    (signersOrProviders : Z → SignerOrProvider)
    (w : World) (contracts : list ContractMetadata.t) (σ : State)
    (chainId : Z) (distributors : list ContractMetadata.t) (reason : Error),
    sortContractsByChainId (getContractsByType contracts ContractType.PrizeDistributor)
      !! chainId = Some distributors →
    respond w _ (Net.batch (signersOrProviders chainId)
                   (ContractMetadata.address <$> distributors))
    = Rejected reason →
    ∃ first_reason σ',
      run w (initializePrizeDistributors getContractsByType sortContractsByChainId
               extendContractWithChildren sortContractsByContractTypeAndChildren
               signersOrProviders contracts) σ
      = (Rejected (new_Error first_reason), σ')
      ∧ (∃ failing failing_distributors,
           sortContractsByChainId
             (getContractsByType contracts ContractType.PrizeDistributor)
             !! failing = Some failing_distributors
           ∧ respond w _ (Net.batch (signersOrProviders failing)
                            (ContractMetadata.address <$> failing_distributors))
             = Rejected first_reason)
      ∧ extends_with (λ e, is_registry_lookup e = false) σ σ'.
Proof.
  intros getContractsByType sortContractsByChainId extendContractWithChildren
    sortContractsByContractTypeAndChildren signersOrProviders w contracts σ
    chainId distributors reason Hchain Hfail.
  unfold initializePrizeDistributors.
  set (byChainId := sortContractsByChainId _) in *.
  set (fetch := λ chainId : Z, fetchClaimableDrawAddressesByChainId chainId _ _).
  set (outcome := λ chainId : Z,
         fetch_outcome w chainId (signersOrProviders chainId)
           (default [] (byChainId !! chainId))).
  rewrite run_bind.
  pose proof (ensures_run w _ _ σ
                (ensures_allSettled _ _ fetch outcome (chain_ids byChainId)
                   (λ c, fetchClaimableDrawAddressesByChainId_outcome w c _ _)))
    as Hresponses.
  assert (Forall (emits (λ e, is_registry_lookup e = false))
                 (fetch <$> chain_ids byChainId)) as Hemits.
  { apply Forall_fmap, Forall_forall. intros c _.
    apply fetchClaimableDrawAddressesByChainId_emits. }
  pose proof (emits_run _ w _ σ (emits_allSettled _ _ Hemits)) as Htrace.
  destruct (run w (allSettled (fetch <$> chain_ids byChainId)) σ)
    as [responses σ1]. simpl in *.
  destruct (collect_addresses_rejected w responses [] σ1) as (r & Hin & Hrun).
  { subst responses. apply Exists_exists. exists (outcome chainId). split.
    - apply list_elem_of_fmap. exists chainId. split; [done |].
      apply elem_of_chain_ids. by rewrite Hchain.
    - unfold outcome, fetch_outcome. rewrite Hchain. simpl. by rewrite Hfail. }
  rewrite run_await, Hrun. simpl.
  exists r, (log (ev_invoke (Ext.console_error r)) σ1).
  split; [done |]. split.
  - subst responses. apply list_elem_of_fmap in Hin as (failing & Hout & Hfailing).
    apply elem_of_chain_ids in Hfailing as [failing_distributors Hd].
    exists failing, failing_distributors. split; [done |].
    unfold outcome, fetch_outcome in Hout. rewrite Hd in Hout. simpl in Hout.
    match type of Hout with
    | _ = match ?answered with _ => _ end =>
        destruct answered as [result|reason'] eqn:Hanswered
    end; [done |].
    by injection Hout as ->.
  - eapply extends_with_trans; [exact Htrace | by apply extends_with_log].
Qed.

(** ** The lazy handle caches *)

Lemma writes_log key e σ :
  sets_contract key e = false → writes key (log e σ) = writes key σ.
Proof.
  intros He. unfold writes, log. simpl. rewrite filter_app, length_app.
  rewrite filter_cons_False by (rewrite He; auto). simpl. lia.
Qed.

Lemma writes_set_metadata key key' m σ :
  writes key (set_metadata key' m σ) = writes key σ.
Proof.
  unfold writes, set_metadata. simpl. rewrite filter_app, length_app.
  rewrite filter_cons_False by auto. simpl. lia.
Qed.

Lemma writes_set_contract key key' c σ :
  writes key (set_contract key' c σ)
  = (writes key σ + (if bool_decide (key' = key) then 1 else 0))%nat.
Proof.
  unfold writes, set_contract. simpl. rewrite filter_app, length_app. f_equal.
  case_bool_decide as Hk.
  - rewrite filter_cons_True; [done |]. simpl. by apply bool_decide_pack.
  - rewrite filter_cons_False; [done |]. simpl. by intros ?%bool_decide_unpack.
Qed.

Section HandleCaches.
Import PrizeDistributor.
Variables (w : World) (this : PrizeDistributor.t).

Lemma getAndSetEthersContract_cached key type p σ c :
  contracts σ !! (key +:+ "Contract") = Some c →
  run w (getAndSetEthersContract this key type p) σ = (Fulfilled c, σ).
Proof. intros H. unfold getAndSetEthersContract. simpl. by rewrite H. Qed.

Lemma getAndSetEthersContract_budget key type (op : Net.t string) key' σ :
  let σ' := (run w (getAndSetEthersContract this key type (call op)) σ).2 in
  (writes key' σ' + budget key' σ' ≤ writes key' σ + budget key' σ)%nat.
Proof.
  intros σ'. subst σ'. unfold getAndSetEthersContract. simpl.
  destruct (contracts σ !! (key +:+ "Contract")) as [c|] eqn:Hc; simpl; [done |].
  destruct (respond w _ op) as [a|e]; simpl.
  2: { rewrite writes_log by done. done. }
  destruct (answer w _ _) as [[m c]|e]; simpl.
  2: { rewrite !writes_log by done. done. }
  rewrite writes_set_contract, writes_set_metadata, !writes_log by done.
  unfold budget. simpl. case_bool_decide as Hk.
  - subst key'. rewrite lookup_insert_eq, Hc. lia.
  - rewrite lookup_insert_ne by done. lia.
Qed.

Lemma handle_getter_budget t key σ :
  t = getDrawBufferContract this ∨ t = getPrizeDistributionsBufferContract this →
  (writes key (run w t σ).2 + budget key (run w t σ).2
   ≤ writes key σ + budget key σ)%nat.
Proof.
  intros [->| ->].
  - apply (getAndSetEthersContract_budget "drawBuffer").
  - apply (getAndSetEthersContract_budget "prizeDistributionsBuffer").
Qed.

Lemma one_after_another_budget calls key σ :
  Forall (λ t, t = getDrawBufferContract this
               ∨ t = getPrizeDistributionsBufferContract this) calls →
  (writes key (run w (one_after_another calls) σ).2
   ≤ writes key σ + budget key σ)%nat.
Proof.
  intros H. revert σ. induction H as [|t calls Ht _ IH]; intros σ; simpl; [lia |].
  rewrite !run_bind. simpl.
  pose proof (handle_getter_budget t key σ Ht).
  specialize (IH (run w t σ).2). lia.
Qed.
End HandleCaches.

(** C9, as amended.  Once a handle field is set, a call of its getter
    returns the cached handle and does nothing else: no address fetch, no
    registry lookup, no write.  Getter calls made one after the other,
    each awaited before the next, write a handle field at most once per
    facade instance, and not at all once it is set. *)
Theorem handle_cache_reused_once_set :
  ∀ (w : World) (this : PrizeDistributor.t),
    (∀ σ c, contracts σ !! "drawBufferContract" = Some c →
            run w (PrizeDistributor.getDrawBufferContract this) σ = (Fulfilled c, σ))
    ∧ (∀ σ c, contracts σ !! "prizeDistributionsBufferContract" = Some c →
              run w (PrizeDistributor.getPrizeDistributionsBufferContract this) σ
              = (Fulfilled c, σ))
    ∧ (∀ calls key σ,
         Forall (λ t, t = PrizeDistributor.getDrawBufferContract this
                      ∨ t = PrizeDistributor.getPrizeDistributionsBufferContract this)
                calls →
         let σ' := (run w (one_after_another calls) σ).2 in
         (is_Some (contracts σ !! key) → writes key σ' ≤ writes key σ)%nat
         ∧ (writes key σ' ≤ writes key σ + 1)%nat)
    ∧ (∀ calls key,
         Forall (λ t, t = PrizeDistributor.getDrawBufferContract this
                      ∨ t = PrizeDistributor.getPrizeDistributionsBufferContract this)
                calls →
         (writes key (run w (one_after_another calls) initial).2 ≤ 1)%nat).
Proof.
  intros w this. split; [|split; [|split]].
  - intros σ c H. by apply getAndSetEthersContract_cached.
  - intros σ c H. by apply getAndSetEthersContract_cached.
  - intros calls key σ Hcalls σ'. subst σ'.
    pose proof (one_after_another_budget w this calls key σ Hcalls) as H.
    unfold budget in H. split.
    + intros [c Hc]. rewrite Hc in H. lia.
    + destruct (contracts σ !! key); lia.
  - intros calls key Hcalls.
    pose proof (one_after_another_budget w this calls key initial Hcalls) as H.
    replace (writes key initial) with 0%nat in H by reflexivity.
    replace (budget key initial) with 1%nat in H
      by (unfold budget; simpl; by rewrite lookup_empty).
    lia.
Qed.

(** Two calls of a getter that overlap on a fresh facade both find the
    field empty, and both write it once the address is fetched and
    resolved. *)
Lemma overlapping_getters_write_twice w this a m c :
  respond w _ (Net.getDrawBuffer (PrizeDistributor.drawCalculatorContract this))
  = Fulfilled a →
  answer w _ (Ext.getMetadataAndContract (PrizeDistributor.signerOrProvider this)
                ContractType.DrawBuffer (PrizeDistributor.contractMetadataList this)
                (Some a))
  = Fulfilled (m, c) →
  writes "drawBufferContract"
    (run w (par (PrizeDistributor.getDrawBufferContract this)
                (PrizeDistributor.getDrawBufferContract this)) initial).2
  = 2%nat.
Proof.
  intros Ha Hc.
  unfold PrizeDistributor.getDrawBufferContract,
    PrizeDistributor.getAndSetEthersContract, initial.
  simpl. repeat (first [rewrite lookup_empty | rewrite Ha | rewrite Hc]; simpl).
  reflexivity.
Qed.

(** C9, as stated, fails: on a fresh facade the reads of [getValidDrawIds]
    all start before any handle is resolved, and each of them resolves and
    writes its handle field, so each field is written twice. *)
Lemma handle_caches_written_twice_by_concurrent_reads :
  writes "drawBufferContract" after_concurrent_reads = 2%nat
  ∧ writes "prizeDistributionsBufferContract" after_concurrent_reads = 2%nat
  ∧ ¬ (writes "drawBufferContract" after_concurrent_reads ≤ 1)%nat
  ∧ ¬ (writes "prizeDistributionsBufferContract" after_concurrent_reads ≤ 1)%nat.
Proof. vm_compute. repeat split; lia. Qed.

(** * Worked examples *)

Lemma example_world_one_record_per_id draws distributions :
  one_record_per_id (example_world draws distributions).
Proof.
  split; intros buffer drawIds rs; simpl;
    destruct (forallb _ drawIds); intros [= <-]; by rewrite length_fmap.
Qed.

(** The buffers of section 8 of the specification. *)
Example reconciled_range_overlapping :
  (run (example_world (2, 10) (5, 8))
       (PrizeDistributor.getValidDrawIds (example_facade read_only)) initial).1
  = Fulfilled [5; 6; 7; 8].
Proof. vm_compute. reflexivity. Qed.

Example reconciled_range_disjoint :
  (run (example_world (2, 4) (6, 9))
       (PrizeDistributor.getValidDrawIds (example_facade read_only)) initial).1
  = Fulfilled [].
Proof. vm_compute. reflexivity. Qed.

Lemma example_world_of_distinct_records_one_record_per_id draws distributions :
  one_record_per_id (example_world_of_distinct_records draws distributions).
Proof.
  split; intros buffer drawIds rs; simpl;
    destruct (forallb _ drawIds); intros [= <-]; by rewrite length_fmap.
Qed.

(** Ids 1, 2, 3 with the distribution of draw 3 not yet recorded: the
    result holds draw 1 with the distribution of draw 1 and draw 2 with the
    distribution of draw 2. *)
Example paired_fetch_drops_the_lagging_draw :
  (run (example_world_of_distinct_records (1, 3) (1, 2))
       (PrizeDistributor.getDrawsAndPrizeDistributions (example_facade read_only)
          [3; 1; 2]) initial).1
  = Some (Fulfilled
            [ {| DrawAndPrizeDistribution.draw := example_draw 1;
                 DrawAndPrizeDistribution.prizeDistribution :=
                   Some (example_prizeDistribution_of 1) |};
              {| DrawAndPrizeDistribution.draw := example_draw 2;
                 DrawAndPrizeDistribution.prizeDistribution :=
                   Some (example_prizeDistribution_of 2) |} ]).
Proof. vm_compute. reflexivity. Qed.


Lemma getDrawsAndPrizeDistributions_terminates_witness :
  (∃ (drawIds' : list Z) (draws : list Draw.t)
     (prizeDistributions : list PrizeDistribution.t) pairs σ',
     run (example_world_of_distinct_records (1, 3) (1, 2))
         (PrizeDistributor.getDrawsAndPrizeDistributions (example_facade read_only)
            [3; 1; 2]) initial
     = (Some (Fulfilled pairs), σ')
     ∧ length pairs = length drawIds'
     ∧ ∀ index id,
         drawIds' !! index = Some id →
         ∃ draw prizeDistribution,
           draws !! index = Some draw
           ∧ prizeDistributions !! index = Some prizeDistribution
           ∧ pairs !! index
             = Some {| DrawAndPrizeDistribution.draw := draw;
                       DrawAndPrizeDistribution.prizeDistribution :=
                         Some prizeDistribution |})
  ∧ (∃ largest, [3; 1; 2] ≡ₚ drop_largest [3; 1; 2] ++ [largest]
                ∧ Forall (λ id, id ≤ largest) [3; 1; 2]).
Proof.
  destruct (getDrawsAndPrizeDistributions_terminates
              (example_world_of_distinct_records (1, 3) (1, 2))
              (example_facade read_only) [3; 1; 2] initial)
    as (_ & (drawIds' & σ1 & draws & pds & σ' & pairs & _ & _ & Hrun & _ & _ & Hids)
        & Hdrop & _).
  split.
  - exists drawIds', draws, pds, pairs, σ'. split; [exact Hrun |].
    apply Hids, example_world_of_distinct_records_one_record_per_id.
  - apply Hdrop. discriminate.
Defined.

Lemma claimPrizesByDrawResults_validates_witness :
  let nothing := {| DrawResults.drawId := 7; DrawResults.totalValue := 0;
                    DrawResults.prizes := [] |} in
  let w := example_world (1, 3) (1, 2) in
  (∃ e, run w (PrizeDistributor.claimPrizesByDrawResults (example_facade read_only)
                 nothing) initial = (Rejected e, initial)
        ∧ kind e = SignerRequiredError)
  ∧ (∃ e, (run w (PrizeDistributor.claimPrizesByDrawResults (example_facade (wallet 5))
                    nothing) initial).1 = Rejected e
          ∧ kind e = NetworkMismatchError)
  ∧ (run w (PrizeDistributor.claimPrizesByDrawResults (example_facade (wallet 1))
              nothing) initial).1
    = Rejected (mkError NothingToClaimError
                  "PrizeDistributors [claimPrizes] | No prizes to claim.")
  ∧ is_rejected
      (run w (PrizeDistributor.claimPrizesByDrawResults (example_facade (wallet 1))
                nothing) initial).1 = true.
Proof.
  intros nothing w. split; [|split; [|split]].
  - destruct (claimPrizesByDrawResults_validates w (example_facade read_only)
                nothing initial) as (H & _).
    apply (H {| provider_label := "rpc" |}). reflexivity.
  - destruct (claimPrizesByDrawResults_validates w (example_facade (wallet 5))
                nothing initial) as (_ & H & _).
    apply (H {| signer_label := "0xUser"; signer_network := 5 |} "0xUser");
      [reflexivity | reflexivity | simpl; lia].
  - destruct (claimPrizesByDrawResults_validates w (example_facade (wallet 1))
                nothing initial) as (_ & _ & H & _).
    apply (H {| signer_label := "0xUser"; signer_network := 1 |} "0xUser");
      reflexivity.
  - destruct (claimPrizesByDrawResults_validates w (example_facade (wallet 1))
                nothing initial) as (_ & _ & _ & H).
    apply H. reflexivity.
Defined.

Lemma getUsersPrizes_short_circuits_on_zero_balance_witness :
  let w := example_world (2, 10) (5, 8) in
  let this := example_facade read_only in
  (run w (PrizeDistributor.getUsersPrizes this "0xNobody" (example_draw 6)) initial).1
  = Fulfilled {| DrawResults.drawId := 6; DrawResults.totalValue := 0;
                 DrawResults.prizes := [] |}
  ∧ (run w (PrizeDistributor.getUsersPrizes this "0xUser" (example_draw 6)) initial).1
    = answer w _ (Ext.calculateDrawResults example_prizeDistribution (example_draw 6)
                    {| DrawCalcUser.address := "0xUser";
                       DrawCalcUser.normalizedBalances := [250] |}).
Proof.
  intros w this. split.
  - edestruct (getUsersPrizes_short_circuits_on_zero_balance w this "0xNobody"
                 (example_draw 6) initial) as [Hzero _].
    + vm_compute. reflexivity.
    + vm_compute. reflexivity.
    + destruct (Hzero eq_refl) as [-> _]. reflexivity.
  - edestruct (getUsersPrizes_short_circuits_on_zero_balance w this "0xUser"
                 (example_draw 6) initial) as [_ Hnonzero].
    + vm_compute. reflexivity.
    + vm_compute. reflexivity.
    + rewrite Hnonzero by lia. reflexivity.
Defined.

Lemma draw_results_conversion_canonical_form_witness :
  ∃ out outs,
    DrawResultsConversion.formatDrawResultsFromLegacyDrawResults example_bigNumberish
      (<["prizes" := VArray [VObject example_prize_with_more_fields;
                             LEGACYPrize 100 3 5; PrizeAwardable 20 1 9]]>
         example_record_with_more_fields)
    = Fulfilled out
    ∧ out = {[ "drawId" := VNumber 7;
               "totalValue" := VBigNumber 100;
               "prizes" := VArray outs ]}
    ∧ dom out = ({[ "drawId"; "totalValue"; "prizes" ]} : gset string).
Proof.
  destruct (draw_results_conversion_canonical_form example_bigNumberish
              (<["prizes" := VArray [VObject example_prize_with_more_fields;
                                     LEGACYPrize 100 3 5; PrizeAwardable 20 1 9]]>
                 example_record_with_more_fields)
              [VObject example_prize_with_more_fields;
               LEGACYPrize 100 3 5; PrizeAwardable 20 1 9])
    as [(out & outs & Hrun & Hout & Hdom & _) _].
  - reflexivity.
  - constructor; [|constructor; [|constructor; [|constructor]]].
    + split.
      * right. eexists. split; [reflexivity | by eexists].
      * eexists _, 100, 5. split; [reflexivity |]. by split.
    + split.
      * right. eexists. split; [reflexivity | by eexists].
      * eexists _, 100, 5. split; [reflexivity |]. by split.
    + split.
      * left. eexists. split; [reflexivity |]. split; [done | by eexists].
      * eexists _, 20, 9. split; [reflexivity |]. by split.
  - exists out, outs. split; [exact Hrun |]. split; [exact Hout | exact Hdom].
Defined.


Lemma extended_conversion_preserves_siblings_witness :
  let record : gmap string value :=
    <["source" := VString "api"]> (DrawResults 7 100 [LEGACYPrize 100 3 5]) in
  ∃ out, ExtendedConversion.formatDrawResultsFromLegacyDrawResults record = Fulfilled out
         ∧ out !! "source" = Some (VString "api")
         ∧ out !! "drawId" = Some (VNumber 7).
Proof.
  intros record.
  destruct (extended_conversion_preserves_siblings record [LEGACYPrize 100 3 5])
    as (out & normalized & Hr & _ & _ & _ & Hframe).
  - reflexivity.
  - repeat constructor. eexists. reflexivity.
  - exists out. split; [exact Hr |]. split.
    + rewrite Hframe by discriminate. reflexivity.
    + rewrite Hframe by discriminate. reflexivity.
Defined.

Lemma extended_conversion_keeps_distributionIndex_witness :
  ∃ normalized,
    ExtendedConversion.formatDrawResultsFromLegacyDrawResults
      (DrawResults 7 100 [LEGACYPrize 100 3 5])
    = Fulfilled (<["prizes" := VArray normalized]>
                   (DrawResults 7 100 [LEGACYPrize 100 3 5]))
    ∧ length normalized = 1%nat.
Proof.
  destruct (extended_conversion_keeps_distributionIndex
              (DrawResults 7 100 [LEGACYPrize 100 3 5]) [LEGACYPrize 100 3 5])
    as (normalized & Hr & Hk).
  - reflexivity.
  - repeat constructor. eexists. split; [reflexivity |]. eexists. reflexivity.
  - exists normalized. split; [exact Hr |].
    apply Forall2_length in Hk. by rewrite <- Hk.
Defined.

Lemma initializePrizeDistributors_aborts_on_failed_batch_witness :
  ∃ reason σ',
    run (example_world (1, 3) (1, 2))
        (initializePrizeDistributors example_getContractsByType
           example_sortContractsByChainId (λ contracts _ _, contracts)
           (λ contracts _, [contracts]) example_signersOrProviders example_contracts)
        initial
    = (Rejected (new_Error reason), σ').
Proof.
  edestruct (initializePrizeDistributors_aborts_on_failed_batch
               example_getContractsByType example_sortContractsByChainId
               (λ contracts _ _, contracts) (λ contracts _, [contracts])
               example_signersOrProviders (example_world (1, 3) (1, 2))
               example_contracts initial 137)
    as (reason & σ' & Hrun & _).
  - vm_compute. reflexivity.
  - reflexivity.
  - exists reason, σ'. exact Hrun.
Defined.

Lemma handle_cache_reused_once_set_witness :
  let w := example_world (2, 10) (5, 8) in
  let this := example_facade read_only in
  let σ1 := (run w (PrizeDistributor.getDrawBufferContract this) initial).2 in
  run w (PrizeDistributor.getDrawBufferContract this) σ1
  = (Fulfilled {| contract_address := "0xDrawBuffer" |}, σ1)
  ∧ (writes "drawBufferContract"
       (run w (one_after_another
                 [PrizeDistributor.getDrawBufferContract this;
                  PrizeDistributor.getPrizeDistributionsBufferContract this;
                  PrizeDistributor.getDrawBufferContract this]) initial).2
     ≤ 1)%nat.
Proof.
  intros w this σ1.
  destruct (handle_cache_reused_once_set w this) as (Hhit & _ & _ & Hseq).
  split.
  - apply Hhit. vm_compute. reflexivity.
  - apply (Hseq _ "drawBufferContract").
    constructor; [by left |]. constructor; [by right |].
    constructor; [by left | constructor].
Defined.

(** * Further properties *)

(** ** Concurrent reads *)

Section Interference.
Variable w : World.

Lemma oblivious_run {A} (t : Async A) σ σ' :
  oblivious t → (run w t σ).1 = (run w t σ').1.
Proof.
  intros H. revert σ σ'. induction H; intros σ σ'; simpl; auto.
Qed.

Lemma reads_first_run {A} (t : Async A) σ σ' :
  reads_first t → contracts σ = contracts σ' → (run w t σ).1 = (run w t σ').1.
Proof.
  intros H. revert σ σ'.
  induction H as [a|key k _ IH|R op k _ IH|R op k _ IH|k Hk]; intros σ σ' Hc; simpl.
  - done.
  - rewrite Hc. by apply IH.
  - by apply IH.
  - by apply IH.
  - by apply oblivious_run.
Qed.

Lemma oblivious_bind {A B} (t : Async A) (f : A → Async B) :
  oblivious t → (∀ a, oblivious (f a)) → oblivious (bind t f).
Proof. intros Ht Hf. induction Ht; simpl; try constructor; auto. Qed.

Lemma oblivious_map_async {A B} (f : A → B) t : oblivious t → oblivious (map_async f t).
Proof. intros. apply oblivious_bind; [done | constructor]. Qed.

Lemma reads_first_map_async {A B} (f : A → B) t :
  reads_first t → reads_first (map_async f t).
Proof.
  unfold map_async. induction 1; simpl; constructor; auto.
  by apply (oblivious_map_async f).
Qed.

Lemma oblivious_par {A B} (t1 : Async A) (t2 : Async B) :
  oblivious t1 → oblivious t2 →
  oblivious (par t1 t2)
  ∧ ∀ σ, (run w (par t1 t2) σ).1 = ((run w t1 σ).1, (run w t2 σ).1).
Proof.
  intros H1. revert t2.
  induction H1 as [a|key c k1 H1 IH|key m k1 H1 IH|R op k1 H1 IH|R op k1 H1 IH|k1 H1 IH];
    intros t2 H2; simpl.
  - split; [by apply oblivious_map_async |].
    intros σ. by rewrite run_map_async.
  - destruct (IH t2 H2) as [Ho Hr]. split; [by constructor |].
    intros σ. rewrite Hr. f_equal. by apply oblivious_run.
  - destruct (IH t2 H2) as [Ho Hr]. split; [by constructor |].
    intros σ. rewrite Hr. f_equal. by apply oblivious_run.
  - split; [constructor; intros r; by apply IH |].
    intros σ. destruct (IH (answer w _ op) t2 H2) as [_ Hr].
    rewrite Hr. f_equal. by apply oblivious_run.
  - split; [constructor; intros r; by apply IH |].
    intros σ. destruct (IH (respond w _ op) t2 H2) as [_ Hr].
    rewrite Hr. f_equal. by apply oblivious_run.
  - induction H2 as [b|key c k2 H2 IH2|key m k2 H2 IH2|R op k2 H2 IH2|R op k2 H2 IH2|k2 H2 _].
    + split; [constructor; by apply oblivious_map_async |].
      intros σ. simpl. by rewrite run_map_async.
    + destruct IH2 as [Ho Hr]. split; [by constructor |].
      intros σ. simpl in *. rewrite Hr. f_equal. by apply oblivious_run.
    + destruct IH2 as [Ho Hr]. split; [by constructor |].
      intros σ. simpl in *. rewrite Hr. f_equal. by apply oblivious_run.
    + split; [constructor; intros r; by apply IH2 |].
      intros σ. simpl. destruct (IH2 (answer w _ op)) as [_ Hr]. simpl in Hr.
      rewrite Hr. f_equal. by apply oblivious_run.
    + split; [constructor; intros r; by apply IH2 |].
      intros σ. simpl. destruct (IH2 (respond w _ op)) as [_ Hr]. simpl in Hr.
      rewrite Hr. f_equal. by apply oblivious_run.
    + destruct (IH k2 H2) as [Ho Hr]. split; [by constructor |].
      intros σ. simpl. apply Hr.
Qed.

Lemma reads_first_par {A B} (t1 : Async A) (t2 : Async B) :
  reads_first t1 → reads_first t2 →
  reads_first (par t1 t2)
  ∧ ∀ σ, (run w (par t1 t2) σ).1 = ((run w t1 σ).1, (run w t2 σ).1).
Proof.
  intros H1. revert t2.
  induction H1 as [a|key k1 H1 IH|R op k1 H1 IH|R op k1 H1 IH|k1 H1];
    intros t2 H2; simpl.
  - split; [by apply reads_first_map_async |].
    intros σ. by rewrite run_map_async.
  - split; [constructor; intros v; by apply IH |].
    intros σ. by destruct (IH (contracts σ !! key) t2 H2) as [_ ->].
  - split; [constructor; intros r; by apply IH |].
    intros σ. destruct (IH (answer w _ op) t2 H2) as [_ Hr].
    rewrite Hr. f_equal. by apply reads_first_run.
  - split; [constructor; intros r; by apply IH |].
    intros σ. destruct (IH (respond w _ op) t2 H2) as [_ Hr].
    rewrite Hr. f_equal. by apply reads_first_run.
  - induction H2 as [b|key k2 H2 IH2|R op k2 H2 IH2|R op k2 H2 IH2|k2 H2].
    + split; [constructor; by apply oblivious_map_async |].
      intros σ. simpl. by rewrite run_map_async.
    + split; [constructor; intros v; by apply IH2 |].
      intros σ. simpl. destruct (IH2 (contracts σ !! key)) as [_ Hr]. apply Hr.
    + split; [constructor; intros r; by apply IH2 |].
      intros σ. simpl. destruct (IH2 (answer w _ op)) as [_ Hr]. simpl in Hr.
      rewrite Hr. f_equal. by apply oblivious_run.
    + split; [constructor; intros r; by apply IH2 |].
      intros σ. simpl. destruct (IH2 (respond w _ op)) as [_ Hr]. simpl in Hr.
      rewrite Hr. f_equal. by apply oblivious_run.
    + destruct (oblivious_par k1 k2 H1 H2) as [Ho Hr]. split; [by constructor |].
      intros σ. simpl. apply Hr.
Qed.
End Interference.

Ltac shape_step :=
  first
    [ apply reads_first_Ret
    | apply reads_first_GetContractField; intros
    | apply reads_first_Invoke; intros
    | apply reads_first_Request; intros
    | apply reads_first_Yield
    | apply oblivious_Ret
    | apply oblivious_SetContractField
    | apply oblivious_SetMetadataField
    | apply oblivious_Invoke; intros
    | apply oblivious_Request; intros
    | apply oblivious_Yield
    | progress cbn beta iota
    | match goal with
      | |- context [match ?x with _ => _ end] => is_var x; destruct x; simpl
      end ].

Section Reads.
Import PrizeDistributor.
Variables (w : World) (this : PrizeDistributor.t).

Lemma getOldestDraw_reads_first : reads_first (getOldestDraw this).
Proof.
  unfold getOldestDraw, getDrawBufferContract, getAndSetEthersContract, await, call,
    invoke, resolve. simpl. repeat shape_step.
Qed.

Lemma getNewestDraw_reads_first : reads_first (getNewestDraw this).
Proof.
  unfold getNewestDraw, getDrawBufferContract, getAndSetEthersContract, await, call,
    invoke, resolve. simpl. repeat shape_step.
Qed.

Lemma getOldestPrizeDistribution_reads_first :
  reads_first (getOldestPrizeDistribution this).
Proof.
  unfold getOldestPrizeDistribution, getPrizeDistributionsBufferContract,
    getAndSetEthersContract, await, call, invoke, resolve. simpl. repeat shape_step.
Qed.

Lemma getNewestPrizeDistribution_reads_first :
  reads_first (getNewestPrizeDistribution this).
Proof.
  unfold getNewestPrizeDistribution, getPrizeDistributionsBufferContract,
    getAndSetEthersContract, await, call, invoke, resolve. simpl. repeat shape_step.
Qed.

Lemma valid_draw_id_reads_alone σ :
  (run w (valid_draw_id_reads this) σ).1
  = ((run w (getOldestPrizeDistribution this) σ).1,
     ((run w (getNewestPrizeDistribution this) σ).1,
      ((run w (getOldestDraw this) σ).1, (run w (getNewestDraw this) σ).1))).
Proof.
  unfold valid_draw_id_reads.
  destruct (reads_first_par w _ _ getOldestDraw_reads_first getNewestDraw_reads_first)
    as [H34 R34].
  destruct (reads_first_par w _ _ getNewestPrizeDistribution_reads_first H34)
    as [H234 R234].
  destruct (reads_first_par w _ _ getOldestPrizeDistribution_reads_first H234)
    as [_ R1234].
  by rewrite R1234, R234, R34.
Qed.
End Reads.

Section BufferRanges.
Import PrizeDistributor.
Variables (w : World) (this : PrizeDistributor.t).

Lemma run_getDrawIdsFromDrawBuffer σ :
  (run w (getDrawIdsFromDrawBuffer this) σ).1
  = match (run w (getOldestDraw this) σ).1, (run w (getNewestDraw this) σ).1 with
    | Fulfilled oldest, Fulfilled newest =>
        Fulfilled (ids_from_to (Draw.drawId oldest) (Draw.drawId newest))
    | _, _ => Fulfilled []
    end.
Proof.
  unfold getDrawIdsFromDrawBuffer. rewrite run_bind.
  destruct (reads_first_par w _ _ (getOldestDraw_reads_first this)
              (getNewestDraw_reads_first this)) as [_ Hr].
  specialize (Hr σ).
  destruct (run w (par (getOldestDraw this) (getNewestDraw this)) σ) as [[o n] σ'].
  simpl in *. injection Hr as <- <-.
  by destruct o, n.
Qed.

Lemma run_getDrawIdsFromPrizeDistributionBuffer σ :
  (run w (getDrawIdsFromPrizeDistributionBuffer this) σ).1
  = match (run w (getOldestPrizeDistribution this) σ).1,
          (run w (getNewestPrizeDistribution this) σ).1 with
    | Fulfilled oldest, Fulfilled newest => Fulfilled (ids_from_to oldest.2 newest.2)
    | _, _ => Fulfilled []
    end.
Proof.
  unfold getDrawIdsFromPrizeDistributionBuffer. rewrite run_bind.
  destruct (reads_first_par w _ _ (getOldestPrizeDistribution_reads_first this)
              (getNewestPrizeDistribution_reads_first this)) as [_ Hr].
  specialize (Hr σ).
  destruct (run w (par (getOldestPrizeDistribution this)
                       (getNewestPrizeDistribution this)) σ) as [[o n] σ'].
  simpl in *. injection Hr as <- <-.
  by destruct o, n.
Qed.

Lemma run_getValidDrawIds σ :
  (run w (getValidDrawIds this) σ).1
  = match (run w (getOldestPrizeDistribution this) σ).1,
          (run w (getNewestPrizeDistribution this) σ).1,
          (run w (getOldestDraw this) σ).1, (run w (getNewestDraw this) σ).1 with
    | Fulfilled oldestPD, Fulfilled newestPD, Fulfilled oldestDraw, Fulfilled newestDraw =>
        Fulfilled (ids_from_to (Z.max oldestPD.2 (Draw.drawId oldestDraw))
                               (Z.min (Draw.drawId newestDraw) newestPD.2))
    | _, _, _, _ => Fulfilled []
    end.
Proof.
  unfold getValidDrawIds. rewrite run_bind.
  pose proof (valid_draw_id_reads_alone w this σ) as Hr.
  destruct (run w (valid_draw_id_reads this) σ) as [[a [b [c d]]] σ'].
  simpl in *. injection Hr as <- <- <- <-.
  destruct a as [a|], b as [b|], c as [c|], d as [d|]; simpl; try done.
  destruct (Z.ltb_spec (Z.min (Draw.drawId d) b.2) (Z.max a.2 (Draw.drawId c)));
    simpl; [|done].
  rewrite ids_from_to_seqZ, seqZ_nil by lia. done.
Qed.
End BufferRanges.

(** X1.  The reads that [getValidDrawIds], [getDrawIdsFromDrawBuffer] and
    [getDrawIdsFromPrizeDistributionBuffer] hand to [Promise.allSettled]
    settle, when they run concurrently, exactly as each of them settles
    when it runs alone from the same state of the facade: the concurrent
    handle lookups do not change what a read returns. *)
Theorem concurrent_reads_settle_as_alone :
  ∀ (w : World) (this : PrizeDistributor.t) (σ : State),
    (run w (PrizeDistributor.valid_draw_id_reads this) σ).1
    = ((run w (PrizeDistributor.getOldestPrizeDistribution this) σ).1,
       ((run w (PrizeDistributor.getNewestPrizeDistribution this) σ).1,
        ((run w (PrizeDistributor.getOldestDraw this) σ).1,
         (run w (PrizeDistributor.getNewestDraw this) σ).1)))
    ∧ (run w (par (PrizeDistributor.getOldestDraw this)
                  (PrizeDistributor.getNewestDraw this)) σ).1
      = ((run w (PrizeDistributor.getOldestDraw this) σ).1,
         (run w (PrizeDistributor.getNewestDraw this) σ).1)
    ∧ (run w (par (PrizeDistributor.getOldestPrizeDistribution this)
                  (PrizeDistributor.getNewestPrizeDistribution this)) σ).1
      = ((run w (PrizeDistributor.getOldestPrizeDistribution this) σ).1,
         (run w (PrizeDistributor.getNewestPrizeDistribution this) σ).1).
Proof.
  intros w this σ. split; [apply valid_draw_id_reads_alone |]. split.
  - apply reads_first_par;
      [apply getOldestDraw_reads_first | apply getNewestDraw_reads_first].
  - apply reads_first_par;
      [apply getOldestPrizeDistribution_reads_first
      | apply getNewestPrizeDistribution_reads_first].
Qed.

(** X2.  [getDrawIdsFromDrawBuffer] and
    [getDrawIdsFromPrizeDistributionBuffer] are always fulfilled: with
    [[]] when the read of the oldest or of the newest record is rejected,
    and otherwise with the ids from the oldest to the newest record of the
    buffer, in ascending order (with [[]] when the newest id is below the
    oldest). *)
Theorem buffer_draw_ids_range :
  ∀ (w : World) (this : PrizeDistributor.t) (σ : State),
    (∃ ids,
       (run w (PrizeDistributor.getDrawIdsFromDrawBuffer this) σ).1 = Fulfilled ids
       ∧ match (run w (PrizeDistributor.getOldestDraw this) σ).1,
               (run w (PrizeDistributor.getNewestDraw this) σ).1 with
         | Fulfilled oldest, Fulfilled newest =>
             ids = seqZ (Draw.drawId oldest)
                        (Draw.drawId newest - Draw.drawId oldest + 1)
             ∧ ∀ id, id ∈ ids ↔ Draw.drawId oldest ≤ id ≤ Draw.drawId newest
         | _, _ => ids = []
         end)
    ∧ (∃ ids,
         (run w (PrizeDistributor.getDrawIdsFromPrizeDistributionBuffer this) σ).1
         = Fulfilled ids
         ∧ match (run w (PrizeDistributor.getOldestPrizeDistribution this) σ).1,
                 (run w (PrizeDistributor.getNewestPrizeDistribution this) σ).1 with
           | Fulfilled oldest, Fulfilled newest =>
               ids = seqZ oldest.2 (newest.2 - oldest.2 + 1)
               ∧ ∀ id, id ∈ ids ↔ oldest.2 ≤ id ≤ newest.2
           | _, _ => ids = []
           end).
Proof.
  intros w this σ. split.
  - rewrite run_getDrawIdsFromDrawBuffer.
    destruct (run w (PrizeDistributor.getOldestDraw this) σ).1 as [o|];
      [|by exists []].
    destruct (run w (PrizeDistributor.getNewestDraw this) σ).1 as [n|];
      [|by exists []].
    eexists. split; [reflexivity |]. rewrite ids_from_to_seqZ. split; [done |].
    intros id. rewrite elem_of_seqZ. lia.
  - rewrite run_getDrawIdsFromPrizeDistributionBuffer.
    destruct (run w (PrizeDistributor.getOldestPrizeDistribution this) σ).1 as [o|];
      [|by exists []].
    destruct (run w (PrizeDistributor.getNewestPrizeDistribution this) σ).1 as [n|];
      [|by exists []].
    eexists. split; [reflexivity |]. rewrite ids_from_to_seqZ. split; [done |].
    intros id. rewrite elem_of_seqZ. lia.
Qed.

(** X3.  An id is among the valid draw ids exactly when it is among the
    ids of the draw buffer and among the ids of the prize-distribution
    buffer. *)
Theorem valid_draw_ids_are_the_ids_in_both_buffers :
  ∀ (w : World) (this : PrizeDistributor.t) (σ : State),
    ∃ valid inDrawBuffer inPrizeDistributionBuffer,
      (run w (PrizeDistributor.getValidDrawIds this) σ).1 = Fulfilled valid
      ∧ (run w (PrizeDistributor.getDrawIdsFromDrawBuffer this) σ).1
        = Fulfilled inDrawBuffer
      ∧ (run w (PrizeDistributor.getDrawIdsFromPrizeDistributionBuffer this) σ).1
        = Fulfilled inPrizeDistributionBuffer
      ∧ ∀ id, id ∈ valid ↔ id ∈ inDrawBuffer ∧ id ∈ inPrizeDistributionBuffer.
Proof.
  intros w this σ.
  rewrite run_getValidDrawIds, run_getDrawIdsFromDrawBuffer,
    run_getDrawIdsFromPrizeDistributionBuffer.
  destruct (run w (PrizeDistributor.getOldestPrizeDistribution this) σ).1 as [oPD|],
    (run w (PrizeDistributor.getNewestPrizeDistribution this) σ).1 as [nPD|],
    (run w (PrizeDistributor.getOldestDraw this) σ).1 as [oD|],
    (run w (PrizeDistributor.getNewestDraw this) σ).1 as [nD|];
    do 3 eexists; (split; [reflexivity |]); (split; [reflexivity |]);
    (split; [reflexivity |]); intros id;
    rewrite ?ids_from_to_seqZ, ?elem_of_seqZ, ?elem_of_nil; lia.
Qed.

(** ** Resolving a handle *)

Section Resolution.
Import PrizeDistributor.
Variables (w : World) (this : PrizeDistributor.t).

Lemma getAndSetEthersContract_outcome key type (op : Net.t string) σ :
  let outcome := run w (getAndSetEthersContract this key type (call op)) σ in
  match outcome.1 with
  | Fulfilled c =>
      contracts outcome.2 !! (key +:+ "Contract") = Some c
      ∧ (contracts σ !! (key +:+ "Contract") = None →
         ∃ a m,
           respond w _ op = Fulfilled a
           ∧ answer w _ (Ext.getMetadataAndContract (signerOrProvider this) type
                           (contractMetadataList this) (Some a))
             = Fulfilled (m, c)
           ∧ metadata outcome.2 !! key = Some m)
  | Rejected e =>
      contracts outcome.2 = contracts σ ∧ metadata outcome.2 = metadata σ
  end.
Proof.
  unfold getAndSetEthersContract. simpl.
  destruct (contracts σ !! (key +:+ "Contract")) as [c|] eqn:Hc; simpl.
  { split; [done | intros [=]]. }
  destruct (respond w _ op) as [a|e]; simpl; [|done].
  destruct (answer w _ _) as [[m c]|e] eqn:Ha; simpl; [|done].
  split; [apply lookup_insert_eq |]. intros _. exists a, m.
  split; [done |]. split; [done |]. apply lookup_insert_eq.
Qed.

Lemma getAndSetEthersContract_again key type (op : Net.t string) σ c σ1 :
  run w (getAndSetEthersContract this key type (call op)) σ = (Fulfilled c, σ1) →
  run w (getAndSetEthersContract this key type (call op)) σ1 = (Fulfilled c, σ1).
Proof.
  intros Hrun. apply getAndSetEthersContract_cached.
  pose proof (getAndSetEthersContract_outcome key type op σ) as H.
  cbv zeta in H. rewrite Hrun in H. simpl in H. by destruct H.
Qed.

Lemma getAndSetEthersContract_failed key type (op : Net.t string) σ e σ1 :
  run w (getAndSetEthersContract this key type (call op)) σ = (Rejected e, σ1) →
  contracts σ1 = contracts σ ∧ metadata σ1 = metadata σ.
Proof.
  intros Hrun.
  pose proof (getAndSetEthersContract_outcome key type op σ) as H.
  cbv zeta in H. by rewrite Hrun in H.
Qed.
End Resolution.

(** X4.  When [getDrawBufferContract] (or
    [getPrizeDistributionsBufferContract]) is fulfilled, the handle it
    returns is the one the handle field holds afterwards, and calling the
    getter again returns the same handle and leaves the facade and its
    trace as they are. *)
Theorem handle_getters_cache_what_they_return :
  ∀ (w : World) (this : PrizeDistributor.t) (σ σ1 : State) (c : Contract),
    (run w (PrizeDistributor.getDrawBufferContract this) σ = (Fulfilled c, σ1) →
     contracts σ1 !! "drawBufferContract" = Some c
     ∧ run w (PrizeDistributor.getDrawBufferContract this) σ1 = (Fulfilled c, σ1))
    ∧ (run w (PrizeDistributor.getPrizeDistributionsBufferContract this) σ
       = (Fulfilled c, σ1) →
       contracts σ1 !! "prizeDistributionsBufferContract" = Some c
       ∧ run w (PrizeDistributor.getPrizeDistributionsBufferContract this) σ1
         = (Fulfilled c, σ1)).
Proof.
  intros w this σ σ1 c. split; intros Hrun.
  - split; [|by apply (getAndSetEthersContract_again w this _ _ _ σ)].
    pose proof (getAndSetEthersContract_outcome w this "drawBuffer"
                  ContractType.DrawBuffer
                  (Net.getDrawBuffer (PrizeDistributor.drawCalculatorContract this)) σ)
      as H.
    unfold PrizeDistributor.getDrawBufferContract in Hrun.
    cbv zeta in H. rewrite Hrun in H. by destruct H.
  - split; [|by apply (getAndSetEthersContract_again w this _ _ _ σ)].
    pose proof (getAndSetEthersContract_outcome w this "prizeDistributionsBuffer"
                  ContractType.PrizeDistributionBuffer
                  (Net.getPrizeDistributionBuffer
                     (PrizeDistributor.drawCalculatorContract this)) σ)
      as H.
    unfold PrizeDistributor.getPrizeDistributionsBufferContract in Hrun.
    cbv zeta in H. rewrite Hrun in H. by destruct H.
Qed.

(** X5.  When a handle getter is rejected, the field was unset, no field
    of the facade has changed, so that the next call tries again, and the
    error is the one of the address fetch or, once the address is known,
    the one of the registry lookup. *)
Theorem failed_handle_resolution_is_not_cached :
  ∀ (w : World) (this : PrizeDistributor.t) (σ σ1 : State) (e : Error),
    (run w (PrizeDistributor.getDrawBufferContract this) σ = (Rejected e, σ1) →
     contracts σ1 = contracts σ ∧ metadata σ1 = metadata σ
     ∧ contracts σ !! "drawBufferContract" = None
     ∧ (respond w _ (Net.getDrawBuffer (PrizeDistributor.drawCalculatorContract this))
        = Rejected e
        ∨ ∃ a, respond w _ (Net.getDrawBuffer
                              (PrizeDistributor.drawCalculatorContract this))
               = Fulfilled a
               ∧ answer w _ (Ext.getMetadataAndContract
                               (PrizeDistributor.signerOrProvider this)
                               ContractType.DrawBuffer
                               (PrizeDistributor.contractMetadataList this) (Some a))
                 = Rejected e))
    ∧ (run w (PrizeDistributor.getPrizeDistributionsBufferContract this) σ
       = (Rejected e, σ1) →
       contracts σ1 = contracts σ ∧ metadata σ1 = metadata σ
       ∧ contracts σ !! "prizeDistributionsBufferContract" = None
       ∧ (respond w _ (Net.getPrizeDistributionBuffer
                         (PrizeDistributor.drawCalculatorContract this))
          = Rejected e
          ∨ ∃ a, respond w _ (Net.getPrizeDistributionBuffer
                                (PrizeDistributor.drawCalculatorContract this))
                 = Fulfilled a
                 ∧ answer w _ (Ext.getMetadataAndContract
                                 (PrizeDistributor.signerOrProvider this)
                                 ContractType.PrizeDistributionBuffer
                                 (PrizeDistributor.contractMetadataList this) (Some a))
                   = Rejected e)).
Proof.
  intros w this σ σ1 e.
  unfold PrizeDistributor.getDrawBufferContract,
    PrizeDistributor.getPrizeDistributionsBufferContract,
    PrizeDistributor.getAndSetEthersContract.
  split; simpl.
  - destruct (contracts σ !! _) as [c|]; simpl; [intros [=] |].
    destruct (respond w _ _) as [a|e'] eqn:Hr; simpl.
    + destruct (answer w _ _) as [[m c]|e'] eqn:Ha; simpl; intros [= <- <-].
      repeat split; auto. right. eauto.
    + intros [= <- <-]. repeat split; auto.
  - destruct (contracts σ !! _) as [c|]; simpl; [intros [=] |].
    destruct (respond w _ _) as [a|e'] eqn:Hr; simpl.
    + destruct (answer w _ _) as [[m c]|e'] eqn:Ha; simpl; intros [= <- <-].
      repeat split; auto. right. eauto.
    + intros [= <- <-]. repeat split; auto.
Qed.

(** ** Metadata and handle are written together *)

Lemma writes_in_pairs_bind {A B} (t : Async A) (f : A → Async B) :
  writes_in_pairs t → (∀ a, writes_in_pairs (f a)) → writes_in_pairs (bind t f).
Proof. intros Ht Hf. induction Ht; simpl; try constructor; auto. Qed.

Lemma writes_in_pairs_map_async {A B} (f : A → B) t :
  writes_in_pairs t → writes_in_pairs (map_async f t).
Proof. intros. apply writes_in_pairs_bind; [done | constructor]. Qed.

Lemma writes_in_pairs_await {A B} (p : Promise A) (k : A → Promise B) :
  writes_in_pairs p → (∀ a, writes_in_pairs (k a)) → writes_in_pairs (await p k).
Proof.
  intros Hp Hk. apply writes_in_pairs_bind; [done |]. intros [a|e]; [auto | constructor].
Qed.

Lemma writes_in_pairs_par {A B} (t1 : Async A) (t2 : Async B) :
  writes_in_pairs t1 → writes_in_pairs t2 → writes_in_pairs (par t1 t2).
Proof.
  intros H1. revert t2.
  induction H1 as [a|key k _ IH|key m c k Hkey _ IH|R op k _ IH|R op k _ IH|k1 H1 IH];
    intros t2 H2; simpl; try (constructor; auto; fail).
  - by apply writes_in_pairs_map_async.
  - induction H2; try (constructor; auto; fail).
    constructor. by apply writes_in_pairs_map_async.
Qed.

Lemma writes_in_pairs_run {A} w (t : Async A) σ :
  writes_in_pairs t → handles_have_metadata σ → handles_have_metadata (run w t σ).2.
Proof.
  intros H. revert σ.
  induction H as [a|key k _ IH|key m c k Hkey _ IH|R op k _ IH|R op k _ IH|k _ IH];
    intros σ Hσ; simpl; auto.
  apply IH. destruct Hσ as [Hd Hp]. unfold handles_have_metadata. simpl.
  destruct Hkey as [-> | ->]; split; intros Hc.
  - rewrite lookup_insert_eq. eauto.
  - rewrite lookup_insert_ne by done. rewrite lookup_insert_ne in Hc by done. auto.
  - rewrite lookup_insert_ne by done. rewrite lookup_insert_ne in Hc by done. auto.
  - rewrite lookup_insert_eq. eauto.
Qed.

Ltac pairs_step :=
  first
    [ apply writes_in_pairs_Ret
    | apply writes_in_pairs_Yield
    | apply writes_in_pairs_GetContractField; intros
    | apply writes_in_pairs_pair; [by auto |]
    | apply writes_in_pairs_Invoke; intros
    | apply writes_in_pairs_Request; intros
    | apply writes_in_pairs_await; [| intros]
    | apply writes_in_pairs_bind; [| intros]
    | apply writes_in_pairs_par
    | progress cbn beta iota
    | match goal with
      | |- writes_in_pairs (match ?x with _ => _ end) => destruct x
      | |- writes_in_pairs (if ?b then _ else _) => destruct b
      end ].

Section Pairs.
Import PrizeDistributor.
Variable this : PrizeDistributor.t.

Lemma getAndSetEthersContract_pairs key type (p : Promise string) :
  key = "drawBuffer" ∨ key = "prizeDistributionsBuffer" →
  writes_in_pairs p → writes_in_pairs (getAndSetEthersContract this key type p).
Proof.
  intros Hkey Hp. unfold getAndSetEthersContract. constructor. intros [c|]; [constructor |].
  apply writes_in_pairs_await; [done |]. intros a.
  apply writes_in_pairs_await; [unfold invoke; repeat pairs_step |].
  intros [m c]. constructor; [done | constructor].
Qed.

Lemma getDrawBufferContract_pairs : writes_in_pairs (getDrawBufferContract this).
Proof.
  apply getAndSetEthersContract_pairs; [by left |]. unfold call. repeat pairs_step.
Qed.

Lemma getPrizeDistributionsBufferContract_pairs :
  writes_in_pairs (getPrizeDistributionsBufferContract this).
Proof.
  apply getAndSetEthersContract_pairs; [by right |]. unfold call. repeat pairs_step.
Qed.

Ltac pairs_auto :=
  repeat first [ apply getDrawBufferContract_pairs
               | apply getPrizeDistributionsBufferContract_pairs
               | pairs_step ].

Lemma getDraws_pairs drawIds : writes_in_pairs (getDraws this drawIds).
Proof. unfold getDraws, call, resolve. destruct drawIds; pairs_auto. Qed.

Lemma getPrizeDistributions_pairs drawIds :
  writes_in_pairs (getPrizeDistributions this drawIds).
Proof. unfold getPrizeDistributions, call, resolve. destruct drawIds; pairs_auto. Qed.

Lemma getDrawsAndPrizeDistributions_pairs drawIds :
  writes_in_pairs (getDrawsAndPrizeDistributions this drawIds).
Proof.
  unfold getDrawsAndPrizeDistributions. generalize (S (length drawIds)) as fuel.
  intros fuel. revert drawIds. induction fuel as [|fuel IH]; intros drawIds; simpl.
  - constructor.
  - apply writes_in_pairs_bind.
    + apply writes_in_pairs_par; [apply getDraws_pairs | apply getPrizeDistributions_pairs].
    + intros [[draws|e] [pds|e']]; try apply IH. constructor.
Qed.

Lemma getValidDrawIds_pairs : writes_in_pairs (getValidDrawIds this).
Proof.
  unfold getValidDrawIds, valid_draw_id_reads, getOldestPrizeDistribution,
    getNewestPrizeDistribution, getOldestDraw, getNewestDraw, call, resolve.
  apply writes_in_pairs_bind; [pairs_auto |].
  intros [a [b [c d]]]. destruct a, b, d, c; pairs_auto.
Qed.

Lemma getDrawIdsFromDrawBuffer_pairs : writes_in_pairs (getDrawIdsFromDrawBuffer this).
Proof.
  unfold getDrawIdsFromDrawBuffer, getOldestDraw, getNewestDraw, call, resolve.
  apply writes_in_pairs_bind; [pairs_auto |].
  intros [a b]. destruct b, a; pairs_auto.
Qed.

Lemma getDrawIdsFromPrizeDistributionBuffer_pairs :
  writes_in_pairs (getDrawIdsFromPrizeDistributionBuffer this).
Proof.
  unfold getDrawIdsFromPrizeDistributionBuffer, getOldestPrizeDistribution,
    getNewestPrizeDistribution, call, resolve.
  apply writes_in_pairs_bind; [pairs_auto |].
  intros [a b]. destruct b, a; pairs_auto.
Qed.

Lemma getUsersPrizes_pairs usersAddress draw :
  writes_in_pairs (getUsersPrizes this usersAddress draw).
Proof.
  unfold getUsersPrizes, getPrizeDistribution, call, invoke, resolve, throw.
  pairs_auto.
Qed.

Lemma getUsersPrizesByDrawId_pairs usersAddress drawId :
  writes_in_pairs (getUsersPrizesByDrawId this usersAddress drawId).
Proof.
  unfold getUsersPrizesByDrawId, getDraw, call, resolve.
  apply writes_in_pairs_await; [pairs_auto | intros; apply getUsersPrizes_pairs].
Qed.

Lemma claimPrizesByDrawResults_pairs drawResults :
  writes_in_pairs (claimPrizesByDrawResults this drawResults).
Proof.
  unfold claimPrizesByDrawResults, getUsersAddress, validateIsSigner,
    validateSignerNetwork, validation.validateIsSigner,
    validation.validateSignerNetwork, call, invoke, resolve, throw.
  pairs_auto.
Qed.

Lemma claimPrizesByDraw_pairs draw : writes_in_pairs (claimPrizesByDraw this draw).
Proof.
  unfold claimPrizesByDraw.
  apply writes_in_pairs_await.
  - unfold getUsersAddress, validateIsSigner, validation.validateIsSigner, call,
      resolve, throw. pairs_auto.
  - intros a. apply writes_in_pairs_await; [apply getUsersPrizes_pairs |].
    intros. apply claimPrizesByDrawResults_pairs.
Qed.
End Pairs.

(** X6.  On a fresh facade no handle is set, and no method of the facade
    breaks the pairing of the lazy fields: whenever a handle field is set,
    the metadata field of the same buffer is set too. *)
Theorem facade_keeps_metadata_with_handles :
  ∀ (w : World) (this : PrizeDistributor.t),
    handles_have_metadata initial
    ∧ ∀ σ : State,
        handles_have_metadata σ →
        handles_have_metadata (run w (PrizeDistributor.getValidDrawIds this) σ).2
        ∧ handles_have_metadata
            (run w (PrizeDistributor.getDrawIdsFromDrawBuffer this) σ).2
        ∧ handles_have_metadata
            (run w (PrizeDistributor.getDrawIdsFromPrizeDistributionBuffer this) σ).2
        ∧ (∀ drawIds,
             handles_have_metadata
               (run w (PrizeDistributor.getDrawsAndPrizeDistributions this drawIds) σ).2)
        ∧ (∀ usersAddress draw,
             handles_have_metadata
               (run w (PrizeDistributor.getUsersPrizes this usersAddress draw) σ).2)
        ∧ (∀ usersAddress drawId,
             handles_have_metadata
               (run w (PrizeDistributor.getUsersPrizesByDrawId this usersAddress
                         drawId) σ).2)
        ∧ (∀ drawResults,
             handles_have_metadata
               (run w (PrizeDistributor.claimPrizesByDrawResults this drawResults) σ).2)
        ∧ (∀ draw,
             handles_have_metadata
               (run w (PrizeDistributor.claimPrizesByDraw this draw) σ).2).
Proof.
  intros w this. split.
  { split; intros [? H]; unfold initial in H; simpl in H;
      by rewrite lookup_empty in H. }
  intros σ Hσ.
  split; [apply writes_in_pairs_run; [apply getValidDrawIds_pairs | done] |].
  split; [apply writes_in_pairs_run; [apply getDrawIdsFromDrawBuffer_pairs | done] |].
  split; [apply writes_in_pairs_run;
          [apply getDrawIdsFromPrizeDistributionBuffer_pairs | done] |].
  split; [intros; apply writes_in_pairs_run;
          [apply getDrawsAndPrizeDistributions_pairs | done] |].
  split; [intros; apply writes_in_pairs_run; [apply getUsersPrizes_pairs | done] |].
  split; [intros; apply writes_in_pairs_run;
          [apply getUsersPrizesByDrawId_pairs | done] |].
  split; [intros; apply writes_in_pairs_run;
          [apply claimPrizesByDrawResults_pairs | done] |].
  intros; apply writes_in_pairs_run; [apply claimPrizesByDraw_pairs | done].
Qed.

(** ** The sequence of retries *)

Lemma StronglySorted_take {A} (R : relation A) (l : list A) n :
  StronglySorted R l → StronglySorted R (take n l).
Proof.
  intros H. rewrite <- (take_drop n l) in H. by apply StronglySorted_app_1_l in H.
Qed.

Lemma merge_sort_sorted (l : list Z) :
  StronglySorted Z.le l → merge_sort Z.le l = l.
Proof.
  intros H. apply (StronglySorted_unique Z.le); [|done|].
  - apply (StronglySorted_merge_sort Z.le).
  - apply merge_sort_Permutation.
Qed.

Lemma drop_largest_iter drawIds k :
  Nat.iter (S k) drop_largest drawIds
  = take (length drawIds - S k) (merge_sort Z.le drawIds).
Proof.
  induction k as [|k IH].
  - reflexivity.
  - change (Nat.iter (S (S k)) drop_largest drawIds)
      with (drop_largest (Nat.iter (S k) drop_largest drawIds)).
    rewrite IH. unfold drop_largest.
    rewrite (merge_sort_sorted (take _ _))
      by apply StronglySorted_take, (StronglySorted_merge_sort Z.le).
    rewrite take_take, length_take.
    rewrite (Permutation_length (merge_sort_Permutation Z.le drawIds)).
    f_equal. lia.
Qed.

Lemma retries_to_iter w this drawIds σ drawIds' σ' :
  retries_to w this drawIds σ drawIds' σ' →
  ∃ k, drawIds' = Nat.iter k drop_largest drawIds
       ∧ (k = 0%nat → σ' = σ)
       ∧ (k ≠ 0%nat →
          drawIds ≠ []
          ∧ let responses :=
              (run w (par (PrizeDistributor.getDraws this drawIds)
                          (PrizeDistributor.getPrizeDistributions this drawIds)) σ).1 in
            is_rejected responses.1 || is_rejected responses.2 = true).
Proof.
  induction 1 as [drawIds σ|drawIds σ responses σ1 drawIds' σ' Hrun Hrej _ (k & -> & _)].
  - by exists 0%nat.
  - exists (S k). split; [|split; [done |]].
    + clear. revert drawIds. induction k as [|k IH]; intros drawIds; [done |].
      simpl in *. by rewrite IH.
    + intros _. split.
      * intros ->. simpl in Hrun. injection Hrun as <- _. done.
      * cbv zeta. by rewrite Hrun.
Qed.

(** X7.  A later attempt of [getDrawsAndPrizeDistributions] is made only
    after the first one was rejected, and it asks for fewer ids than the
    first: for a proper prefix of the requested ids in ascending order.
    The ids it keeps are sorted, the ids it has dropped are the largest
    ones, and together they are the ids of the first attempt.  Only the
    first attempt itself asks for the requested ids as they were given. *)
Theorem retries_ask_for_the_smallest_ids :
  ∀ (w : World) (this : PrizeDistributor.t) (drawIds drawIds' : list Z) (σ σ' : State),
    retries_to w this drawIds σ drawIds' σ' →
    (drawIds' = drawIds ∧ σ' = σ)
    ∨ ((length drawIds' < length drawIds)%nat
       ∧ (let responses :=
            (run w (par (PrizeDistributor.getDraws this drawIds)
                        (PrizeDistributor.getPrizeDistributions this drawIds)) σ).1 in
          is_rejected responses.1 || is_rejected responses.2 = true)
       ∧ drawIds' = take (length drawIds') (merge_sort Z.le drawIds)
       ∧ StronglySorted Z.le drawIds'
       ∧ drawIds ≡ₚ drawIds' ++ drop (length drawIds') (merge_sort Z.le drawIds)
       ∧ ∀ id dropped,
           id ∈ drawIds' →
           dropped ∈ drop (length drawIds') (merge_sort Z.le drawIds) →
           id ≤ dropped).
Proof.
  intros w this drawIds drawIds' σ σ' H.
  apply retries_to_iter in H as (k & -> & Hsame & Hlater).
  destruct k as [|k]; [left; split; [done | by apply Hsame] |]. right.
  destruct Hlater as [Hne Hrejected]; [done |].
  pose proof (StronglySorted_merge_sort Z.le drawIds) as Hsorted.
  pose proof (Permutation_length (merge_sort_Permutation Z.le drawIds)) as Hlength.
  rewrite drop_largest_iter.
  assert (length (take (length drawIds - S k) (merge_sort Z.le drawIds))
          = (length drawIds - S k)%nat) as Hkept.
  { rewrite length_take. lia. }
  rewrite Hkept.
  split; [destruct drawIds; [done | simpl; lia] |].
  split; [exact Hrejected |].
  split; [done |].
  split; [by apply StronglySorted_take |].
  split; [by rewrite take_drop, merge_sort_Permutation |].
  intros id dropped Hid Hdropped.
  rewrite <- (take_drop (length drawIds - S k) (merge_sort Z.le drawIds)) in Hsorted.
  by eapply (StronglySorted_app_1_elem_of Z.le).
Qed.

(** ** Claim transactions *)

Section ClaimEvents.
Import PrizeDistributor.
Variable this : PrizeDistributor.t.

Lemma getAndSetEthersContract_no_claim key type (p : Promise string) :
  emits (claim_sent_as (prizeDistributorsContract this) 400000) p → emits (claim_sent_as (prizeDistributorsContract this) 400000) (getAndSetEthersContract this key type p).
Proof.
  intros Hp. unfold getAndSetEthersContract.
  constructor. intros [c|]; [constructor |].
  apply emits_await; [done |]. intros a.
  apply emits_await.
  - constructor; [done | intros; constructor].
  - intros [m c]. constructor; [done |]. constructor; [done | constructor].
Qed.

Lemma getUsersPrizes_claim_events usersAddress draw :
  emits (claim_sent_as (prizeDistributorsContract this) 400000) (getUsersPrizes this usersAddress draw).
Proof.
  unfold getUsersPrizes, getPrizeDistribution, getPrizeDistributionsBufferContract.
  apply emits_await.
  - apply emits_await.
    + apply getAndSetEthersContract_no_claim. unfold call.
      constructor; [done | intros; repeat constructor].
    + intros c. unfold call, await, resolve. simpl.
      constructor; [done |]. intros [pd|e]; repeat constructor.
  - intros pd. apply emits_await.
    + unfold call. constructor; [done | intros; repeat constructor].
    + intros balances. destruct (balances !! 0%nat) as [b|]; [|constructor].
      cbv zeta. destruct (b =? 0); [constructor |].
      unfold invoke. constructor; [done | intros; constructor].
Qed.

Lemma getUsersAddress_claim_events errorPrefix :
  emits (claim_sent_as (prizeDistributorsContract this) 400000) (getUsersAddress this errorPrefix).
Proof.
  unfold getUsersAddress, validateIsSigner, validation.validateIsSigner.
  apply emits_await.
  - destruct (signerOrProvider this); constructor.
  - intros signer. unfold call. constructor; [done | intros; repeat constructor].
Qed.

Lemma claimPrizesByDrawResults_claim_events drawResults :
  emits (claim_sent_as (prizeDistributorsContract this) 400000) (claimPrizesByDrawResults this drawResults).
Proof.
  unfold claimPrizesByDrawResults.
  apply emits_await; [apply getUsersAddress_claim_events |]. intros usersAddress.
  apply emits_await.
  - unfold validateSignerNetwork, validation.validateSignerNetwork.
    destruct (signerOrProvider this); [constructor |].
    case_bool_decide; constructor.
  - intros _. destruct (DrawResults.totalValue drawResults =? 0); [constructor |].
    cbv zeta. apply emits_await.
    + unfold invoke. constructor; [done | intros; constructor].
    + intros claim. unfold call. constructor; [by split |].
      intros; repeat constructor.
Qed.

Lemma claimPrizesByDraw_claim_events draw : emits (claim_sent_as (prizeDistributorsContract this) 400000) (claimPrizesByDraw this draw).
Proof.
  unfold claimPrizesByDraw.
  apply emits_await; [apply getUsersAddress_claim_events |]. intros usersAddress.
  apply emits_await; [apply getUsersPrizes_claim_events |]. intros drawResults.
  apply claimPrizesByDrawResults_claim_events.
Qed.
End ClaimEvents.

(** X8.  Whatever the chain answers, every claim transaction that
    [claimPrizesByDrawResults] or [claimPrizesByDraw] sends goes to the
    facade's prize distributor contract with a gas limit of 400000. *)
Theorem claims_go_to_the_distributor_with_fixed_gas :
  ∀ (w : World) (this : PrizeDistributor.t) (σ : State),
    (∀ drawResults,
       extends_with
         (claim_sent_as (PrizeDistributor.prizeDistributorsContract this) 400000)
         σ (run w (PrizeDistributor.claimPrizesByDrawResults this drawResults) σ).2)
    ∧ (∀ draw,
         extends_with
           (claim_sent_as (PrizeDistributor.prizeDistributorsContract this) 400000)
           σ (run w (PrizeDistributor.claimPrizesByDraw this draw) σ).2).
Proof.
  intros w this σ. split; intros.
  - apply emits_run, claimPrizesByDrawResults_claim_events.
  - apply emits_run, claimPrizesByDraw_claim_events.
Qed.

(** X9.  With a signer on the facade's network and a total value that is
    not zero, [claimPrizesByDrawResults] asks for the signer's address,
    prepares the claim for that address and the given draw results alone,
    and sends one claim transaction with the prepared fields; its result
    is the transaction's.  If the preparation throws, nothing is sent. *)
Theorem claimPrizesByDrawResults_submits_the_prepared_claim :
  ∀ (w : World) (this : PrizeDistributor.t) (drawResults : DrawResults.t) (σ : State)
    (signer : Signer) (usersAddress : string),
    PrizeDistributor.signerOrProvider this = IsSigner signer →
    respond w _ (Net.getAddress signer) = Fulfilled usersAddress →
    signer_network signer = PrizeDistributor.chainId this →
    DrawResults.totalValue drawResults ≠ 0 →
    let preparation := Ext.prepareClaims usersAddress [drawResults] in
    let σ1 := log (ev_invoke preparation) (log (ev_request (Net.getAddress signer)) σ) in
    match answer w _ preparation with
    | Fulfilled claim =>
        let submission :=
          Net.claim (PrizeDistributor.prizeDistributorsContract this)
            (Claim.userAddress claim) (Claim.drawIds claim)
            (Claim.encodedWinningPickIndices claim) 400000 in
        run w (PrizeDistributor.claimPrizesByDrawResults this drawResults) σ
        = (respond w _ submission, log (ev_request submission) σ1)
    | Rejected e =>
        run w (PrizeDistributor.claimPrizesByDrawResults this drawResults) σ
        = (Rejected e, σ1)
    end.
Proof.
  intros w this drawResults σ signer usersAddress Hs Ha Hn Hv preparation σ1.
  subst preparation σ1.
  unfold PrizeDistributor.claimPrizesByDrawResults, PrizeDistributor.getUsersAddress,
    PrizeDistributor.validateIsSigner, PrizeDistributor.validateSignerNetwork,
    validation.validateIsSigner, validation.validateSignerNetwork.
  rewrite Hs. simpl. rewrite Ha. simpl.
  rewrite bool_decide_eq_true_2 by done. simpl.
  destruct (Z.eqb_spec (DrawResults.totalValue drawResults) 0) as [|_]; [done |].
  simpl. destruct (answer w _ _) as [claim|e]; reflexivity.
Qed.

(** ** Prizes of a user: every outcome *)

Lemma run_getUsersPrizes :
  ∀ (w : World) (this : PrizeDistributor.t) (usersAddress : string) (draw : Draw.t)
    (σ : State),
    let fetched := run w (PrizeDistributor.getPrizeDistribution this (Draw.drawId draw)) σ in
    let balances :=
      Net.getNormalizedBalancesForDrawIds (PrizeDistributor.drawCalculatorContract this)
        usersAddress [Draw.drawId draw] in
    let asked := log (ev_request balances) fetched.2 in
    let outcome := run w (PrizeDistributor.getUsersPrizes this usersAddress draw) σ in
    match fetched.1 with
    | Rejected e => outcome = (Rejected e, fetched.2)
    | Fulfilled prizeDistribution =>
        match respond w _ balances with
        | Rejected e => outcome = (Rejected e, asked)
        | Fulfilled [] =>
            outcome
            = (Rejected (mkError TypeError "normalizedBalance is undefined"), asked)
        | Fulfilled (normalizedBalance :: _) =>
            if bool_decide (normalizedBalance = 0)
            then outcome
                 = (Fulfilled {| DrawResults.drawId := Draw.drawId draw;
                                 DrawResults.totalValue := 0;
                                 DrawResults.prizes := [] |}, asked)
            else
              let calculation :=
                Ext.calculateDrawResults prizeDistribution draw
                  {| DrawCalcUser.address := usersAddress;
                     DrawCalcUser.normalizedBalances := [normalizedBalance] |} in
              outcome = (answer w _ calculation, log (ev_invoke calculation) asked)
        end
    end.
Proof.
  intros w this usersAddress draw σ fetched balances asked outcome.
  subst outcome asked. unfold PrizeDistributor.getUsersPrizes.
  rewrite run_await. fold fetched.
  destruct fetched.1 as [pd|e]; [|done].
  simpl. fold balances.
  destruct (respond w _ balances) as [[|b bs]|e]; simpl; try done.
  case_bool_decide as Hb.
  - subst b. reflexivity.
  - destruct (Z.eqb_spec b 0); [done | reflexivity].
Qed.

(** X10.  The outcomes of [getUsersPrizes], case by case: a rejected
    prize-distribution fetch rejects it before any balance is asked for; a
    rejected balance call rejects it; an answer without a balance is a
    [TypeError]; a zero balance gives the empty result; any other balance
    gives what the draw calculation gives, which is run once. *)
Theorem getUsersPrizes_outcomes :
  ∀ (w : World) (this : PrizeDistributor.t) (usersAddress : string) (draw : Draw.t)
    (σ : State),
    let fetched := run w (PrizeDistributor.getPrizeDistribution this (Draw.drawId draw)) σ in
    let balances :=
      Net.getNormalizedBalancesForDrawIds (PrizeDistributor.drawCalculatorContract this)
        usersAddress [Draw.drawId draw] in
    let asked := log (ev_request balances) fetched.2 in
    let outcome := run w (PrizeDistributor.getUsersPrizes this usersAddress draw) σ in
    match fetched.1 with
    | Rejected e => outcome = (Rejected e, fetched.2)
    | Fulfilled prizeDistribution =>
        match respond w _ balances with
        | Rejected e => outcome = (Rejected e, asked)
        | Fulfilled [] =>
            outcome
            = (Rejected (mkError TypeError "normalizedBalance is undefined"), asked)
        | Fulfilled (normalizedBalance :: _) =>
            if bool_decide (normalizedBalance = 0)
            then outcome
                 = (Fulfilled {| DrawResults.drawId := Draw.drawId draw;
                                 DrawResults.totalValue := 0;
                                 DrawResults.prizes := [] |}, asked)
            else
              let calculation :=
                Ext.calculateDrawResults prizeDistribution draw
                  {| DrawCalcUser.address := usersAddress;
                     DrawCalcUser.normalizedBalances := [normalizedBalance] |} in
              outcome = (answer w _ calculation, log (ev_invoke calculation) asked)
        end
    end.
Proof. intros w this usersAddress draw σ. apply run_getUsersPrizes. Qed.

(** ** Claiming for a draw *)

(** X11.  [claimPrizesByDraw] on a read-only provider is rejected under
    the prefix of [claim] without any effect; with a signer whose balance
    for the draw is zero it is rejected as well, with "No prizes to claim."
    when the signer is on the facade's network, and neither a draw
    calculation nor a claim transaction takes place. *)
Theorem claimPrizesByDraw_needs_a_signer_and_a_balance :
  ∀ (w : World) (this : PrizeDistributor.t) (draw : Draw.t) (σ : State),
    let outcome := run w (PrizeDistributor.claimPrizesByDraw this draw) σ in
    (∀ provider,
       PrizeDistributor.signerOrProvider this = IsProvider provider →
       outcome = (Rejected (mkError SignerRequiredError
                              "PrizeDistributors [claim] | Signer required"), σ))
    ∧ (∀ signer usersAddress prizeDistribution σ2 others,
         PrizeDistributor.signerOrProvider this = IsSigner signer →
         respond w _ (Net.getAddress signer) = Fulfilled usersAddress →
         run w (PrizeDistributor.getPrizeDistribution this (Draw.drawId draw))
           (log (ev_request (Net.getAddress signer)) σ)
         = (Fulfilled prizeDistribution, σ2) →
         respond w _ (Net.getNormalizedBalancesForDrawIds
                        (PrizeDistributor.drawCalculatorContract this)
                        usersAddress [Draw.drawId draw])
         = Fulfilled (0 :: others) →
         (∃ e, outcome.1 = Rejected e
               ∧ (signer_network signer = PrizeDistributor.chainId this →
                  e = mkError NothingToClaimError
                        "PrizeDistributors [claimPrizes] | No prizes to claim.")
               ∧ (signer_network signer ≠ PrizeDistributor.chainId this →
                  kind e = NetworkMismatchError))
         ∧ extends_with (λ e, is_claim_request e = false
                              ∧ is_calculateDrawResults e = false) σ2 outcome.2).
Proof.
  intros w this draw σ outcome. subst outcome.
  unfold PrizeDistributor.claimPrizesByDraw. split.
  - intros provider Hp.
    unfold PrizeDistributor.getUsersAddress, PrizeDistributor.validateIsSigner,
      validation.validateIsSigner. rewrite Hp. reflexivity.
  - intros signer usersAddress pd σ2 others Hs Ha Hpd Hb.
    rewrite run_await.
    assert (run w (PrizeDistributor.getUsersAddress this "PrizeDistributors [claim] | ") σ
            = (Fulfilled usersAddress, log (ev_request (Net.getAddress signer)) σ))
      as ->.
    { unfold PrizeDistributor.getUsersAddress, PrizeDistributor.validateIsSigner,
        validation.validateIsSigner. rewrite Hs. simpl. by rewrite Ha. }
    cbn [fst snd]. rewrite run_await.
    pose proof (run_getUsersPrizes w this usersAddress draw
                  (log (ev_request (Net.getAddress signer)) σ)) as Hprizes.
    cbv zeta in Hprizes. rewrite Hpd in Hprizes. cbn [fst snd] in Hprizes.
    rewrite Hb in Hprizes. rewrite bool_decide_eq_true_2 in Hprizes by done.
    rewrite Hprizes. cbn [fst snd].
    unfold PrizeDistributor.claimPrizesByDrawResults, PrizeDistributor.getUsersAddress,
      PrizeDistributor.validateIsSigner, PrizeDistributor.validateSignerNetwork,
      validation.validateIsSigner, validation.validateSignerNetwork.
    rewrite Hs. simpl. rewrite Ha. simpl.
    case_bool_decide as Hn; simpl.
    + split.
      * eexists. split; [reflexivity |]. split; [done | intros; done].
      * exists [ev_request (Net.getNormalizedBalancesForDrawIds
                              (PrizeDistributor.drawCalculatorContract this)
                              usersAddress [Draw.drawId draw]);
                ev_request (Net.getAddress signer)].
        split; [simpl; by rewrite <- app_assoc | repeat constructor].
    + split.
      * eexists. split; [reflexivity |]. split; [intros; done | done].
      * exists [ev_request (Net.getNormalizedBalancesForDrawIds
                              (PrizeDistributor.drawCalculatorContract this)
                              usersAddress [Draw.drawId draw]);
                ev_request (Net.getAddress signer)].
        split; [simpl; by rewrite <- app_assoc | repeat constructor].
Qed.

(** ** Linking at start-up *)

Lemma run_par_suspended {A B} w (a : A) (t : Async B) σ :
  run w (par (Yield (Ret a)) t) σ = ((a, (run w t σ).1), (run w t σ).2).
Proof.
  revert σ. induction t as [b|key k IH|key c k IH|key m k IH|R op k IH|R op k IH|k IH];
    intros σ; try (simpl; auto; fail).
  change (run w (map_async (pair a) k) σ = ((a, (run w k σ).1), (run w k σ).2)).
  by rewrite run_map_async.
Qed.

Lemma run_par_fetchClaimableDrawAddressesByChainId {B} w chainId sp cs (t : Async B) σ :
  let asked :=
    log (ev_request (Net.batch sp (ContractMetadata.address <$> cs))) σ in
  run w (par (fetchClaimableDrawAddressesByChainId chainId sp cs) t) σ
  = ((fetch_outcome w chainId sp cs, (run w t asked).1), (run w t asked).2).
Proof.
  intros asked. unfold fetch_outcome, fetchClaimableDrawAddressesByChainId, await, call.
  set (op := Net.batch sp (ContractMetadata.address <$> cs)) in *.
  match goal with
  | |- run w (par (bind (Request op ?k) ?f) t) σ = _ =>
      change (run w (par (bind (Request op k) f) t) σ)
        with (run w (par (Yield (f (respond w _ op))) t) asked)
  end.
  destruct (respond w _ op) as [result|e]; apply run_par_suspended.
Qed.

Lemma run_allSettled_fetches w (sp : Z → SignerOrProvider)
    (byChainId : ByChainId.t (list ContractMetadata.t)) chainIds σ :
  run w (allSettled
           ((λ chainId, fetchClaimableDrawAddressesByChainId chainId (sp chainId)
                          (default [] (byChainId !! chainId))) <$> chainIds)) σ
  = ((λ chainId, fetch_outcome w chainId (sp chainId)
                   (default [] (byChainId !! chainId))) <$> chainIds,
     batches_sent σ
       ((λ chainId, ev_request (Net.batch (sp chainId)
                      (ContractMetadata.address
                         <$> default [] (byChainId !! chainId)))) <$> chainIds)).
Proof.
  revert σ. induction chainIds as [|c cs IH]; intros σ.
  - simpl. unfold batches_sent. rewrite app_nil_r. by destruct σ.
  - rewrite !fmap_cons. cbn [allSettled].
    rewrite run_map_async, run_par_fetchClaimableDrawAddressesByChainId.
    cbv zeta. rewrite IH. cbn [fst snd]. f_equal.
    unfold batches_sent, log. simpl. by rewrite <- app_assoc.
Qed.

Lemma run_trace_extends {A} w (t : Async A) σ :
  ∃ added, trace (run w t σ).2 = trace σ ++ added.
Proof.
  revert σ. induction t as [a|key k IH|key c k IH|key m k IH|R op k IH|R op k IH|k IH];
    intros σ; simpl; auto.
  - exists []. by rewrite app_nil_r.
  - destruct (IH (set_contract key c σ)) as [added ->]. simpl.
    eexists. by rewrite <- app_assoc.
  - destruct (IH (set_metadata key m σ)) as [added ->]. simpl.
    eexists. by rewrite <- app_assoc.
  - destruct (IH (answer w _ op) (log (ev_invoke op) σ)) as [added ->]. simpl.
    eexists. by rewrite <- app_assoc.
  - destruct (IH (respond w _ op) (log (ev_request op) σ)) as [added ->]. simpl.
    eexists. by rewrite <- app_assoc.
Qed.

Lemma sorted_NoDup_ascending (l : list Z) :
  StronglySorted Z.le l → NoDup l → StronglySorted Z.lt l.
Proof.
  induction 1 as [|c cs Hcs IH Hle]; intros Hnodup; [constructor |].
  apply NoDup_cons in Hnodup as [Hc Hnodup].
  constructor; [by apply IH |].
  apply Forall_forall. intros c' Hc'.
  rewrite Forall_forall in Hle. specialize (Hle c' Hc').
  assert (c ≠ c') by (intros ->; done). lia.
Qed.

Lemma is_array_index_true key :
  ByChainId.is_array_index key = true ↔ 0 ≤ key ≤ 2 ^ 32 - 2.
Proof. unfold ByChainId.is_array_index. rewrite andb_true_iff. lia. Qed.

Lemma is_array_index_false key :
  ByChainId.is_array_index key = false ↔ ¬ 0 ≤ key ≤ 2 ^ 32 - 2.
Proof.
  rewrite <- is_array_index_true. by destruct (ByChainId.is_array_index key).
Qed.

Lemma chain_ids_order (byChainId : ByChainId.t (list ContractMetadata.t)) :
  ∃ indices others unrecorded,
    chain_ids byChainId = indices ++ others
    ∧ StronglySorted Z.lt indices
    ∧ Forall (λ chainId, 0 ≤ chainId ≤ 2 ^ 32 - 2) indices
    ∧ Forall (λ chainId, ¬ 0 ≤ chainId ≤ 2 ^ 32 - 2) others
    ∧ others
      = filter (λ chainId, is_Some (byChainId !! chainId)
                           ∧ ¬ 0 ≤ chainId ≤ 2 ^ 32 - 2)
          (remove_dups (ByChainId.created byChainId)) ++ unrecorded
    ∧ Forall (λ chainId, chainId ∉ ByChainId.created byChainId) unrecorded.
Proof.
  eexists _, _, _. split; [reflexivity |].
  split; [|split; [|split; [|split]]].
  - apply sorted_NoDup_ascending; [apply (StronglySorted_merge_sort Z.le) |].
    rewrite merge_sort_Permutation. apply NoDup_filter, NoDup_elements.
  - apply Forall_forall. intros key.
    rewrite merge_sort_Permutation, list_elem_of_filter, is_array_index_true. tauto.
  - apply Forall_forall. intros key.
    rewrite elem_of_app, !list_elem_of_filter, merge_sort_Permutation,
      !list_elem_of_filter, is_array_index_false. tauto.
  - f_equal. apply list_filter_iff. intros key.
    rewrite list_elem_of_filter, elem_of_elements, elem_of_dom, is_array_index_false.
    unfold lookup, ByChainId.lookup. tauto.
  - apply Forall_forall. intros key. rewrite list_elem_of_filter. tauto.
Qed.

Lemma NoDup_chain_ids (byChainId : ByChainId.t (list ContractMetadata.t)) :
  NoDup (chain_ids byChainId).
Proof.
  unfold chain_ids, ByChainId.keys.
  apply NoDup_app. split; [|split].
  - rewrite merge_sort_Permutation. apply NoDup_filter, NoDup_elements.
  - intros key. rewrite merge_sort_Permutation, elem_of_app, !list_elem_of_filter,
      merge_sort_Permutation, !list_elem_of_filter.
    destruct (ByChainId.is_array_index key); intuition discriminate.
  - apply NoDup_app. split; [|split].
    + apply NoDup_filter, NoDup_remove_dups.
    + intros key. rewrite !list_elem_of_filter, elem_of_remove_dups. tauto.
    + apply NoDup_filter. rewrite merge_sort_Permutation.
      apply NoDup_filter, NoDup_elements.
Qed.

Lemma chain_ids_of_array_indices (byChainId : ByChainId.t (list ContractMetadata.t)) :
  (∀ chainId, is_Some (byChainId !! chainId) → 0 ≤ chainId ≤ 2 ^ 32 - 2) →
  StronglySorted Z.lt (chain_ids byChainId).
Proof.
  intros Hindices.
  destruct (chain_ids_order byChainId)
    as (indices & others & unrecorded & Hids & Hsorted & _ & Hothers & _).
  assert (others = []) as ->.
  { destruct others as [|chainId others]; [done |].
    apply Forall_cons in Hothers as [Hother _]. destruct Hother.
    apply Hindices, elem_of_chain_ids. rewrite Hids.
    apply elem_of_app. right. by left. }
  by rewrite Hids, app_nil_r.
Qed.

(** X12.  [initializePrizeDistributors] starts by sending one batched
    address fetch for every chain that has a distributor, each with the
    signer or provider of its chain and the addresses of the chain's
    distributors, in the order of [Object.keys]: first the chain ids that
    are array indices in ascending order, then the other chain ids in the
    order in which the helper created their keys.  A failing fetch does
    not keep the later ones from being sent. *)
Theorem initializePrizeDistributors_asks_every_chain :
  ∀ (getContractsByType :
       list ContractMetadata.t → ContractType.t → list ContractMetadata.t)
    (sortContractsByChainId :
       list ContractMetadata.t → ByChainId.t (list ContractMetadata.t))
    (extendContractWithChildren :
       list ContractMetadata.t → gmap Z (gmap string (gmap string string)) →
       ContractType.t → list ContractMetadata.t)
    (sortContractsByContractTypeAndChildren :
       list ContractMetadata.t → ContractType.t → list (list ContractMetadata.t))
    (signersOrProviders : Z → SignerOrProvider)
    (w : World) (contracts : list ContractMetadata.t) (σ : State),
    let byChainId :=
      sortContractsByChainId
        (getContractsByType contracts ContractType.PrizeDistributor) in
    let batch_of (chainId : Z) :=
      Net.batch (signersOrProviders chainId)
        (ContractMetadata.address <$> default [] (byChainId !! chainId)) in
    NoDup (chain_ids byChainId)
    ∧ (∀ chainId, chainId ∈ chain_ids byChainId ↔ is_Some (byChainId !! chainId))
    ∧ (∃ indices others unrecorded,
         chain_ids byChainId = indices ++ others
         ∧ StronglySorted Z.lt indices
         ∧ Forall (λ chainId, 0 ≤ chainId ≤ 2 ^ 32 - 2) indices
         ∧ Forall (λ chainId, ¬ 0 ≤ chainId ≤ 2 ^ 32 - 2) others
         ∧ others
           = filter (λ chainId, is_Some (byChainId !! chainId)
                                ∧ ¬ 0 ≤ chainId ≤ 2 ^ 32 - 2)
               (remove_dups (ByChainId.created byChainId)) ++ unrecorded
         ∧ Forall (λ chainId, chainId ∉ ByChainId.created byChainId) unrecorded)
    ∧ ((∀ chainId, is_Some (byChainId !! chainId) → 0 ≤ chainId ≤ 2 ^ 32 - 2) →
       StronglySorted Z.lt (chain_ids byChainId))
    ∧ ∃ later,
        trace (run w (initializePrizeDistributors getContractsByType
                        sortContractsByChainId extendContractWithChildren
                        sortContractsByContractTypeAndChildren
                        signersOrProviders contracts) σ).2
        = trace σ ++ ((λ chainId, ev_request (batch_of chainId))
                        <$> chain_ids byChainId) ++ later.
Proof.
  intros getContractsByType sortContractsByChainId extendContractWithChildren
    sortContractsByContractTypeAndChildren signersOrProviders w contracts σ
    byChainId batch_of.
  split; [apply NoDup_chain_ids |].
  split; [intros c; apply elem_of_chain_ids |].
  split; [apply chain_ids_order |].
  split; [apply chain_ids_of_array_indices |].
  unfold initializePrizeDistributors. fold byChainId.
  rewrite run_bind, run_allSettled_fetches. cbn [fst snd].
  match goal with
  | |- ∃ later, trace (run w ?t ?σ1).2 = _ =>
      destruct (run_trace_extends w t σ1) as [later ->]
  end.
  exists later. simpl. by rewrite <- app_assoc.
Qed.

Lemma collect_addresses_fulfilled w responses acc σ addresses σ' :
  run w (collect_addresses responses acc) σ = (Fulfilled addresses, σ') →
  ∃ values, responses = Fulfilled <$> values ∧ addresses = acc ++ values ∧ σ' = σ.
Proof.
  revert acc. induction responses as [|r rs IH]; intros acc; simpl.
  - intros [= <- <-]. exists []. by rewrite app_nil_r.
  - destruct r as [v|reason]; simpl; [|done].
    intros H. destruct (IH _ H) as (values & -> & -> & ->).
    exists (v :: values). by rewrite <- app_assoc.
Qed.

Lemma lookup_addresses_by_chain {V} (g : Z → V) chainIds (acc : gmap Z V) c :
  foldl (λ acc (addressessResponse : Z * V),
           <[addressessResponse.1 := addressessResponse.2]> acc)
        acc ((λ chainId, (chainId, g chainId)) <$> chainIds) !! c
  = if decide (c ∈ chainIds) then Some (g c) else acc !! c.
Proof.
  revert acc. induction chainIds as [|c' cs IH]; intros acc.
  - destruct (decide (c ∈ [])) as [Hin|_]; [by apply elem_of_nil in Hin | done].
  - rewrite fmap_cons. cbn [foldl]. rewrite IH. cbn [fst snd].
    destruct (decide (c ∈ cs)) as [Hin|Hout].
    + rewrite decide_True; [done | by right].
    + destruct (decide (c = c')) as [->|Hne].
      * rewrite decide_True by left. by rewrite lookup_insert_eq.
      * rewrite decide_False by (intros [?|?]%elem_of_cons; done).
        by rewrite lookup_insert_ne.
Qed.

Lemma inject_contracts_inv getContractsByType contracts contractList final :
  inject_contracts getContractsByType contracts contractList = Fulfilled final →
  ∃ first added,
    head contractList = Some first
    ∧ final = contractList ++ added
    ∧ (length added ≤ 4)%nat
    ∧ Forall (λ c, ContractMetadata.chainId c = ContractMetadata.chainId first
                   ∧ ∃ type, c ∈ getContractsByType contracts type) added.
Proof.
  destruct contractList as [|first rest]; [done |].
  unfold inject_contracts. intros [= <-].
  exists first. eexists. split; [done |]. split; [reflexivity |].
  assert (∀ type,
            let found :=
              find (λ c, bool_decide (ContractMetadata.chainId c
                                      = ContractMetadata.chainId first))
                   (getContractsByType contracts type) in
            (length (option_list found) ≤ 1)%nat
            ∧ Forall (λ c, ContractMetadata.chainId c = ContractMetadata.chainId first
                           ∧ ∃ type, c ∈ getContractsByType contracts type)
                     (option_list found)) as Hfound.
  { intros type found. subst found.
    destruct (find _ _) as [c|] eqn:Hfind; simpl; [|by split; [lia | constructor]].
    apply find_some in Hfind as [Hin Hchain].
    split; [lia |]. constructor; [|constructor]. split.
    - by apply bool_decide_eq_true in Hchain.
    - exists type. by apply list_elem_of_In. }
  split.
  - rewrite !length_app.
    pose proof (Hfound ContractType.DrawBuffer) as [? _].
    pose proof (Hfound ContractType.PrizeDistributionBuffer) as [? _].
    pose proof (Hfound ContractType.Ticket) as [? _].
    pose proof (Hfound ContractType.DrawCalculatorTimelock) as [? _].
    lia.
  - rewrite !Forall_app. repeat split; apply Hfound.
Qed.

Lemma constructor_inv w signerOrProvider contractMetadataList σ prizeDistributor σ' :
  run w (PrizeDistributor.constructor signerOrProvider contractMetadataList) σ
  = (Fulfilled prizeDistributor, σ') →
  PrizeDistributor.signerOrProvider prizeDistributor = signerOrProvider
  ∧ PrizeDistributor.contractMetadataList prizeDistributor = contractMetadataList
  ∧ PrizeDistributor.chainId prizeDistributor
    = ContractMetadata.chainId
        (PrizeDistributor.prizeDistributorsMetadata prizeDistributor)
  ∧ answer w _ (Ext.getMetadataAndContract signerOrProvider
                  ContractType.PrizeDistributor contractMetadataList None)
    = Fulfilled (PrizeDistributor.prizeDistributorsMetadata prizeDistributor,
                 PrizeDistributor.prizeDistributorsContract prizeDistributor)
  ∧ answer w _ (Ext.getMetadataAndContract signerOrProvider
                  ContractType.DrawCalculator contractMetadataList None)
    = Fulfilled (PrizeDistributor.drawCalculatorMetadata prizeDistributor,
                 PrizeDistributor.drawCalculatorContract prizeDistributor).
Proof.
  unfold PrizeDistributor.constructor, await, invoke. simpl.
  destruct (answer w _ (Ext.getMetadataAndContract signerOrProvider
                          ContractType.PrizeDistributor contractMetadataList None))
    as [[m1 c1]|e1]; simpl; [|done].
  destruct (answer w _ (Ext.getMetadataAndContract signerOrProvider
                          ContractType.DrawCalculator contractMetadataList None))
    as [[m2 c2]|e2]; simpl; [|done].
  destruct (answer w _ (Ext.getMetadataAndContract signerOrProvider
                          ContractType.DrawCalculatorTimelock contractMetadataList None))
    as [[m3 c3]|e3]; simpl; [|done].
  by intros [= <- <-].
Qed.

Lemma construct_all_inv w signersOrProviders finalContractLists σ prizeDistributors σ' :
  run w (construct_all signersOrProviders finalContractLists) σ
  = (Fulfilled prizeDistributors, σ') →
  Forall2 (λ prizeDistributor contractList,
             ∃ first σ1 σ2,
               head contractList = Some first
               ∧ run w (PrizeDistributor.constructor
                          (signersOrProviders (ContractMetadata.chainId first))
                          contractList) σ1
                 = (Fulfilled prizeDistributor, σ2))
          prizeDistributors finalContractLists.
Proof.
  revert σ prizeDistributors.
  induction finalContractLists as [|contractList rest IH]; intros σ ds.
  - simpl. intros [= <- <-]. constructor.
  - destruct contractList as [|first others]; [done |].
    cbn [construct_all]. rewrite run_await.
    destruct (run w (PrizeDistributor.constructor _ _) σ) as [[d|e] σ1] eqn:Hd;
      cbn [fst snd]; [|done].
    rewrite run_await.
    destruct (run w (construct_all _ rest) σ1) as [[ds'|e] σ2] eqn:Hrest;
      cbn [fst snd]; [|done].
    intros [= <- <-]. constructor; [|by eapply IH].
    exists first, σ, σ1. split; [done | exact Hd].
Qed.

(** X13.  When [initializePrizeDistributors] returns, every batched fetch
    was fulfilled and the children addresses handed to the linking hold,
    per chain, the draw calculators that chain's fetch reported; there is
    one facade per sorted contract list, in order; its contract list is
    the sorted list followed by at most four contracts found in the
    contract list on the chain of the list's first contract; its signer or
    provider is the one of that chain; and its distributor and calculator
    are what the registry gives for its own contract list. *)
Theorem initializePrizeDistributors_links_each_facade :
  ∀ (getContractsByType :
       list ContractMetadata.t → ContractType.t → list ContractMetadata.t)
    (sortContractsByChainId :
       list ContractMetadata.t → ByChainId.t (list ContractMetadata.t))
    (extendContractWithChildren :
       list ContractMetadata.t → gmap Z (gmap string (gmap string string)) →
       ContractType.t → list ContractMetadata.t)
    (sortContractsByContractTypeAndChildren :
       list ContractMetadata.t → ContractType.t → list (list ContractMetadata.t))
    (signersOrProviders : Z → SignerOrProvider)
    (w : World) (contracts : list ContractMetadata.t) (σ : State)
    (prizeDistributors : list PrizeDistributor.t) (σ' : State),
    run w (initializePrizeDistributors getContractsByType sortContractsByChainId
             extendContractWithChildren sortContractsByContractTypeAndChildren
             signersOrProviders contracts) σ
    = (Fulfilled prizeDistributors, σ') →
    let byChainId :=
      sortContractsByChainId
        (getContractsByType contracts ContractType.PrizeDistributor) in
    ∃ prizeDistributorsAddressesByChainId,
      (∀ chainId,
         byChainId !! chainId = None →
         prizeDistributorsAddressesByChainId !! chainId = None)
      ∧ (∀ chainId distributors,
           byChainId !! chainId = Some distributors →
           ∃ result,
             respond w _ (Net.batch (signersOrProviders chainId)
                            (ContractMetadata.address <$> distributors))
             = Fulfilled result
             ∧ prizeDistributorsAddressesByChainId !! chainId
               = Some ((λ drawCalculator : string,
                          {[ "drawCalculator" := drawCalculator ]}) <$> result))
      ∧ Forall2
          (λ prizeDistributor sortedContractList,
             ∃ first added,
               head sortedContractList = Some first
               ∧ PrizeDistributor.contractMetadataList prizeDistributor
                 = sortedContractList ++ added
               ∧ (length added ≤ 4)%nat
               ∧ Forall (λ c, ContractMetadata.chainId c
                              = ContractMetadata.chainId first
                              ∧ ∃ type, c ∈ getContractsByType contracts type) added
               ∧ PrizeDistributor.signerOrProvider prizeDistributor
                 = signersOrProviders (ContractMetadata.chainId first)
               ∧ PrizeDistributor.chainId prizeDistributor
                 = ContractMetadata.chainId
                     (PrizeDistributor.prizeDistributorsMetadata prizeDistributor)
               ∧ answer w _ (Ext.getMetadataAndContract
                               (PrizeDistributor.signerOrProvider prizeDistributor)
                               ContractType.PrizeDistributor
                               (PrizeDistributor.contractMetadataList prizeDistributor)
                               None)
                 = Fulfilled
                     (PrizeDistributor.prizeDistributorsMetadata prizeDistributor,
                      PrizeDistributor.prizeDistributorsContract prizeDistributor)
               ∧ answer w _ (Ext.getMetadataAndContract
                               (PrizeDistributor.signerOrProvider prizeDistributor)
                               ContractType.DrawCalculator
                               (PrizeDistributor.contractMetadataList prizeDistributor)
                               None)
                 = Fulfilled
                     (PrizeDistributor.drawCalculatorMetadata prizeDistributor,
                      PrizeDistributor.drawCalculatorContract prizeDistributor))
          prizeDistributors
          (sortContractsByContractTypeAndChildren
             (extendContractWithChildren contracts
                prizeDistributorsAddressesByChainId ContractType.PrizeDistributor)
             ContractType.PrizeDistributor).
Proof.
  intros getContractsByType sortContractsByChainId extendContractWithChildren
    sortContractsByContractTypeAndChildren signersOrProviders w contracts σ
    prizeDistributors σ' Hrun byChainId.
  unfold initializePrizeDistributors in Hrun. fold byChainId in Hrun.
  rewrite run_bind, run_allSettled_fetches in Hrun. cbn [fst snd] in Hrun.
  rewrite run_await in Hrun.
  destruct (run w (collect_addresses _ []) _) as [[addresses|e] σ1] eqn:Hcollect;
    cbn [fst snd] in Hrun; [|done].
  apply collect_addresses_fulfilled in Hcollect as (values & Hvalues & -> & ->).
  rewrite app_nil_l in Hrun.
  set (outcome := λ chainId : Z,
         fetch_outcome w chainId (signersOrProviders chainId)
           (default [] (byChainId !! chainId))) in *.
  set (entry := λ chainId : Z,
         (λ drawCalculator : string,
            ({[ "drawCalculator" := drawCalculator ]} : gmap string string))
         <$> default ∅ (match respond w _ (Net.batch (signersOrProviders chainId)
                                (ContractMetadata.address
                                   <$> default [] (byChainId !! chainId))) with
                        | Fulfilled result => Some result
                        | Rejected _ => None
                        end)).
  assert (Forall (λ chainId, outcome chainId = Fulfilled (chainId, entry chainId))
                 (chain_ids byChainId)) as Hall.
  { apply Forall_forall. intros c Hc.
    assert (outcome c ∈ Fulfilled <$> values) as Hin.
    { rewrite <- Hvalues. apply list_elem_of_fmap. by exists c. }
    apply list_elem_of_fmap in Hin as (v & Hv & _).
    unfold outcome, fetch_outcome, entry in *.
    destruct (respond w _ _) as [result|reason]; [done | done]. }
  assert (values = (λ chainId, (chainId, entry chainId)) <$> chain_ids byChainId)
    as ->.
  { clear -Hvalues Hall. revert values Hvalues.
    induction Hall as [|c cs Hc _ IH]; intros [|v values]; try done.
    rewrite !fmap_cons. intros [= Hv Hvalues].
    rewrite Hc in Hv. injection Hv as <-. f_equal. by apply IH. }
  clear Hvalues.
  set (prizeDistributorsAddressesByChainId := foldl _ ∅ _) in Hrun.
  exists prizeDistributorsAddressesByChainId. split; [|split].
  - intros c Hc. subst prizeDistributorsAddressesByChainId.
    rewrite lookup_addresses_by_chain.
    rewrite decide_False; [apply lookup_empty |].
    rewrite elem_of_chain_ids, Hc. by intros [? ?].
  - intros c distributors Hc. subst prizeDistributorsAddressesByChainId.
    rewrite lookup_addresses_by_chain.
    assert (c ∈ chain_ids byChainId) as Hin by (apply elem_of_chain_ids; eauto).
    rewrite decide_True by done.
    rewrite Forall_forall in Hall. specialize (Hall c Hin).
    unfold outcome, fetch_outcome, entry in *. rewrite Hc in *. simpl in *.
    destruct (respond w _ _) as [result|reason]; [|done].
    by exists result.
  - rewrite run_await in Hrun. simpl in Hrun.
    destruct (map_throwing _ _) as [finalContractLists|e] eqn:Hfinal;
      simpl in Hrun; [|done].
    apply map_throwing_Forall2 in Hfinal.
    apply construct_all_inv in Hrun.
    clear -Hfinal Hrun.
    revert prizeDistributors Hrun.
    induction Hfinal as [|sortedList final sortedLists finals Hinject _ IH];
      intros ds Hds; inversion Hds as [|d ? ds' ? Hd Hds']; subst; constructor.
    + destruct Hd as (first' & σ1 & σ2 & Hhead & Hd).
      apply inject_contracts_inv in Hinject
        as (first & added & Hfirst & -> & Hlen & Hadded).
      assert (first' = first) as ->.
      { destruct sortedList; [done |]. simpl in *. congruence. }
      apply constructor_inv in Hd as (Hs & Hl & Hchain & Hpd & Hdc).
      exists first, added. rewrite Hs, Hl. repeat split; done.
    + by apply IH.
Qed.

(** ** The two conversions side by side *)

Lemma convert_prize_after_normalize_prize bn prize normalized :
  ExtendedConversion.normalize_prize prize = Fulfilled normalized →
  DrawResultsConversion.convert_prize bn normalized
  = DrawResultsConversion.convert_prize bn prize.
Proof.
  destruct prize as [| | | | |o]; try discriminate. intros [= <-].
  unfold DrawResultsConversion.convert_prize.
  rewrite tier_of_insert_tier. unfold prop.
  by rewrite !lookup_insert_ne by done.
Qed.

Lemma map_throwing_ext_Forall2 {A B} (f : A → Settled B) xs ys :
  Forall2 (λ x y, f y = f x) xs ys → map_throwing f ys = map_throwing f xs.
Proof. induction 1 as [|x y xs ys Hxy _ IH]; simpl; [done |]. by rewrite Hxy, IH. Qed.

Lemma normalize_prize_after_convert_prize bn prize out :
  DrawResultsConversion.convert_prize bn prize = Fulfilled out →
  ExtendedConversion.normalize_prize out = Fulfilled out.
Proof.
  intros H. apply convert_prize_inv in H as (o & a & p & -> & _ & _ & ->).
  unfold ExtendedConversion.normalize_prize. do 2 f_equal.
Qed.

(** X14.  The two conversions agree: the draw-results conversion gives
    the same on the result of the extended conversion as on the input
    itself, and the result of the draw-results conversion is left as it is
    by the extended conversion. *)
Theorem conversions_agree :
  ∀ (bigNumberish : value → option Z) (record out : gmap string value),
    let draw_results :=
      DrawResultsConversion.formatDrawResultsFromLegacyDrawResults bigNumberish in
    let extended := ExtendedConversion.formatDrawResultsFromLegacyDrawResults in
    (extended record = Fulfilled out → draw_results out = draw_results record)
    ∧ (draw_results record = Fulfilled out → extended out = Fulfilled out).
Proof.
  intros bn record out draw_results extended. split.
  - intros H. apply extended_inv in H as (prizes & normalized & Hp & Hn & ->).
    subst draw_results.
    unfold DrawResultsConversion.formatDrawResultsFromLegacyDrawResults.
    rewrite Hp. unfold prop at 1. rewrite lookup_insert_eq. simpl.
    assert (map_throwing (DrawResultsConversion.convert_prize bn) normalized
            = map_throwing (DrawResultsConversion.convert_prize bn) prizes) as ->.
    { apply map_throwing_ext_Forall2.
      eapply Forall2_impl; [exact Hn |]. intros p q Hq.
      by apply convert_prize_after_normalize_prize. }
    unfold prop. by rewrite !lookup_insert_ne by done.
  - subst draw_results extended.
    unfold DrawResultsConversion.formatDrawResultsFromLegacyDrawResults.
    destruct (prop record "prizes") as [| | | |prizes|]; try discriminate.
    destruct (map_throwing _ prizes) as [outs|] eqn:Hm; [|discriminate].
    simpl. intros [= <-].
    apply map_throwing_Forall2 in Hm.
    rewrite (extended_returns _ outs outs).
    + f_equal.
    + reflexivity.
    + clear -Hm. induction Hm as [|p q ps qs Hq _ IH]; constructor; [|done].
      by eapply normalize_prize_after_convert_prize.
Qed.

Lemma BigNumber_from_rejected bn v :
  is_rejected (DrawResultsConversion.BigNumber_from bn v) = true →
  DrawResultsConversion.BigNumber_from bn v
  = Rejected (mkError InvalidBigNumber "invalid BigNumber value").
Proof.
  unfold DrawResultsConversion.BigNumber_from.
  destruct v; try done; destruct (bn _); done.
Qed.

Lemma convert_prize_record_rejected bn o :
  is_rejected (DrawResultsConversion.convert_prize bn (VObject o)) = true →
  DrawResultsConversion.convert_prize bn (VObject o)
  = Rejected (mkError InvalidBigNumber "invalid BigNumber value").
Proof.
  unfold DrawResultsConversion.convert_prize.
  destruct (DrawResultsConversion.BigNumber_from bn (prop o "amount")) eqn:Ha; simpl.
  - destruct (DrawResultsConversion.BigNumber_from bn (prop o "pick")) eqn:Hp;
      simpl; [done |].
    intros _. rewrite <- Hp. apply BigNumber_from_rejected. by rewrite Hp.
  - intros _. rewrite <- Ha. apply BigNumber_from_rejected. by rewrite Ha.
Qed.

(** X15.  Whenever the draw-results conversion returns, whatever the
    input held, the result has exactly the fields [drawId], [totalValue]
    and [prizes] (a field the input lacks is [undefined]), and every prize
    has exactly [amount], [tierIndex] and [pick], with [amount] and [pick]
    the big numbers [BigNumber.from] made of the input's. *)
Theorem draw_results_conversion_keeps_three_fields :
  ∀ (bigNumberish : value → option Z) (record out : gmap string value),
    DrawResultsConversion.formatDrawResultsFromLegacyDrawResults bigNumberish record
    = Fulfilled out →
    dom out = ({[ "drawId"; "totalValue"; "prizes" ]} : gset string)
    ∧ out !! "drawId" = Some (prop record "drawId")
    ∧ out !! "totalValue" = Some (prop record "totalValue")
    ∧ ∃ prizes outs,
        prop record "prizes" = VArray prizes
        ∧ out !! "prizes" = Some (VArray outs)
        ∧ Forall2
            (λ prize converted,
               ∃ o o' amount pick,
                 prize = VObject o ∧ converted = VObject o'
                 ∧ dom o' = ({[ "amount"; "tierIndex"; "pick" ]} : gset string)
                 ∧ o' !! "amount" = Some (VBigNumber amount)
                 ∧ o' !! "tierIndex" = Some (tier_of o)
                 ∧ o' !! "pick" = Some (VBigNumber pick)
                 ∧ DrawResultsConversion.BigNumber_from bigNumberish (prop o "amount")
                   = Fulfilled (VBigNumber amount)
                 ∧ DrawResultsConversion.BigNumber_from bigNumberish (prop o "pick")
                   = Fulfilled (VBigNumber pick))
            prizes outs.
Proof.
  intros bn record out.
  unfold DrawResultsConversion.formatDrawResultsFromLegacyDrawResults.
  destruct (prop record "prizes") as [| | | |prizes|] eqn:Hprizes; try discriminate.
  destruct (map_throwing _ prizes) as [outs|] eqn:Hm; [|discriminate].
  simpl. intros [= <-].
  split; [rewrite !dom_insert_L, dom_singleton_L; set_solver |].
  split; [done |]. split; [done |].
  exists prizes, outs. split; [done |]. split; [done |].
  apply map_throwing_Forall2 in Hm.
  eapply Forall2_impl; [exact Hm |]. intros p q Hq. simpl in Hq.
  apply convert_prize_inv in Hq as (o & a & pk & -> & Ha & Hp & ->).
  eexists o, _, a, pk. split; [done |]. split; [reflexivity |].
  split; [rewrite !dom_insert_L, dom_singleton_L; set_solver |].
  done.
Qed.

(** X16.  If the prizes are records and [BigNumber.from] throws on the
    [amount] or the [pick] of one of them, the draw-results conversion
    throws that error and returns nothing, while the extended conversion,
    which does not read these fields, returns. *)
Theorem draw_results_conversion_needs_amount_and_pick :
  ∀ (bigNumberish : value → option Z) (record : gmap string value)
    (prizes : list value),
    record !! "prizes" = Some (VArray prizes) →
    Forall (λ prize, ∃ o, prize = VObject o) prizes →
    Exists (λ prize,
              ∃ o, prize = VObject o
                   ∧ (is_rejected (DrawResultsConversion.BigNumber_from bigNumberish
                                     (prop o "amount")) = true
                      ∨ is_rejected (DrawResultsConversion.BigNumber_from bigNumberish
                                       (prop o "pick")) = true)) prizes →
    DrawResultsConversion.formatDrawResultsFromLegacyDrawResults bigNumberish record
    = Rejected (mkError InvalidBigNumber "invalid BigNumber value")
    ∧ ∃ out,
        ExtendedConversion.formatDrawResultsFromLegacyDrawResults record
        = Fulfilled out.
Proof.
  intros bn record prizes Hp Hrecords Hbad. split.
  - unfold DrawResultsConversion.formatDrawResultsFromLegacyDrawResults.
    rewrite (prop_Some _ _ _ Hp).
    assert (map_throwing (DrawResultsConversion.convert_prize bn) prizes
            = Rejected (mkError InvalidBigNumber "invalid BigNumber value")) as ->;
      [|done].
    clear Hp. induction Hrecords as [|prize rest [o ->] Hrest IH].
    + by apply Exists_nil in Hbad.
    + cbn [map_throwing].
      destruct (DrawResultsConversion.convert_prize bn (VObject o)) as [q|e] eqn:Hq.
      * apply Exists_cons in Hbad as [(o' & [= <-] & Hbad)|Hbad].
        -- exfalso. unfold DrawResultsConversion.convert_prize in Hq.
           destruct (DrawResultsConversion.BigNumber_from bn (prop o "amount"))
             eqn:Hamount; simpl in Hq; [|done].
           destruct (DrawResultsConversion.BigNumber_from bn (prop o "pick"))
             eqn:Hpick; simpl in Hq; [|done].
           destruct Hbad as [Hbad|Hbad]; simpl in Hbad; done.
        -- simpl. by rewrite IH.
      * rewrite (convert_prize_record_rejected bn o) in Hq by (by rewrite Hq).
        by injection Hq as <-.
  - destruct (normalize_all_records prizes Hrecords) as [normalized Hn].
    apply map_throwing_Forall2 in Hn.
    eexists. by apply (extended_returns record prizes normalized).
Qed.

(** ** Further examples *)

Lemma handle_getters_cache_what_they_return_witness :
  let w := example_world (2, 10) (5, 8) in
  let this := example_facade read_only in
  let σ1 := (run w (PrizeDistributor.getDrawBufferContract this) initial).2 in
  contracts σ1 !! "drawBufferContract" = Some {| contract_address := "0xDrawBuffer" |}
  ∧ run w (PrizeDistributor.getDrawBufferContract this) σ1
    = (Fulfilled {| contract_address := "0xDrawBuffer" |}, σ1).
Proof.
  intros w this σ1.
  destruct (handle_getters_cache_what_they_return w this initial σ1
              {| contract_address := "0xDrawBuffer" |}) as [H _].
  apply H. vm_compute. reflexivity.
Defined.

Lemma failed_handle_resolution_is_not_cached_witness :
  let w := {| respond := λ R _, not_found; answer := example_answer |} in
  let this := example_facade read_only in
  let outcome := run w (PrizeDistributor.getDrawBufferContract this) initial in
  is_rejected outcome.1 = true
  ∧ contracts outcome.2 = contracts initial
  ∧ metadata outcome.2 = metadata initial.
Proof.
  intros w this outcome. split; [reflexivity |].
  destruct (failed_handle_resolution_is_not_cached w this initial outcome.2
              (mkError CallFailure "call revert exception")) as [H _].
  destruct H as (Hc & Hm & _); [reflexivity |]. by split.
Defined.

Lemma facade_keeps_metadata_with_handles_witness :
  handles_have_metadata
    (run (example_world (2, 10) (5, 8))
         (PrizeDistributor.getValidDrawIds (example_facade read_only)) initial).2.
Proof.
  destruct (facade_keeps_metadata_with_handles (example_world (2, 10) (5, 8))
              (example_facade read_only)) as [Hinitial Hstep].
  destruct (Hstep initial Hinitial) as [H _]. exact H.
Defined.

Lemma retries_ask_for_the_smallest_ids_witness :
  let w := example_world (1, 3) (1, 2) in
  let this := example_facade read_only in
  ∃ σ',
    retries_to w this [3; 1; 2] initial [1; 2] σ'
    ∧ (([1; 2] = [3; 1; 2] ∧ σ' = initial)
       ∨ ((length [1; 2] < length [3; 1; 2])%nat
          ∧ (let responses :=
               (run w (par (PrizeDistributor.getDraws this [3; 1; 2])
                           (PrizeDistributor.getPrizeDistributions this [3; 1; 2]))
                  initial).1 in
             is_rejected responses.1 || is_rejected responses.2 = true)
          ∧ [1; 2] = take (length [1; 2]) (merge_sort Z.le [3; 1; 2])
          ∧ StronglySorted Z.le [1; 2]
          ∧ [3; 1; 2] ≡ₚ [1; 2] ++ drop (length [1; 2]) (merge_sort Z.le [3; 1; 2])
          ∧ ∀ id dropped,
              id ∈ [1; 2] →
              dropped ∈ drop (length [1; 2]) (merge_sort Z.le [3; 1; 2]) →
              id ≤ dropped)).
Proof.
  intros w this.
  assert (retries_to w this [3; 1; 2] initial [1; 2]
            (run w (par (PrizeDistributor.getDraws this [3; 1; 2])
                        (PrizeDistributor.getPrizeDistributions this [3; 1; 2]))
               initial).2) as Hretry.
  { eapply retries_again; [reflexivity | reflexivity |]. apply retries_none. }
  eexists. split; [exact Hretry |].
  exact (retries_ask_for_the_smallest_ids w this _ _ _ _ Hretry).
Defined.

Lemma claimPrizesByDrawResults_submits_the_prepared_claim_witness :
  let w := example_world (1, 3) (1, 2) in
  let this := example_facade (wallet 1) in
  let drawResults :=
    {| DrawResults.drawId := 2; DrawResults.totalValue := 100;
       DrawResults.prizes :=
         [ {| Prize.amount := 100; Prize.tierIndex := 3; Prize.pick := 5 |} ] |} in
  (run w (PrizeDistributor.claimPrizesByDrawResults this drawResults) initial).1
  = Fulfilled {| hash := "0xTransaction" |}.
Proof.
  intros w this drawResults.
  pose proof (claimPrizesByDrawResults_submits_the_prepared_claim w this drawResults
                initial {| signer_label := "0xUser"; signer_network := 1 |} "0xUser"
                eq_refl eq_refl eq_refl) as H.
  assert (DrawResults.totalValue drawResults ≠ 0) as Hvalue by done.
  specialize (H Hvalue). cbv zeta in H.
  exact (f_equal fst H).
Defined.

Lemma claimPrizesByDraw_needs_a_signer_and_a_balance_witness :
  let w := example_world (1, 3) (1, 2) in
  let nobody := IsSigner {| signer_label := "0xNobody"; signer_network := 1 |} in
  run w (PrizeDistributor.claimPrizesByDraw (example_facade read_only)
           (example_draw 1)) initial
  = (Rejected (mkError SignerRequiredError
                 "PrizeDistributors [claim] | Signer required"), initial)
  ∧ ∃ e, (run w (PrizeDistributor.claimPrizesByDraw (example_facade nobody)
                   (example_draw 1)) initial).1 = Rejected e
         ∧ e = mkError NothingToClaimError
                 "PrizeDistributors [claimPrizes] | No prizes to claim.".
Proof.
  intros w nobody. split.
  - destruct (claimPrizesByDraw_needs_a_signer_and_a_balance w
                (example_facade read_only) (example_draw 1) initial) as [H _].
    by eapply H.
  - destruct (claimPrizesByDraw_needs_a_signer_and_a_balance w
                (example_facade nobody) (example_draw 1) initial) as [_ H].
    edestruct (H {| signer_label := "0xNobody"; signer_network := 1 |} "0xNobody")
      as [(e & He & Hkind & _) _]; [reflexivity | reflexivity | | | ].
    + vm_compute. reflexivity.
    + reflexivity.
    + exists e. split; [exact He | by apply Hkind].
Defined.

Lemma initializePrizeDistributors_links_each_facade_witness :
  ∃ prizeDistributors σ',
    run (example_world (1, 3) (1, 2))
        (initializePrizeDistributors example_getContractsByType
           example_sortContractsByChainId (λ contracts _ _, contracts)
           (λ contracts _, [contracts]) (λ _, read_only) example_contracts)
        initial
    = (Fulfilled prizeDistributors, σ')
    ∧ Forall (λ prizeDistributor,
                PrizeDistributor.signerOrProvider prizeDistributor = read_only)
             prizeDistributors.
Proof.
  eexists _, _. split; [vm_compute; reflexivity |].
  edestruct (initializePrizeDistributors_links_each_facade
               example_getContractsByType example_sortContractsByChainId
               (λ contracts _ _, contracts) (λ contracts _, [contracts])
               (λ _, read_only) (example_world (1, 3) (1, 2)) example_contracts
               initial) as (addresses & _ & _ & Hfacades);
    [vm_compute; reflexivity |].
  eapply Forall2_Forall_l; [exact Hfacades |].
  apply Forall_forall. intros contractList _ d (first & added & _ & _ & _ & _ & Hs & _).
  exact Hs.
Defined.

Lemma conversions_agree_witness :
  let bigNumberish : value → option Z := λ _, None in
  let record := DrawResults 7 100 [LEGACYPrize 100 3 5] in
  ∃ out,
    ExtendedConversion.formatDrawResultsFromLegacyDrawResults record = Fulfilled out
    ∧ DrawResultsConversion.formatDrawResultsFromLegacyDrawResults bigNumberish out
      = DrawResultsConversion.formatDrawResultsFromLegacyDrawResults bigNumberish
          record.
Proof.
  intros bigNumberish record. eexists. split; [reflexivity |].
  apply (conversions_agree bigNumberish record). reflexivity.
Defined.

Lemma draw_results_conversion_keeps_three_fields_witness :
  let bigNumberish : value → option Z := λ _, None in
  let record := <["winner" := VString "0xUser"]> (DrawResults 7 100 [LEGACYPrize 100 3 5]) in
  ∃ out,
    DrawResultsConversion.formatDrawResultsFromLegacyDrawResults bigNumberish record
    = Fulfilled out
    ∧ dom out = ({[ "drawId"; "totalValue"; "prizes" ]} : gset string).
Proof.
  intros bigNumberish record. eexists. split; [reflexivity |].
  eapply (draw_results_conversion_keeps_three_fields bigNumberish record). reflexivity.
Defined.

Lemma draw_results_conversion_needs_amount_and_pick_witness :
  let bigNumberish : value → option Z := λ _, None in
  let record : gmap string value :=
    {[ "prizes" := VArray [VObject {[ "pick" := VBigNumber 5 ]}] ]} in
  DrawResultsConversion.formatDrawResultsFromLegacyDrawResults bigNumberish record
  = Rejected (mkError InvalidBigNumber "invalid BigNumber value")
  ∧ ∃ out,
      ExtendedConversion.formatDrawResultsFromLegacyDrawResults record = Fulfilled out.
Proof.
  intros bigNumberish record.
  apply (draw_results_conversion_needs_amount_and_pick bigNumberish record
           [VObject {[ "pick" := VBigNumber 5 ]}]).
  - reflexivity.
  - constructor; [by eexists | constructor].
  - apply Exists_cons_hd. eexists. split; [reflexivity |]. left. reflexivity.
Defined.

(** Chain ids that are no array indices keep the order in which their keys
    were created and come after the array indices. *)
Example chain_ids_beyond_array_indices :
  chain_ids (example_sortContractsByChainId example_contracts_on_large_chain_ids)
  = [1; 11297108109; 11297108099].
Proof. vm_compute. reflexivity. Qed.

Lemma initializePrizeDistributors_asks_every_chain_witness :
  let batch_of (chainId : Z) (distributor : string) :=
    ev_request (Net.batch read_only [distributor]) in
  ∃ later,
    trace (run (example_world (1, 3) (1, 2))
             (initializePrizeDistributors example_getContractsByType
                example_sortContractsByChainId (λ contracts _ _, contracts)
                (λ contracts _, [contracts]) (λ _, read_only)
                example_contracts_on_large_chain_ids) initial).2
    = [ batch_of 1 "0xDistributorA";
        batch_of 11297108109 "0xDistributorC";
        batch_of 11297108099 "0xDistributorD" ] ++ later.
Proof.
  intros batch_of.
  destruct (initializePrizeDistributors_asks_every_chain
              example_getContractsByType example_sortContractsByChainId
              (λ contracts _ _, contracts) (λ contracts _, [contracts])
              (λ _, read_only) (example_world (1, 3) (1, 2))
              example_contracts_on_large_chain_ids initial)
    as (_ & _ & _ & _ & later & Htrace).
  exists later. rewrite Htrace. reflexivity.
Defined.
